(** * tk4-downloader: the multi-source resolution engine of [TikTokDownloader]

    A shallow embedding of the class [TikTokDownloader]: the retrying
    transport ([fetchWithRetry]), the fan-out over the provider adapters
    and the result cache ([getVideoMetadata], [cleanCache]), the arbiter
    ([selectBestQuality]), the top-level entry point ([downloadVideo]) with
    its event handlers, and the statistics operations ([getStats],
    [getDetailedStats], [resetStats]); further on, the extraction of the
    video identifier ([getVideoId]), the six provider adapters that read
    a JSON response, and [downloadTikTok] of the command-line program
    with its URL check and its file name.

    Conventions of the embedding.
    - A JavaScript object used as a record whose fields may be absent is a
      record of [option]s ([None] is [undefined]); an object or [Map] used
      as a dictionary is a [gmap].
    - A function that may throw returns [Exn + A].
    - The outside world (the clock, what each provider answers) is an
      explicit argument; the adapters that were really called are returned
      as a trace.
    - Integer counters are [Z]; the floating-point quantities (running
      means, ratios) are [JsNum.num]: exact rationals extended with the
      IEEE special values, so that a division by zero is what JavaScript
      makes of it.  Rounding of finite doubles and the sign of zero are not
      modelled. *)

From Stdlib Require Import ZArith QArith Qround Lia List Sorted.
From stdpp Require Import gmap strings list fin_maps.

Local Open Scope string_scope.
Local Open Scope Z_scope.

(** ** JavaScript numbers *)

Module JsNum.

Inductive num : Type :=
| Fin (q : Q)
| Inf (negative : bool)
| NaN.

Definition of_Z (z : Z) : num := Fin (inject_Z z).

Definition is_zero (q : Q) : bool := (Qnum q =? 0).
Definition is_neg (q : Q) : bool := (Qnum q <? 0).

Definition add (a b : num) : num :=
  match a, b with
  | NaN, _ | _, NaN => NaN
  | Fin x, Fin y => Fin (x + y)%Q
  | Inf s, Fin _ | Fin _, Inf s => Inf s
  | Inf s, Inf t => if Bool.eqb s t then Inf s else NaN
  end.

Definition mul (a b : num) : num :=
  match a, b with
  | NaN, _ | _, NaN => NaN
  | Fin x, Fin y => Fin (x * y)%Q
  | Inf s, Fin y | Fin y, Inf s =>
      if is_zero y then NaN else Inf (xorb s (is_neg y))
  | Inf s, Inf t => Inf (xorb s t)
  end.

Definition div (a b : num) : num :=
  match a, b with
  | NaN, _ | _, NaN => NaN
  | Fin x, Fin y =>
      if is_zero y
      then (if is_zero x then NaN else Inf (is_neg x))
      else Fin (x / y)%Q
  | Inf s, Fin y => Inf (xorb s (is_neg y))
  | Fin _, Inf _ => Fin 0%Q
  | Inf _, Inf _ => NaN
  end.

Definition sub (a b : num) : num := add a (mul b (Fin (-1 # 1))).

(** [Math.round]: the nearest integer, halves towards plus infinity. *)
Definition round (a : num) : num :=
  match a with
  | Fin x => Fin (inject_Z (Qfloor (x + (1 # 2))%Q))
  | other => other
  end.

(** [ToNumber] of a field that may be [undefined]. *)
Definition of_field (v : option num) : num :=
  match v with
  | Some n => n
  | None => NaN
  end.

(** A value that is not a finite number: what a ratio over zero yields. *)
Definition is_sentinel (a : num) : bool :=
  match a with
  | Fin _ => false
  | _ => true
  end.

(** The incremental mean [(mean * (n - 1) + sample) / n]. *)
Definition running_mean (mean : num) (n : Z) (sample : num) : num :=
  div (add (mul mean (of_Z (n - 1))) sample) (of_Z n).

End JsNum.

(** ** Thrown values *)

Inductive Exn : Type :=
| JsError (message : string)      (* [new Error(message)] *)
| JsTypeError (reading : string). (* property [reading] of [undefined] *)

Definition Result (A : Type) : Type := Exn + A.

(** ** Candidates and the arbiter *)

(** The tiers [qualityMap] ranks.  The adapters tag their results
    ['high'] or, for the web-scraping one, ['medium']. *)
Inductive Quality : Type := high | medium | low.

Definition quality_name (q : Quality) : string :=
  match q with
  | high => "high"
  | medium => "medium"
  | low => "low"
  end.

Record Candidate : Type := mkCandidate {
  videoUrl : option string;
  author : option string;
  desc : option string;
  quality : Quality;
  source : string
}.

Module Arbiter.

(** [const qualityMap = { high: 3, medium: 2, low: 1 }] *)
Definition qualityMap (q : Quality) : Z :=
  match q with
  | high => 3
  | medium => 2
  | low => 1
  end.

Definition sourceOrder : list string :=
  ["snaptik"; "tikwm"; "tikdown"; "savett"; "webscraping"].

(** [Array.prototype.indexOf]: the first position, or [-1]. *)
Fixpoint indexOf_from (l : list string) (x : string) (i : Z) : Z :=
  match l with
  | [] => -1
  | y :: rest => if String.eqb y x then i else indexOf_from rest x (i + 1)
  end.

Definition indexOf (l : list string) (x : string) : Z := indexOf_from l x 0.

(** The comparator handed to [results.sort]. *)
Definition compare (a b : Candidate) : Z :=
  if negb (qualityMap (quality b) =? qualityMap (quality a))
  then qualityMap (quality b) - qualityMap (quality a)
  else indexOf sourceOrder (source a) - indexOf sourceOrder (source b).

(** [Array.prototype.sort] is stable, and [compare] is a consistent
    comparator (it compares the key [(- qualityMap, indexOf)]), so the
    sorted array is the one a stable insertion sort builds: [x], which
    stood before every element of [l], goes before the first [y] that
    must not precede it. *)
Fixpoint insert (x : Candidate) (l : list Candidate) : list Candidate :=
  match l with
  | [] => [x]
  | y :: rest => if compare x y <=? 0 then x :: y :: rest else y :: insert x rest
  end.

Definition sort (l : list Candidate) : list Candidate := foldr insert [] l.

Definition has_quality (pref : string) (r : Candidate) : bool :=
  String.eqb (quality_name (quality r)) pref.

(** Over an empty array [results[0]] is [undefined], and building the
    debug message reads [selected.source]. *)
Definition selectBestQuality (preferredQuality : string)
    (results : list Candidate) : Result Candidate :=
  match sort results with
  | [] => inl (JsTypeError "source")
  | (top :: _) as sorted =>
      if negb (String.eqb preferredQuality "high")
      then match List.find (has_quality preferredQuality) sorted with
           | Some r => inr r
           | None => inr top
           end
      else inr top
  end.

End Arbiter.

(** ** The retrying transport *)

Module Transport.

(** What [fetchWithRetry] does to the outside: the calls of [axios] and
    the [setTimeout] delays, in order. *)
Inductive Event : Type :=
| Attempt (i : Z)
| Sleep (ms : Z).

Section Fetch.
Context {Response Err : Type}.

(** The outcome of the call of [axios(config)] made by attempt [i]. *)
Variable axios : Z -> Err + Response.

(** The [for (let i = 0; i < retries; i++)] loop, entered with
    [remaining] iterations to go.  The result is the response, or the
    thrown [lastError] ([None] is the initial [null]). *)
Fixpoint attempts (retries : Z) (remaining : nat) (i : Z)
    (lastError : option Err) : list Event * (option Err + Response) :=
  match remaining with
  | O => ([], inl lastError)
  | S rest =>
      match axios i with
      | inr response => ([Attempt i], inr response)
      | inl error =>
          let backoff :=
            if i <? retries - 1 then [Sleep (2 ^ i * 1000)] else [] in
          let '(trace, outcome) :=
            attempts retries rest (i + 1) (Some error) in
          (Attempt i :: (backoff ++ trace)%list, outcome)
      end
  end.

Definition fetchWithRetry (maxRetries : Z)
    : list Event * (option Err + Response) :=
  attempts maxRetries (Z.to_nat maxRetries) 0 None.

End Fetch.

(** The schedule as the specification words it, for [k] failed attempts:
    attempt [i], then a sleep of [2^i] seconds unless it was the last. *)
Definition schedule_step (k n : nat) : list Event :=
  Attempt (Z.of_nat n)
  :: (if (S n <? k)%nat then [Sleep (2 ^ Z.of_nat n * 1000)] else []).

Definition backoff_schedule (k : nat) : list Event :=
  flat_map (schedule_step k) (seq 0 k).

(** What the loop of [fetchWithRetry] does at index [i + n] when the
    attempt fails. *)
Definition step_events (retries i : Z) (n : nat) : list Event :=
  Attempt (i + Z.of_nat n)
  :: (if i + Z.of_nat n <? retries - 1
      then [Sleep (2 ^ (i + Z.of_nat n) * 1000)] else []).

Definition is_attempt (e : Event) : bool :=
  match e with
  | Attempt _ => true
  | Sleep _ => false
  end.

Definition attempts_made (trace : list Event) : nat :=
  length (List.filter is_attempt trace).

Definition sleeps (trace : list Event) : list Z :=
  flat_map (fun e => match e with Sleep ms => [ms] | Attempt _ => [] end) trace.

End Transport.

(** ** Engine configuration *)

(** The options a caller may pass to the constructor; [None] is a field
    left out. *)
Record UserOptions : Type := mkUserOptions {
  user_timeout : option Z;
  user_maxRetries : option Z;
  user_preferredQuality : option string;
  user_cacheResults : option bool;
  user_maxCacheAge : option Z
}.

Record Options : Type := mkOptions {
  timeout : Z;
  maxRetries : Z;
  preferredQuality : string;
  cacheResults : bool;
  maxCacheAge : Z
}.

(** [v || d] over numbers: [undefined] and [0] are falsy. *)
Definition or_number (v : option Z) (d : Z) : Z :=
  match v with
  | Some n => if n =? 0 then d else n
  | None => d
  end.

(** [v || d] over strings: [undefined] and the empty string are falsy. *)
Definition or_string (v : option string) (d : string) : string :=
  match v with
  | Some s => if String.eqb s "" then d else s
  | None => d
  end.

(** [v ?? d] *)
Definition nullish (v : option bool) (d : bool) : bool :=
  match v with
  | Some b => b
  | None => d
  end.

Definition make_options (o : UserOptions) : Options :=
  {| timeout := or_number (user_timeout o) 10000;
     maxRetries := or_number (user_maxRetries o) 3;
     preferredQuality := or_string (user_preferredQuality o) "high";
     cacheResults := nullish (user_cacheResults o) true;
     maxCacheAge := or_number (user_maxCacheAge o) 3600000 |}.

Definition default_user_options : UserOptions :=
  mkUserOptions None None None None None.

(** ** The engine: statistics, cache, fan-out *)

Record ApiStat : Type := mkApiStat {
  calls : Z;
  successes : Z;
  failures : Z;
  averageResponseTime : JsNum.num
}.

Record ErrorEntry : Type := mkErrorEntry {
  logged_at : Z;
  error : option string;
  url : option string
}.

(** [this.stats].  The constructor creates every field; [resetStats]
    assigns an object that has only the first four, so the others may be
    [undefined]. *)
Record Stats : Type := mkStats {
  totalDownloads : Z;
  successfulDownloads : Z;
  failedDownloads : Z;
  averageSpeed : JsNum.num;
  totalSize : option Z;
  cacheSaves : option JsNum.num;
  apiUsage : option (gmap string ApiStat);
  errors : option (list ErrorEntry);
  startTime : option Z
}.

Record CacheEntry : Type := mkCacheEntry {
  timestamp : Z;
  data : Candidate
}.

Record Engine : Type := mkEngine {
  options : Options;
  cache : gmap string CacheEntry;
  stats : Stats
}.

(** What one adapter, raced against the timeout, comes to. *)
Inductive Outcome : Type :=
| Resolved (c : Candidate) (duration : Z) (* a truthy result, after [duration] ms *)
| Absent                                  (* [null] or [undefined] *)
| TimedOut                                (* the timer rejects with [Error('Timeout')] *)
| Failed (message : string).              (* the adapter rejects *)

(** How a fan-out unit settles under [Promise.allSettled]. *)
Inductive Settled : Type :=
| Fulfilled (value : option Candidate)
| Rejected (reason : Exn).

(** The clock readings and provider answers one resolution observes. *)
Record World : Type := mkWorld {
  now_lookup : Z;                (* [Date.now()] of the cache check *)
  answers : string -> Outcome;   (* per adapter name *)
  now_store : Z                  (* [Date.now()] of the cache store *)
}.

(** The same for one [downloadVideo]. *)
Record DownloadWorld : Type := mkDownloadWorld {
  now_start : Z;
  resolution : World;
  now_end : Z;
  now_error : Z                  (* [Date.now()] in the ['error'] handler *)
}.

(** The payload of the ['success'] event and the value [downloadVideo]
    returns (which lacks [elapsed]). *)
Record SuccessInfo : Type := mkSuccessInfo {
  info_url : option string;
  info_author : option string;
  info_description : option string;
  info_quality : Quality;
  info_source : string
}.

(** The payload of the ['error'] event: [downloadVideo] emits
    [{ error, url }], the handler reads [message] and [url]. *)
Record ErrorEvent : Type := mkErrorEvent {
  ev_message : option string;
  ev_error : option string;
  ev_url : option string
}.

Record BasicStats : Type := mkBasicStats {
  basic_stats : Stats;
  successRate : JsNum.num;
  averageSpeedMs : JsNum.num
}.

(** The string [formatBytes] builds; its floating-point branch
    ([Math.log], [toFixed]) is kept symbolic. *)
Inductive Formatted : Type :=
| ZeroBytes                       (* ['0 Bytes'] *)
| Scaled (bytes : option Z).

Record DetailedStats : Type := mkDetailedStats {
  detailed_stats : Stats;
  uptime : JsNum.num;
  detailed_successRate : JsNum.num;
  detailed_averageSpeedMs : JsNum.num;
  cacheEfficiency : JsNum.num;
  apiPerformance : option (gmap string ApiStat);
  lastErrors : list ErrorEntry;
  totalSizeFormatted : Formatted
}.

Module Engine.

(** The keys of [this.apis]. *)
Definition apis : list string :=
  ["snaptik"; "tikwm"; "tikmate"; "savett"; "tikdown"; "tiktokapi";
   "dlpanda"; "ssstik"].

(** The names of [apiMethods], in order. *)
Definition apiMethods : list string :=
  ["snaptik"; "tikwm"; "tikdown"; "savett"; "ssstik"; "dlpanda";
   "webscraping"].

Definition zero_stat : ApiStat := mkApiStat 0 0 0 (JsNum.of_Z 0).

(** [Object.keys(this.apis).forEach(api => this.stats.apiUsage[api] = ...)] *)
Definition initial_usage : gmap string ApiStat :=
  foldl (fun usage api => <[api := zero_stat]> usage) ∅ apis.

Definition initial_stats (now : Z) : Stats :=
  {| totalDownloads := 0;
     successfulDownloads := 0;
     failedDownloads := 0;
     averageSpeed := JsNum.of_Z 0;
     totalSize := Some 0;
     cacheSaves := Some (JsNum.of_Z 0);
     apiUsage := Some initial_usage;
     errors := Some [];
     startTime := Some now |}.

Definition constructor (o : UserOptions) (now : Z) : Engine :=
  {| options := make_options o; cache := ∅; stats := initial_stats now |}.

Definition set_stats (e : Engine) (s : Stats) : Engine :=
  {| options := options e; cache := cache e; stats := s |}.

Definition set_cache (e : Engine) (c : gmap string CacheEntry) : Engine :=
  {| options := options e; cache := c; stats := stats e |}.

Definition set_usage (s : Stats) (usage : gmap string ApiStat) : Stats :=
  {| totalDownloads := totalDownloads s;
     successfulDownloads := successfulDownloads s;
     failedDownloads := failedDownloads s;
     averageSpeed := averageSpeed s;
     totalSize := totalSize s;
     cacheSaves := cacheSaves s;
     apiUsage := Some usage;
     errors := errors s;
     startTime := startTime s |}.

(** [this.stats.cacheSaves++] *)
Definition bump_cacheSaves (s : Stats) : Stats :=
  {| totalDownloads := totalDownloads s;
     successfulDownloads := successfulDownloads s;
     failedDownloads := failedDownloads s;
     averageSpeed := averageSpeed s;
     totalSize := totalSize s;
     cacheSaves :=
       Some (JsNum.add (JsNum.of_field (cacheSaves s)) (JsNum.of_Z 1));
     apiUsage := apiUsage s;
     errors := errors s;
     startTime := startTime s |}.

(** [this.stats.totalDownloads++] *)
Definition bump_total (s : Stats) : Stats :=
  {| totalDownloads := totalDownloads s + 1;
     successfulDownloads := successfulDownloads s;
     failedDownloads := failedDownloads s;
     averageSpeed := averageSpeed s;
     totalSize := totalSize s;
     cacheSaves := cacheSaves s;
     apiUsage := apiUsage s;
     errors := errors s;
     startTime := startTime s |}.

(** [this.stats.successfulDownloads++] and the update of
    [averageSpeed] that follows it. *)
Definition record_download (elapsed : Z) (s : Stats) : Stats :=
  {| totalDownloads := totalDownloads s;
     successfulDownloads := successfulDownloads s + 1;
     failedDownloads := failedDownloads s;
     averageSpeed :=
       JsNum.running_mean (averageSpeed s) (successfulDownloads s + 1)
         (JsNum.of_Z elapsed);
     totalSize := totalSize s;
     cacheSaves := cacheSaves s;
     apiUsage := apiUsage s;
     errors := errors s;
     startTime := startTime s |}.

(** [this.stats.failedDownloads++] *)
Definition bump_failed (s : Stats) : Stats :=
  {| totalDownloads := totalDownloads s;
     successfulDownloads := successfulDownloads s;
     failedDownloads := failedDownloads s + 1;
     averageSpeed := averageSpeed s;
     totalSize := totalSize s;
     cacheSaves := cacheSaves s;
     apiUsage := apiUsage s;
     errors := errors s;
     startTime := startTime s |}.

Definition set_errors (s : Stats) (log : list ErrorEntry) : Stats :=
  {| totalDownloads := totalDownloads s;
     successfulDownloads := successfulDownloads s;
     failedDownloads := failedDownloads s;
     averageSpeed := averageSpeed s;
     totalSize := totalSize s;
     cacheSaves := cacheSaves s;
     apiUsage := apiUsage s;
     errors := Some log;
     startTime := startTime s |}.

(** *** Per-provider accounting *)

Definition bump_calls (a : ApiStat) : ApiStat :=
  mkApiStat (calls a + 1) (successes a) (failures a) (averageResponseTime a).

(** [successes++] followed by the running-mean assignment, as the
    fan-out unit and the ['success'] handler both write it. *)
Definition record_success (sample : Z) (a : ApiStat) : ApiStat :=
  mkApiStat (calls a) (successes a + 1) (failures a)
    (JsNum.running_mean (averageResponseTime a) (successes a + 1)
       (JsNum.of_Z sample)).

Definition bump_failures (a : ApiStat) : ApiStat :=
  mkApiStat (calls a) (successes a) (failures a + 1) (averageResponseTime a).

(** The line [`${name}: ${error.message}`] pushed on the local
    [errors] array. *)
Definition error_line (name message : string) : string :=
  name ++ ": " ++ message.

(** The state a fan-out threads: the statistics, the local [errors]
    array, and the adapters whose [fn] was called. *)
Record Fanout : Type := mkFanout {
  fan_stats : Stats;
  fan_errors : list string;
  fan_called : list string
}.

(** One unit of [apiMethods.map(async ({ name, fn }) => ...)].
    [this.stats.apiUsage[name].calls++] comes before [fn()] inside the
    [try]; when it throws, the [catch] block runs
    [this.stats.apiUsage[name].failures++], which throws again, and the
    unit rejects without having called [fn]. *)
Definition run_unit (name : string) (answer : Outcome) (f : Fanout)
    : Fanout * Settled :=
  match apiUsage (fan_stats f) with
  | None => (f, Rejected (JsTypeError name))
  | Some usage =>
      match usage !! name with
      | None => (f, Rejected (JsTypeError "failures"))
      | Some entry =>
          let launched := bump_calls entry in
          let called := (fan_called f ++ [name])%list in
          match answer with
          | Resolved c duration =>
              (mkFanout
                 (set_usage (fan_stats f)
                    (<[name := record_success duration launched]> usage))
                 (fan_errors f) called,
               Fulfilled (Some c))
          | Absent =>
              (mkFanout
                 (set_usage (fan_stats f) (<[name := launched]> usage))
                 (fan_errors f) called,
               Fulfilled None)
          | TimedOut =>
              (mkFanout
                 (set_usage (fan_stats f)
                    (<[name := bump_failures launched]> usage))
                 (fan_errors f ++ [error_line name "Timeout"])%list called,
               Fulfilled None)
          | Failed message =>
              (mkFanout
                 (set_usage (fan_stats f)
                    (<[name := bump_failures launched]> usage))
                 (fan_errors f ++ [error_line name message])%list called,
               Fulfilled None)
          end
      end
  end.

(** What a unit whose name has an entry makes of that entry, of the
    [errors] array and of its promise, by outcome. *)
Definition settle_entry (answer : Outcome) (entry : ApiStat) : ApiStat :=
  match answer with
  | Resolved _ duration => record_success duration (bump_calls entry)
  | Absent => bump_calls entry
  | TimedOut | Failed _ => bump_failures (bump_calls entry)
  end.

Definition settle_errors (name : string) (answer : Outcome) : list string :=
  match answer with
  | TimedOut => [error_line name "Timeout"]
  | Failed message => [error_line name message]
  | Resolved _ _ | Absent => []
  end.

Definition settle_value (answer : Outcome) : option Candidate :=
  match answer with
  | Resolved c _ => Some c
  | _ => None
  end.

Definition is_resolved (answer : Outcome) : bool :=
  match answer with
  | Resolved _ _ => true
  | _ => false
  end.

Definition is_timed_out (answer : Outcome) : bool :=
  match answer with
  | TimedOut => true
  | _ => false
  end.

(** The outcomes that reach the [catch] block of the unit. *)
Definition is_rejected (answer : Outcome) : bool :=
  match answer with
  | TimedOut | Failed _ => true
  | _ => false
  end.

Definition indicator (b : bool) : Z := if b then 1 else 0.

(** Every adapter ([trySnaptikAPI], [tryTikwmAPI], ...) builds its result
    with [source] set to its own name. *)
Definition well_tagged (answers : string -> Outcome) : Prop :=
  forall n c duration, answers n = Resolved c duration -> source c = n.

(** The sum of one counter over every provider of the registry. *)
Definition total (field : ApiStat -> Z) (usage : gmap string ApiStat) : Z :=
  map_fold (fun _ entry acc => field entry + acc) 0 usage.

(** How many of the units come to an outcome of a given kind. *)
Definition count_outcomes (kind : Outcome -> bool)
    (answers : string -> Outcome) (methods : list string) : Z :=
  Z.of_nat (length (List.filter (fun name => kind (answers name)) methods)).

(** [Promise.allSettled(apiMethods.map(...))].  The units interleave at
    their [await]s, but each writes only the entry of its own name and
    the [results] array is in the order of [apiMethods]; they are run
    here one after the other in that order. *)
Fixpoint fanout (methods : list string) (answers : string -> Outcome)
    (f : Fanout) : Fanout * list Settled :=
  match methods with
  | [] => (f, [])
  | name :: rest =>
      let '(f1, r) := run_unit name (answers name) f in
      let '(f2, rs) := fanout rest answers f1 in
      (f2, r :: rs)
  end.

(** [results.filter(r => r.status === 'fulfilled' && r.value)
           .map(r => r.value)] *)
Definition successful (results : list Settled) : list Candidate :=
  flat_map
    (fun r => match r with Fulfilled (Some c) => [c] | _ => [] end)
    results.

Definition join_lines (lines : list string) : string :=
  String.concat (String (Ascii.ascii_of_nat 10) "") lines.

Section WithHash.

(** [createHash('md5').update(url).digest('hex')] *)
Variable generateCacheKey : string -> string.

(** The cache check at the head of [getVideoMetadata]. *)
Definition cache_lookup (e : Engine) (now : Z) (u : string)
    : option Candidate :=
  if cacheResults (options e)
  then match cache e !! generateCacheKey u with
       | Some cached =>
           if now - timestamp cached <? maxCacheAge (options e)
           then Some (data cached)
           else None
       | None => None
       end
  else None.

(** The cache store at its end. *)
Definition cache_store (e : Engine) (now : Z) (u : string)
    (best : Candidate) : Engine :=
  if cacheResults (options e)
  then set_cache e (<[generateCacheKey u := mkCacheEntry now best]> (cache e))
  else e.

(** [getVideoMetadata]: the engine afterwards, the adapters called,
    and the metadata or the error thrown.  [getVideoId], whose result is
    not used and which never throws, and the ['progress'] and ['debug']
    events, which the class does not listen to, leave no mark on the
    engine and are not represented. *)
Definition getVideoMetadata (w : World) (u : string) (e : Engine)
    : Engine * list string * Result Candidate :=
  match cache_lookup e (now_lookup w) u with
  | Some cached => (set_stats e (bump_cacheSaves (stats e)), [], inr cached)
  | None =>
      let '(f, results) :=
        fanout apiMethods (answers w) (mkFanout (stats e) [] []) in
      let e1 := set_stats e (fan_stats f) in
      match successful results with
      | [] =>
          (e1, fan_called f,
           inl (JsError ("All methods failed:"
                         ++ String (Ascii.ascii_of_nat 10) ""
                         ++ join_lines (fan_errors f))))
      | (_ :: _) as found =>
          match Arbiter.selectBestQuality (preferredQuality (options e)) found with
          | inr best => (cache_store e1 (now_store w) u best, fan_called f, inr best)
          | inl exn => (e1, fan_called f, inl exn)
          end
      end
  end.

(** [cleanCache], run by the interval timer at time [now]. *)
Definition cleanCache (now : Z) (e : Engine) : Engine :=
  set_cache e
    (filter
       (fun kv : string * CacheEntry =>
          ¬ (now - timestamp kv.2 > maxCacheAge (options e)))
       (cache e)).

(** *** Event handlers *)

(** [error.message] *)
Definition message_of (exn : Exn) : string :=
  match exn with
  | JsError message => message
  | JsTypeError reading =>
      "Cannot read properties of undefined (reading '" ++ reading ++ "')"
  end.

(** The ['error'] handler:
    [this.stats.errors.push({ timestamp, error: error.message, url: error.url })]. *)
Definition on_error (now : Z) (ev : ErrorEvent) (s : Stats) : Result Stats :=
  match errors s with
  | None => inl (JsTypeError "push")
  | Some log =>
      inr (set_errors s (log ++ [mkErrorEntry now (ev_message ev) (ev_url ev)])%list)
  end.

(** The ['success'] handler; [elapsed] is [info.duration]. *)
Definition on_success (info : SuccessInfo) (elapsed : Z) (s : Stats)
    : Result Stats :=
  match apiUsage s with
  | None => inl (JsTypeError (info_source info))
  | Some usage =>
      match usage !! info_source info with
      | None => inr s
      | Some entry =>
          inr (set_usage s
                 (<[info_source info := record_success elapsed entry]> usage))
      end
  end.

(** *** downloadVideo *)

Definition truthy (v : option string) : bool :=
  match v with
  | Some s => negb (String.eqb s "")
  | None => false
  end.

Definition info_of (metadata : Candidate) : SuccessInfo :=
  {| info_url := videoUrl metadata;
     info_author := author metadata;
     info_description := desc metadata;
     info_quality := quality metadata;
     info_source := source metadata |}.

(** The [catch] block of [downloadVideo]: when the ['error'] handler
    throws, its exception replaces the one being handled. *)
Definition fail_download (now : Z) (u : string) (exn : Exn) (e : Engine)
    : Engine * Exn :=
  let s := bump_failed (stats e) in
  match on_error now (mkErrorEvent None (Some (message_of exn)) (Some u)) s with
  | inr logged => (set_stats e logged, exn)
  | inl thrown => (set_stats e s, thrown)
  end.

Definition downloadVideo (w : DownloadWorld) (u : string) (e : Engine)
    : Engine * list string * Result SuccessInfo :=
  let e0 := set_stats e (bump_total (stats e)) in
  let '(e1, called, found) := getVideoMetadata (resolution w) u e0 in
  let failing exn at_engine :=
    let '(e2, thrown) := fail_download (now_error w) u exn at_engine in
    (e2, called, inl thrown) in
  match found with
  | inl exn => failing exn e1
  | inr metadata =>
      if truthy (videoUrl metadata)
      then
        let elapsed := now_end w - now_start w in
        let s2 := record_download elapsed (stats e1) in
        match on_success (info_of metadata) elapsed s2 with
        | inr s3 => (set_stats e1 s3, called, inr (info_of metadata))
        | inl exn => failing exn (set_stats e1 s2)
        end
      else failing (JsError "Could not get video URL") e1
  end.

End WithHash.

(** *** Statistics *)

(** The ratio [(a / b) * 100] of two statistics. *)
Definition percentage (a b : JsNum.num) : JsNum.num :=
  JsNum.mul (JsNum.div a b) (JsNum.of_Z 100).

Definition getStats (s : Stats) : BasicStats :=
  {| basic_stats := s;
     successRate :=
       percentage (JsNum.of_Z (successfulDownloads s))
         (JsNum.of_Z (totalDownloads s));
     averageSpeedMs := JsNum.round (averageSpeed s) |}.

Definition resetStats (e : Engine) : Engine :=
  set_stats e
    {| totalDownloads := 0;
       successfulDownloads := 0;
       failedDownloads := 0;
       averageSpeed := JsNum.of_Z 0;
       totalSize := None;
       cacheSaves := None;
       apiUsage := None;
       errors := None;
       startTime := None |}.

Definition formatBytes (bytes : option Z) : Formatted :=
  match bytes with
  | Some 0 => ZeroBytes
  | other => Scaled other
  end.

(** [array.slice(-5)] *)
Definition last_five (log : list ErrorEntry) : list ErrorEntry :=
  drop (length log - 5)%nat log.

(** The fields of the returned object are evaluated in order, so
    [this.stats.errors.slice(-5)] throws before anything is returned
    when [errors] is [undefined]. *)
Definition getDetailedStats (now : Z) (s : Stats) : Result DetailedStats :=
  let up :=
    JsNum.sub (JsNum.of_Z now) (JsNum.of_field (option_map JsNum.of_Z (startTime s))) in
  match errors s with
  | None => inl (JsTypeError "slice")
  | Some log =>
      inr {| detailed_stats := s;
             uptime := up;
             detailed_successRate :=
               percentage (JsNum.of_Z (successfulDownloads s))
                 (JsNum.of_Z (totalDownloads s));
             detailed_averageSpeedMs := JsNum.round (averageSpeed s);
             cacheEfficiency :=
               percentage (JsNum.of_field (cacheSaves s))
                 (JsNum.of_Z (totalDownloads s));
             apiPerformance := apiUsage s;
             lastErrors := last_five log;
             totalSizeFormatted := formatBytes (totalSize s) |}
  end.

End Engine.

(** ** A scenario used to exercise the statements

    One reference, answered by ["snaptik"] alone; a first download that
    misses the cache and a second one, a little later, that hits it. *)

Module Scenario.

Definition key (u : string) : string := u.

Definition reference : string := "https://www.tiktok.com/@a/video/7".

Definition answer : Candidate :=
  mkCandidate (Some "https://cdn/7.mp4") (Some "a") None high "snaptik".

Definition providers (n : string) : Outcome :=
  if String.eqb n "snaptik" then Resolved answer 40 else Absent.

Definition first_resolution : World := mkWorld 100 providers 150.
Definition second_resolution : World := mkWorld 200 providers 250.
Definition late_resolution : World := mkWorld 3600149 providers 3600200.

Definition first_download : DownloadWorld :=
  mkDownloadWorld 90 first_resolution 160 170.
Definition second_download : DownloadWorld :=
  mkDownloadWorld 190 second_resolution 260 270.

Definition fresh : Engine := Engine.constructor default_user_options 0.

Definition after_first_resolution : Engine :=
  (Engine.getVideoMetadata key first_resolution reference fresh).1.1.

Definition after_first_download : Engine :=
  (Engine.downloadVideo key first_download reference fresh).1.1.

Definition after_second_download : Engine :=
  (Engine.downloadVideo key second_download reference after_first_download).1.1.

End Scenario.

(** * Further parts of the code *)

(** ** The time [fetchWithRetry] spends sleeping *)

Definition total_sleep (trace : list Transport.Event) : Z :=
  foldr Z.add 0 (Transport.sleeps trace).

(** The trace of [j] failed attempts, each followed by its back-off,
    and of the attempt that succeeds. *)
Definition retry_then_succeed (j : nat) : list Transport.Event :=
  (flat_map
     (fun i : nat =>
        [Transport.Attempt (Z.of_nat i);
         Transport.Sleep (2 ^ Z.of_nat i * 1000)])
     (seq 0 j)
   ++ [Transport.Attempt (Z.of_nat j)])%list.

(** ** The order the comparator induces *)

(** The key [Arbiter.compare] compares by: the tier first, higher tiers
    before, then the position in [sourceOrder]. *)
Definition rank (a : Candidate) : Z :=
  Arbiter.indexOf Arbiter.sourceOrder (source a)
  - 10 * Arbiter.qualityMap (quality a).

(** The comparator returns [0]: the sort must keep the two in order. *)
Definition ties_with (x y : Candidate) : bool := Arbiter.compare x y =? 0.

Definition precedes (a b : Candidate) : Prop := Arbiter.compare a b <= 0.

(** ** Sequences of operations on one engine *)

(** The calls a user of the class, and its interval timer, make on an
    engine, each with what it observes of the outside. *)
Inductive Op : Type :=
| Download (w : DownloadWorld) (u : string)  (* [downloadVideo(u)] *)
| Resolve (w : World) (u : string)           (* [getVideoMetadata(u)] *)
| Sweep (now : Z)                            (* the timer runs [cleanCache] *)
| Reset.                                     (* [resetStats()] *)

Definition is_reset (op : Op) : bool :=
  match op with
  | Reset => true
  | _ => false
  end.

Definition reset_free (ops : list Op) : Prop :=
  forallb (fun op => negb (is_reset op)) ops = true.

Section Runs.
Variable generateCacheKey : string -> string.

Definition apply_op (e : Engine) (op : Op) : Engine :=
  match op with
  | Download w u => (Engine.downloadVideo generateCacheKey w u e).1.1
  | Resolve w u => (Engine.getVideoMetadata generateCacheKey w u e).1.1
  | Sweep now => Engine.cleanCache now e
  | Reset => Engine.resetStats e
  end.

Definition run (ops : list Op) (e : Engine) : Engine := foldl apply_op e ops.

End Runs.

(** The statistics as the constructor shapes them and every operation
    but [resetStats] keeps them: the registry has the providers of
    [apis], the log has one entry per failed download, each with its
    [error] field [undefined] (the handler reads [message] off a payload
    that carries [error]), and every download is counted once as a
    success or as a failure. *)
Definition well_shaped (start : Z) (s : Stats) : Prop :=
  exists usage log,
    apiUsage s = Some usage /\
    dom usage = dom Engine.initial_usage /\
    errors s = Some log /\
    Z.of_nat (length log) = failedDownloads s /\
    Forall (fun entry => error entry = None /\ is_Some (url entry)) log /\
    totalSize s = Some 0 /\
    startTime s = Some start /\
    totalDownloads s = successfulDownloads s + failedDownloads s /\
    0 <= successfulDownloads s /\
    0 <= failedDownloads s.

(** The adapters whose unit has an entry in the constructor's registry. *)
Definition registered : list string :=
  ["snaptik"; "tikwm"; "tikdown"; "savett"; "ssstik"; "dlpanda"].

(** The operations that go through the cache check of
    [getVideoMetadata], and those that go through [downloadVideo]. *)
Definition is_resolution (op : Op) : bool :=
  match op with
  | Download _ _ | Resolve _ _ => true
  | _ => false
  end.

Definition is_download (op : Op) : bool :=
  match op with
  | Download _ _ => true
  | _ => false
  end.

Definition resolutions (ops : list Op) : Z :=
  Z.of_nat (length (List.filter is_resolution ops)).

Definition downloads (ops : list Op) : Z :=
  Z.of_nat (length (List.filter is_download ops)).

(** Sequences made of [downloadVideo] calls and timer sweeps only: what
    a user who keeps to the documented methods, and never resets, runs. *)
Definition is_download_or_sweep (op : Op) : bool :=
  match op with
  | Download _ _ | Sweep _ => true
  | _ => false
  end.

Definition downloads_only (ops : list Op) : Prop :=
  forallb is_download_or_sweep ops = true.

(** What the counters say after [n] resolutions of which [d] were
    downloads: [cacheSaves] is the number of hits, every provider with a
    fan-out unit has been called once per miss and has failed at most that
    often, the two providers of [apis] without a unit never. *)
Definition counted (n d : Z) (s : Stats) : Prop :=
  exists usage q hits,
    apiUsage s = Some usage /\
    cacheSaves s = Some (JsNum.Fin q) /\
    (q == inject_Z hits)%Q /\
    0 <= hits <= n /\
    totalDownloads s = d /\
    forall name, name ∈ Engine.apis ->
      exists entry,
        usage !! name = Some entry /\
        calls entry = (if decide (name ∈ Engine.apiMethods) then n - hits else 0) /\
        0 <= failures entry <= calls entry.

(** ** Which provider wins *)


(** The six adapters that are called build their result with
    [quality: 'high'] and [source] their own name. *)
Definition tagged_high (answers : string -> Outcome) : Prop :=
  forall name c duration,
    name ∈ registered -> answers name = Resolved c duration ->
    source c = name /\ quality c = high.

(** A resolution in which two providers answer: snaptik at once, dlpanda
    late. *)
Module Contest.

Definition by_snaptik : Candidate :=
  mkCandidate (Some "https://cdn/a.mp4") (Some "a") None high "snaptik".

Definition by_dlpanda : Candidate :=
  mkCandidate (Some "https://cdn/b.mp4") None None high "dlpanda".

Definition providers (n : string) : Outcome :=
  if String.eqb n "snaptik" then Resolved by_snaptik 10
  else if String.eqb n "dlpanda" then Resolved by_dlpanda 900
  else Absent.

Definition world : World := mkWorld 100 providers 150.

End Contest.

(** ** A provider that answers without a video URL *)

Module Unusable.

Definition answer : Candidate :=
  mkCandidate None (Some "a") None high "tikwm".

Definition providers (n : string) : Outcome :=
  if String.eqb n "tikwm" then Resolved answer 30 else TimedOut.

Definition first_try : DownloadWorld :=
  mkDownloadWorld 10 (mkWorld 20 providers 60) 70 80.

(** By the second try every provider would answer properly. *)
Definition second_try : DownloadWorld :=
  mkDownloadWorld 1000 (mkWorld 1010 Scenario.providers 1020) 1030 1040.

Definition after_first_try : Engine :=
  (Engine.downloadVideo Scenario.key first_try Scenario.reference Scenario.fresh).1.1.

End Unusable.

(** ** A session on one engine *)

Module Session.

(** A download that succeeds, a sweep, a resolution served from the
    cache, and a download of another reference that fails. *)
Definition ops : list Op :=
  [Download Scenario.first_download Scenario.reference;
   Sweep 180;
   Resolve Scenario.second_resolution Scenario.reference;
   Download Unusable.first_try "https://www.tiktok.com/@b/video/8"].

Definition final : Engine := run Scenario.key ops Scenario.fresh.

Definition uncached : UserOptions :=
  mkUserOptions None None None (Some false) None.

End Session.

(** ** [getVideoId]

    The identifier is looked for with four patterns, each a literal
    followed by a captured run of digits or of word characters.  The
    patterns and the hosts are ASCII, so matching the bytes of the URL is
    matching its characters. *)

Module VideoId.
Import Stdlib.Strings.Ascii.

Definition code (c : Ascii.ascii) : N := Ascii.N_of_ascii c.

(** [\d] *)
Definition is_digit (c : Ascii.ascii) : bool :=
  ((48 <=? code c) && (code c <=? 57))%N.

(** [\w] *)
Definition is_word (c : Ascii.ascii) : bool :=
  is_digit c
  || ((65 <=? code c) && (code c <=? 90))%N
  || ((97 <=? code c) && (code c <=? 122))%N
  || (code c =? 95)%N.

Fixpoint all_of (cls : Ascii.ascii -> bool) (s : string) : bool :=
  match s with
  | EmptyString => true
  | String c rest => cls c && all_of cls rest
  end.

(** The longest prefix of [s] made of characters of the class: what a
    greedy [(\d+)] or [(\w+)] captures at the head of [s]. *)
Fixpoint take_while (cls : Ascii.ascii -> bool) (s : string) : string :=
  match s with
  | EmptyString => EmptyString
  | String c rest => if cls c then String c (take_while cls rest) else EmptyString
  end.

(** [s] without its prefix [p], when it starts with [p]. *)
Fixpoint strip_prefix (p s : string) : option string :=
  match p, s with
  | EmptyString, _ => Some s
  | String a p', String b s' => if Ascii.eqb a b then strip_prefix p' s' else None
  | String _ _, EmptyString => None
  end.

(** A match of [/lit(cls+)/] that starts at the head of [s]. *)
Definition match_here (lit : string) (cls : Ascii.ascii -> bool) (s : string)
    : option string :=
  match strip_prefix lit s with
  | Some rest =>
      match take_while cls rest with
      | EmptyString => None
      | capture => Some capture
      end
  | None => None
  end.

(** [s.match(/lit(cls+)/)]: group 1 of the leftmost match. *)
Fixpoint match_after (lit : string) (cls : Ascii.ascii -> bool) (s : string)
    : option string :=
  match match_here lit cls s with
  | Some capture => Some capture
  | None =>
      match s with
      | EmptyString => None
      | String _ rest => match_after lit cls rest
      end
  end.

(** [s.includes(needle)] *)
Fixpoint includes (needle s : string) : bool :=
  match strip_prefix needle s with
  | Some _ => true
  | None =>
      match s with
      | EmptyString => false
      | String _ rest => includes needle rest
      end
  end.

(** The four patterns, each a literal followed by a captured run. *)
Definition patterns : list (string * (Ascii.ascii -> bool)) :=
  [("video/", is_digit); ("/v/", is_digit);
   ("vm.tiktok.com/", is_word); ("vt.tiktok.com/", is_word)].

(** The [for (const pattern of patterns)] loop. *)
Fixpoint first_match (ps : list (string * (Ascii.ascii -> bool))) (url : string)
    : option string :=
  match ps with
  | [] => None
  | (lit, cls) :: rest =>
      match match_after lit cls url with
      | Some id => Some id
      | None => first_match rest url
      end
  end.

Definition is_short_link (url : string) : bool :=
  includes "vm.tiktok.com" url || includes "vt.tiktok.com" url.

(** [getVideoId].  [head url] is the final URL [axios.head(url)] reports
    ([None] when the request fails or reports none: either way the
    [catch] block returns [null]).  The result lists the [HEAD] requests
    made; its second component is [None] when the chain of redirects is
    longer than [fuel], [Some None] for [null]. *)
Fixpoint getVideoId (fuel : nat) (head : string -> option string) (url : string)
    : list string * option (option string) :=
  match first_match patterns url with
  | Some id => ([], Some (Some id))
  | None =>
      if is_short_link url
      then match fuel with
           | O => ([], None)
           | S fuel' =>
               match head url with
               | None => ([url], Some None)
               | Some finalUrl =>
                   let '(requests, result) := getVideoId fuel' head finalUrl in
                   (url :: requests, result)
               end
           end
      else ([], Some None)
  end.

(** The URL a result was read from: [url] itself, or the final URL of
    the last request. *)
Definition last_visited (head : string -> option string) (url : string)
    (requests : list string) : option string :=
  match last requests with
  | None => Some url
  | Some request => head request
  end.

Definition starts_with (cls : Ascii.ascii -> bool) (s : string) : bool :=
  match s with
  | EmptyString => false
  | String c _ => cls c
  end.

(** The characters other than [x]. *)
Definition not_char (x : Ascii.ascii) (c : Ascii.ascii) : bool :=
  negb (Ascii.eqb c x).

End VideoId.

(** ** Response bodies

    What [axios] hands over as [response.data]: a parsed JSON document,
    or a string.  Only what the adapters do with it is modelled: reading
    the properties they name, and truthiness. *)

Module Js.

(** The values a parsed response body is made of. *)
#[warnings="-register-all"]
Inductive value : Type :=
| Undefined
| Null
| Bool (b : bool)
| Num (q : Q)
| Str (s : string)
| Arr (items : list value)
| Obj (fields : list (string * value)).

(** [ToBoolean] *)
Definition truthy (v : value) : bool :=
  match v with
  | Undefined | Null => false
  | Bool b => b
  | Num q => negb (JsNum.is_zero q)
  | Str s => negb (String.eqb s "")
  | Arr _ | Obj _ => true
  end.

Fixpoint assoc (key : string) (fields : list (string * value)) : value :=
  match fields with
  | [] => Undefined
  | (k, v) :: rest => if String.eqb k key then v else assoc key rest
  end.

(** [v.key], for the property names the adapters read ([video], [url],
    [author], ...), none of which a prototype defines; [None] is the
    [TypeError] of reading a property of [undefined] or [null]. *)
Definition get (v : value) (key : string) : option value :=
  match v with
  | Undefined | Null => None
  | Obj fields => Some (assoc key fields)
  | Bool _ | Num _ | Str _ | Arr _ => Some Undefined
  end.

(** [v\[0\]] *)
Definition first (v : value) : option value :=
  match v with
  | Undefined | Null => None
  | Arr [] => Some Undefined
  | Arr (x :: _) => Some x
  | Str EmptyString => Some Undefined
  | Str (String c _) => Some (Str (String c EmptyString))
  | Obj fields => Some (assoc "0" fields)
  | Bool _ | Num _ => Some Undefined
  end.

(** [v?.key] and [v?.\[0\]] *)
Definition optional (read : value -> option value) (v : value) : value :=
  match read v with
  | Some x => x
  | None => Undefined
  end.

(** [a || b] *)
Definition or_else (a b : value) : value := if truthy a then a else b.

(** [v.k1.k2...] *)
Definition path (v : value) (keys : list string) : option value :=
  foldl (fun acc key => acc ≫= fun x => get x key) (Some v) keys.

End Js.

(** ** The provider adapters *)

Module Adapter.
Import Js.

(** The object an adapter returns. *)
Record Found : Type := mkFound {
  found_videoUrl : value;
  found_author : value;
  found_desc : value;
  found_quality : Quality;
  found_source : string
}.

Inductive Returned : Type :=
| ReturnedCandidate (c : Found)
| ReturnedNull          (* from the [catch] block *)
| ReturnedUndefined.    (* the [if] was not taken *)

(** How the promise of an adapter settles.  The [catch] block builds its
    debug message from [error.message]; when the value caught is [null]
    that read throws, and the adapter rejects with the [TypeError]. *)
Inductive Settlement : Type :=
| Completed (r : Returned)
| Threw.

Definition null_message : string :=
  "Cannot read properties of null (reading 'message')".

(** The object literal in the [try] block: a [TypeError] among its reads
    goes to [catch], which returns [null]. *)
Definition build (reads : option Found) : Returned :=
  match reads with
  | Some c => ReturnedCandidate c
  | None => ReturnedNull
  end.

(** The [try] blocks, from [response.data] on. *)
Definition snaptik (data : value) : Returned :=
  if truthy (optional (fun d => get d "video") data)
  then build (videoUrl ← path data ["video"; "url"];
              author ← path data ["author"; "name"];
              desc ← path data ["video"; "description"];
              Some (mkFound videoUrl author desc high "snaptik"))
  else ReturnedUndefined.

Definition tikwm (data : value) : Returned :=
  if truthy (optional (fun d => get d "data") data)
  then build (videoUrl ← path data ["data"; "play"];
              author ← path data ["data"; "author"; "nickname"];
              desc ← path data ["data"; "title"];
              Some (mkFound videoUrl author desc high "tikwm"))
  else ReturnedUndefined.

Definition savett (data : value) : Returned :=
  if truthy (optional first (optional (fun d => get d "links") data))
  then build (links ← path data ["links"];
              link ← first links;
              videoUrl ← get link "url";
              author ← path data ["author"];
              desc ← path data ["desc"];
              Some (mkFound videoUrl (or_else author (Str "Unknown"))
                      (or_else desc (Str "")) high "savett"))
  else ReturnedUndefined.

Definition tikdown (data : value) : Returned :=
  if truthy (optional (fun d => get d "video") data)
  then build (videoUrl ← path data ["video"; "url"];
              author ← path data ["author"];
              desc ← path data ["description"];
              Some (mkFound videoUrl author desc high "tikdown"))
  else ReturnedUndefined.

Definition ssstik (data : value) : Returned :=
  if truthy (optional (fun d => get d "video") data)
  then build (videoUrl ← path data ["video"; "url"];
              author ← path data ["author"];
              desc ← path data ["description"];
              Some (mkFound videoUrl author desc high "ssstik"))
  else ReturnedUndefined.

Definition dlpanda (data : value) : Returned :=
  if truthy (optional (fun d => get d "url") data)
  then build (videoUrl ← path data ["url"];
              author ← path data ["author"];
              desc ← path data ["description"];
              Some (mkFound videoUrl author desc high "dlpanda"))
  else ReturnedUndefined.

(** The adapters that have a fan-out unit and do not parse HTML, under
    the names of their units. *)
Definition bodies : list (string * (value -> Returned)) :=
  [("snaptik", snaptik); ("tikwm", tikwm); ("tikdown", tikdown);
   ("savett", savett); ("ssstik", ssstik); ("dlpanda", dlpanda)].

Section Call.
Context {Err : Type}.

(** An adapter around what [fetchWithRetry] came to. *)
Definition settle (body : value -> Returned) (fetched : option Err + value)
    : Settlement :=
  match fetched with
  | inr data => Completed (body data)
  | inl (Some _) => Completed ReturnedNull
  | inl None => Threw
  end.

(** [try { const response = await this.fetchWithRetry(...); ... }
     catch (error) { this.debug(`... ${error.message}`, 'error'); return null; }] *)
Definition call (body : value -> Returned) (axios : Z -> Err + value)
    (maxRetries : Z) : list Transport.Event * Settlement :=
  let '(trace, fetched) := Transport.fetchWithRetry axios maxRetries in
  (trace, settle body fetched).

End Call.

End Adapter.

(** ** Adapters under the fan-out *)

(** What the engine's [Candidate] keeps of a returned object. *)
Definition text_of (v : Js.value) : option string :=
  match v with
  | Js.Str s => Some s
  | _ => None
  end.

(** The fields a [Candidate] renders exactly: strings, and fields left
    out. *)
Definition textual (v : Js.value) : Prop :=
  match v with
  | Js.Undefined | Js.Str _ => True
  | _ => False
  end.

Definition candidate_of (c : Adapter.Found) : Candidate :=
  {| videoUrl := text_of (Adapter.found_videoUrl c);
     author := text_of (Adapter.found_author c);
     desc := text_of (Adapter.found_desc c);
     quality := Adapter.found_quality c;
     source := Adapter.found_source c |}.

(** What a fan-out unit can come to, by what its adapter does: an object
    is a result, [null] and [undefined] are none, and while the adapter
    waits for the network the timer may reject first.  An adapter that
    throws has not waited.  A result is related to the [Candidate] that
    renders it, which exists when its three fields are strings or left
    out; responses that put other values there are outside the
    relation. *)
Inductive unit_sees : Adapter.Settlement -> Outcome -> Prop :=
| sees_result (c : Adapter.Found) (duration : Z) :
    textual (Adapter.found_videoUrl c) ->
    textual (Adapter.found_author c) ->
    textual (Adapter.found_desc c) ->
    unit_sees (Adapter.Completed (Adapter.ReturnedCandidate c))
      (Resolved (candidate_of c) duration)
| sees_null : unit_sees (Adapter.Completed Adapter.ReturnedNull) Absent
| sees_undefined : unit_sees (Adapter.Completed Adapter.ReturnedUndefined) Absent
| sees_timeout (r : Adapter.Returned) : unit_sees (Adapter.Completed r) TimedOut
| sees_throw : unit_sees Adapter.Threw (Failed Adapter.null_message).

(** The answers of a resolution in which each of the six adapters runs
    over some behaviour of the network, with [maxRetries] attempts. *)
Definition driven (maxRetries : Z) (answers : string -> Outcome) : Prop :=
  forall name body,
    (name, body) ∈ Adapter.bodies ->
    exists axios : Z -> Exn + Js.value,
      unit_sees (Adapter.call body axios maxRetries).2 (answers name).


Definition newline : string := String (Ascii.ascii_of_nat 10) "".

(** The message of the error [getVideoMetadata] throws when the local
    [errors] array holds [lines]. *)
Definition all_failed (lines : list string) : string :=
  "All methods failed:" ++ newline ++ Engine.join_lines lines.


(** An engine built with [maxRetries: -1], and a resolution in which
    every adapter throws at once. *)
Module Misconfigured.

Definition settings : UserOptions :=
  mkUserOptions None (Some (-1)) None None None.

Definition providers (n : string) : Outcome := Failed Adapter.null_message.


End Misconfigured.

(** A resolution in which no provider answers within the timeout. *)
Module Outage.

Definition providers (n : string) : Outcome := TimedOut.

Definition world : World := mkWorld 100 providers 150.

End Outage.

(** ** The command line

    [downloadTikTok] of the command-line program builds an engine of its
    own for every URL, downloads, saves the file and displays statistics
    of that engine.  The prompt validates the URL with a regular
    expression; the file is named after a piece of the URL. *)

Module Cli.
Import Stdlib.Strings.Ascii.

(** [s.split(sep)] for a separator of one character. *)
Fixpoint split_on (sep : Ascii.ascii) (s : string) : list string :=
  match s with
  | EmptyString => [EmptyString]
  | String c rest =>
      if Ascii.eqb c sep
      then EmptyString :: split_on sep rest
      else match split_on sep rest with
           | piece :: pieces => String c piece :: pieces
           | [] => [String c EmptyString]
           end
  end.

(** [array.pop()] and [array\[0\]] of an array [split] built, which is
    never empty. *)
Definition pop (pieces : list string) : string :=
  match last pieces with
  | Some piece => piece
  | None => EmptyString
  end.

Definition first_piece (pieces : list string) : string :=
  match pieces with
  | piece :: _ => piece
  | [] => EmptyString
  end.

(** The stem of the file name: a piece of the URL, or the clock. *)
Inductive Stem : Type :=
| Segment (s : string)
| Stamp (now : Z).

(** [url.split('/').pop().split('?')\[0\] || Date.now()] *)
Definition videoId (url : string) (now : Z) : Stem :=
  match first_piece (split_on "?"%char (pop (split_on "/"%char url))) with
  | EmptyString => Stamp now
  | segment => Segment segment
  end.

(** The letters [/i] identifies. *)
Definition fold_case (c : Ascii.ascii) : Ascii.ascii :=
  let n := Ascii.N_of_ascii c in
  if ((65 <=? n) && (n <=? 90))%N then Ascii.ascii_of_N (n + 32) else c.

(** [s] without a prefix that is [p] up to the case of letters. *)
Fixpoint strip_prefix_ci (p s : string) : option string :=
  match p, s with
  | EmptyString, _ => Some s
  | String a p', String b s' =>
      if Ascii.eqb (fold_case a) (fold_case b) then strip_prefix_ci p' s' else None
  | String _ _, EmptyString => None
  end.

(** An optional part of the pattern: taken when it is there.  (Where
    [validateTikTokUrl] uses one, what must follow cannot start where the
    optional part does, so there is nothing to backtrack to.) *)
Definition optionally (parts : list string) (s : string) : string :=
  default s (head (omap (fun part => strip_prefix_ci part s) parts)).

(** [.] matches every character but the four line terminators; here on
    the UTF-8 bytes of the text. *)
Definition line_terminator_ahead (s : string) : bool :=
  match s with
  | String "010" _ | String "013" _ => true
  | String "226" (String "128" (String "168" _))
  | String "226" (String "128" (String "169" _)) => true
  | _ => false
  end%char.

(** [/^https?:\/\/((?:vm|vt|www)\.)?tiktok\.com\/.+/i.test(url)] *)
Definition validateTikTokUrl (url : string) : bool :=
  match strip_prefix_ci "http" url with
  | None => false
  | Some after_http =>
      match strip_prefix_ci "://" (optionally ["s"] after_http) with
      | None => false
      | Some after_scheme =>
          match strip_prefix_ci "tiktok.com/"
                  (optionally ["vm."; "vt."; "www."] after_scheme) with
          | None => false
          | Some EmptyString => false
          | Some path => negb (line_terminator_ahead path)
          end
      end
  end.

(** What [downloadTikTok] observes: the clock at the construction of the
    engine, the download, the clock for the file name, what saving the
    file throws if it does, and the clock of the statistics. *)
Record World : Type := mkWorld {
  at_construction : Z;
  download : DownloadWorld;
  at_naming : Z;
  saving : option Exn;
  at_statistics : Z
}.

(** The box 'API Performance Metrics'. *)
Record Panel : Type := mkPanel {
  panel_successRate : JsNum.num;
  panel_avgResponse : JsNum.num;
  panel_calls : Z
}.

(** The box 'Download Summary', and the panel when it is shown. *)
Record Summary : Type := mkSummary {
  shown_file : Stem;
  shown_author : string;
  shown_quality : Quality;
  shown_source : string;
  shown_successRate : JsNum.num;
  shown_responseTime : JsNum.num;
  shown_cacheHit : bool;
  shown_panel : option Panel
}.

(** The options [downloadTikTok] passes that the engine reads. *)
Definition settings : UserOptions :=
  mkUserOptions (Some 15000) (Some 3) (Some "high") (Some true) (Some 3600000).

(** [stats.cacheSaves > 0] *)
Definition positive (v : option JsNum.num) : bool :=
  match v with
  | Some (JsNum.Fin q) => 0 <? Qnum q
  | Some (JsNum.Inf negative) => negb negative
  | Some JsNum.NaN | None => false
  end.

Section WithHash.
Variable generateCacheKey : string -> string.

(** [downloadTikTok]: what is displayed on success, or the error that is
    displayed and thrown again. *)
Definition downloadTikTok (world : World) (url : string) : Result Summary :=
  let tiktok := Engine.constructor settings (at_construction world) in
  let '(after, _, outcome) :=
    Engine.downloadVideo generateCacheKey (download world) url tiktok in
  match outcome with
  | inl exn => inl exn
  | inr videoInfo =>
      if negb (Engine.truthy (info_url videoInfo))
      then inl (JsError "Could not fetch video information")
      else
        match saving world with
        | Some exn => inl exn
        | None =>
            match Engine.getDetailedStats (at_statistics world) (stats after) with
            | inl exn => inl exn
            | inr detailed =>
                let panel :=
                  if negb (String.eqb (info_source videoInfo) "")
                  then match apiUsage (detailed_stats detailed) with
                       | None => inl (JsTypeError (info_source videoInfo))
                       | Some usage =>
                           inr (option_map
                                  (fun apiStats =>
                                     {| panel_successRate :=
                                          JsNum.round
                                            (Engine.percentage
                                               (JsNum.of_Z (successes apiStats))
                                               (JsNum.of_Z (calls apiStats)));
                                        panel_avgResponse :=
                                          JsNum.round (averageResponseTime apiStats);
                                        panel_calls := calls apiStats |})
                                  (usage !! info_source videoInfo))
                       end
                  else inr None in
                match panel with
                | inl exn => inl exn
                | inr shown =>
                    inr {| shown_file := videoId url (at_naming world);
                           shown_author := or_string (info_author videoInfo) "Unknown";
                           shown_quality := info_quality videoInfo;
                           shown_source := info_source videoInfo;
                           shown_successRate :=
                             JsNum.round (detailed_successRate detailed);
                           shown_responseTime := detailed_averageSpeedMs detailed;
                           shown_cacheHit :=
                             positive (cacheSaves (detailed_stats detailed));
                           shown_panel := shown |}
                end
            end
        end
  end.

End WithHash.

End Cli.

(** One run of the command line on the scenario's reference. *)
Module CliRun.

Definition world : Cli.World :=
  Cli.mkWorld 0 Scenario.first_download 165 None 180.

End CliRun.

(** * Properties *)

(** ** The arbiter *)

Section ArbiterFacts.
Import Arbiter.

Lemma insert_perm (x : Candidate) (l : list Candidate) :
  insert x l ≡ₚ x :: l.
Proof.
  induction l as [|y l IH]; simpl; [reflexivity|].
  destruct (compare x y <=? 0); [reflexivity|].
  rewrite IH. apply perm_swap.
Qed.

Lemma sort_perm (l : list Candidate) : sort l ≡ₚ l.
Proof.
  induction l as [|x l IH]; simpl; [reflexivity|].
  rewrite insert_perm. by rewrite IH.
Qed.

Lemma sort_elem_of (l : list Candidate) (r : Candidate) :
  r ∈ sort l ↔ r ∈ l.
Proof. by rewrite sort_perm. Qed.

Lemma sort_nonempty (l : list Candidate) :
  l ≠ [] → ∃ top rest, sort l = top :: rest.
Proof.
  intros Hne. destruct (sort l) as [|top rest] eqn:Hs; [|by eauto].
  exfalso. apply Hne. apply Permutation_nil. by rewrite <- Hs, sort_perm.
Qed.

Lemma compare_refl (a : Candidate) : compare a a = 0.
Proof. unfold compare. rewrite Z.eqb_refl. simpl. lia. Qed.

Lemma compare_total (a b : Candidate) : compare a b <= 0 ∨ compare b a <= 0.
Proof.
  unfold compare.
  destruct (quality a), (quality b); simpl; lia.
Qed.

Lemma compare_trans (a b c : Candidate) :
  compare a b <= 0 → compare b c <= 0 → compare a c <= 0.
Proof.
  unfold compare.
  destruct (quality a), (quality b), (quality c); simpl; lia.
Qed.

(** The comparator never ranks a lower tier before a higher one. *)
Lemma compare_quality (a b : Candidate) :
  compare a b <= 0 → qualityMap (quality b) <= qualityMap (quality a).
Proof.
  unfold compare.
  destruct (quality a), (quality b); simpl; lia.
Qed.

(** The head of the sorted array precedes every candidate. *)
Lemma sort_top (l : list Candidate) :
  ∀ top rest, sort l = top :: rest → ∀ y, y ∈ l → compare top y <= 0.
Proof.
  induction l as [|x l IH]; intros top rest Hs y Hy; [by inversion Hy|].
  simpl in Hs. destruct (sort l) as [|t r] eqn:Hl.
  - assert (l = []) as ->.
    { apply Permutation_nil. by rewrite <- Hl, sort_perm. }
    simpl in Hs. injection Hs as <- _.
    apply list_elem_of_singleton in Hy as ->. rewrite compare_refl. lia.
  - simpl in Hs. destruct (compare x t <=? 0) eqn:Hc.
    + injection Hs as <- _. apply Z.leb_le in Hc.
      apply elem_of_cons in Hy as [->|Hy]; [rewrite compare_refl; lia|].
      eapply compare_trans; [exact Hc|]. by eapply IH.
    + injection Hs as <- _. apply Z.leb_gt in Hc.
      apply elem_of_cons in Hy as [->|Hy]; [|by eapply IH].
      destruct (compare_total t x); lia.
Qed.

Lemma find_quality_none (pref : string) (l : list Candidate) :
  (∀ r, r ∈ l → quality_name (quality r) ≠ pref) →
  List.find (has_quality pref) (sort l) = None.
Proof.
  intros Hno. destruct (List.find _ _) as [r|] eqn:Hf; [|done].
  apply List.find_some in Hf as [Hin Hq].
  rewrite <- list_elem_of_In, sort_elem_of in Hin.
  apply String.eqb_eq in Hq. by apply Hno in Hin.
Qed.

(** Without a candidate of the preferred tier the choice is the one
    [preferredQuality: 'high'] makes. *)
Lemma select_fallback (pref : string) (l : list Candidate) :
  (∀ r, r ∈ l → quality_name (quality r) ≠ pref) →
  selectBestQuality pref l = selectBestQuality "high" l.
Proof.
  intros Hno. unfold selectBestQuality.
  pose proof (find_quality_none pref l Hno) as Hf.
  destruct (sort l) as [|top rest]; [done|].
  rewrite Hf. by destruct (negb (String.eqb pref "high")).
Qed.

Lemma select_high_is_top (l : list Candidate) (top : Candidate) rest :
  sort l = top :: rest → selectBestQuality "high" l = inr top.
Proof. intros Hs. unfold selectBestQuality. by rewrite Hs. Qed.

(** The comparator puts a candidate whose provider is not in
    [sourceOrder] before one of the same tier whose provider is. *)
Lemma indexOf_from_bounds (l : list string) (x : string) (i : Z) :
  (x ∈ l → i <= indexOf_from l x i) ∧ (x ∉ l → indexOf_from l x i = -1).
Proof.
  revert i. induction l as [|y l IH]; intros i; simpl.
  - split; [by inversion 1|done].
  - destruct (String.eqb_spec y x) as [->|Hne].
    + split; [lia|]. intros Hn. exfalso. apply Hn. left.
    + destruct (IH (i + 1)) as [IH1 IH2]. split.
      * intros [?|Hin]%elem_of_cons; [congruence|]. specialize (IH1 Hin). lia.
      * intros Hn. apply IH2. intros Hin. apply Hn. by right.
Qed.

Lemma compare_unlisted_first (a b : Candidate) :
  quality a = quality b →
  source a ∈ sourceOrder → source b ∉ sourceOrder →
  0 < compare a b ∧ compare b a < 0.
Proof.
  intros Hq Ha Hb. unfold compare, indexOf. rewrite Hq, Z.eqb_refl. simpl negb. cbv iota.
  destruct (indexOf_from_bounds sourceOrder (source a) 0) as [H1 _].
  destruct (indexOf_from_bounds sourceOrder (source b) 0) as [_ H2].
  specialize (H1 Ha). specialize (H2 Hb). lia.
Qed.

End ArbiterFacts.

Section ArbiterClaims.
Import Arbiter.

Lemma find_first {A : Type} (f : A → bool) (before : list A) (r : A) (after : list A) :
  f r = true → (∀ x, x ∈ before → f x = false) →
  List.find f (before ++ r :: after)%list = Some r.
Proof.
  intros Hr. induction before as [|x before IH]; intros Hb; simpl.
  - by rewrite Hr.
  - rewrite (Hb x) by left. apply IH. intros y Hy. apply Hb. by right.
Qed.

Lemma has_quality_false (pref : string) (x : Candidate) :
  quality_name (quality x) ≠ pref → has_quality pref x = false.
Proof. intros Hne. by apply String.eqb_neq. Qed.

Lemma select_other_than_high (pref : string) (l : list Candidate) top rest :
  pref ≠ "high" → sort l = top :: rest →
  selectBestQuality pref l =
    inr (default top (List.find (has_quality pref) (sort l))).
Proof.
  intros Hp Hs. unfold selectBestQuality. rewrite Hs.
  apply String.eqb_neq in Hp. rewrite Hp. simpl negb. cbv iota.
  by destruct (List.find _ _).
Qed.

(** C2, evaluated on the code: of two candidates of tier [high], one
    from a provider that [sourceOrder] lists ("snaptik") and one from a
    provider it does not list ("dlpanda"), the sort puts the one that is
    not listed first, and it is the one selected. *)
Theorem unlisted_provider_ranked_first :
  let listed := mkCandidate (Some "https://v/1") None None high "snaptik" in
  let unlisted := mkCandidate (Some "https://v/2") None None high "dlpanda" in
  ("snaptik" ∈ sourceOrder) ∧ ("dlpanda" ∉ sourceOrder) ∧
  indexOf sourceOrder "dlpanda" = -1 ∧
  sort [listed; unlisted] = [unlisted; listed] ∧
  selectBestQuality "high" [listed; unlisted] = inr unlisted.
Proof.
  cbv zeta. split; [|split]; [| |by vm_compute].
  - unfold sourceOrder. left.
  - unfold sourceOrder. rewrite !elem_of_cons, elem_of_nil.
    intros H. repeat (destruct H as [H|H]; [discriminate H|]). exact H.
Qed.

(** C6: over a non-empty array [selectBestQuality] returns a candidate;
    with a preference other than ['high'] it is the first one of the
    sorted array whose tier is the preferred one, and the head of the
    sorted array when there is none; so ['medium'] over candidates none
    of which is [medium] selects what ['high'] selects, and ['low'] over
    candidates none of which is [low] still selects the head, a [high]
    candidate whenever there is one. *)
Theorem selectBestQuality_soft_preference
    (pref : string) (results : list Candidate) :
  results ≠ [] →
  ∃ top rest,
    sort results = top :: rest ∧
    (pref ≠ "high" →
     ∀ before r after,
       sort results = (before ++ r :: after)%list →
       quality_name (quality r) = pref →
       (∀ x, x ∈ before → quality_name (quality x) ≠ pref) →
       selectBestQuality pref results = inr r) ∧
    ((∀ x, x ∈ results → quality_name (quality x) ≠ pref) →
     selectBestQuality pref results = inr top) ∧
    (pref = "high" → selectBestQuality pref results = inr top) ∧
    ((∀ x, x ∈ results → quality x ≠ medium) →
     selectBestQuality "medium" results = selectBestQuality "high" results) ∧
    ((∀ x, x ∈ results → quality x ≠ low) →
     selectBestQuality "low" results = inr top ∧
     ((∃ h, h ∈ results ∧ quality h = high) → quality top = high)).
Proof.
  intros Hne. destruct (sort_nonempty results Hne) as (top & rest & Hs).
  exists top, rest. split; [done|]. repeat split.
  - intros Hp before r after Hsplit Hr Hb.
    rewrite (select_other_than_high pref results top rest Hp Hs), Hsplit.
    rewrite (find_first (has_quality pref) before r after); [done| |].
    + by apply String.eqb_eq.
    + intros x Hx. by apply has_quality_false, Hb.
  - intros Hno. rewrite (select_fallback pref results Hno).
    by apply (select_high_is_top results top rest).
  - intros ->. by apply (select_high_is_top results top rest).
  - intros Hno. apply select_fallback. intros r Hr Hq.
    apply (Hno r Hr). by destruct (quality r).
  - rewrite (select_fallback "low" results).
    + by apply (select_high_is_top results top rest).
    + intros r Hr Hq. apply (H r Hr). by destruct (quality r).
  - intros (h & Hh & Hq).
    pose proof (sort_top results top rest Hs h Hh) as Hc.
    apply compare_quality in Hc. rewrite Hq in Hc.
    destruct (quality top); simpl in Hc; [done|lia|lia].
Qed.

Lemma selectBestQuality_soft_preference_witness :
  let results :=
    [mkCandidate (Some "https://v/1") None None medium "webscraping";
     mkCandidate (Some "https://v/2") None None high "tikwm"] in
  ∃ top rest,
    sort results = top :: rest ∧
    selectBestQuality "low" results = inr top ∧ quality top = high.
Proof.
  cbv zeta.
  destruct (selectBestQuality_soft_preference "low"
              [mkCandidate (Some "https://v/1") None None medium "webscraping";
               mkCandidate (Some "https://v/2") None None high "tikwm"])
    as (top & rest & Hs & _ & _ & _ & _ & Hlow); [done|].
  exists top, rest. split; [exact Hs|].
  destruct Hlow as [Hsel Hq].
  - intros x Hx. rewrite !elem_of_cons, elem_of_nil in Hx.
    by destruct Hx as [->|[->|[]]].
  - split; [exact Hsel|]. apply Hq.
    exists (mkCandidate (Some "https://v/2") None None high "tikwm").
    split; [|done]. right. left.
Defined.

End ArbiterClaims.

(** ** The retrying transport *)

Section TransportFacts.
Import Transport.
Context {Response Err : Type}.
Variable axios : Z → Err + Response.
Variable errs : Z → Err.

Lemma flat_map_shift {A : Type} (f : nat → list A) (m : nat) :
  flat_map f (seq 1 m) = flat_map (fun n => f (S n)) (seq 0 m).
Proof.
  rewrite <- seq_shift. induction (seq 0 m) as [|x l IH]; simpl; [done|].
  by rewrite IH.
Qed.

Lemma attempts_all_fail (retries : Z) :
  ∀ (remaining : nat) (i : Z) (lastError : option Err),
    (∀ j, i <= j < i + Z.of_nat remaining → axios j = inl (errs j)) →
    attempts axios retries remaining i lastError =
      (flat_map (step_events retries i) (seq 0 remaining),
       inl (match last (map (fun n => errs (i + Z.of_nat n)) (seq 0 remaining)) with
            | Some e => Some e
            | None => lastError
            end)).
Proof.
  induction remaining as [|r IH]; intros i lastError Hfail; [done|].
  cbn [attempts]. rewrite (Hfail i) by lia.
  rewrite (IH (i + 1) (Some (errs i))) by (intros j Hj; apply Hfail; lia).
  change (seq 0 (S r)) with (0%nat :: seq 1 r).
  cbn [flat_map map]. rewrite flat_map_shift, <- seq_shift, map_map.
  unfold step_events at 2. rewrite Z.add_0_r. cbn [app].
  f_equal.
  - do 2 f_equal. apply flat_map_ext. intros n. unfold step_events.
    by replace (i + 1 + Z.of_nat n) with (i + Z.of_nat (S n)) by lia.
  - f_equal. rewrite last_cons.
    replace (map (fun n => errs (i + 1 + Z.of_nat n)) (seq 0 r))
      with (map (fun n => errs (i + Z.of_nat (S n))) (seq 0 r)).
    + by destruct (last _).
    + apply map_ext. intros n. f_equal. lia.
Qed.

Lemma step_events_schedule (k : nat) :
  flat_map (step_events (Z.of_nat k) 0) (seq 0 k) = backoff_schedule k.
Proof.
  unfold backoff_schedule. apply flat_map_ext. intros n.
  unfold step_events, schedule_step. rewrite Z.add_0_l. f_equal.
  destruct (Z.ltb_spec (Z.of_nat n) (Z.of_nat k - 1)),
           (Nat.ltb_spec (S n) k); (done || lia).
Qed.

Lemma fetchWithRetry_all_fail (k : nat) :
  (∀ i, 0 <= i < Z.of_nat k → axios i = inl (errs i)) →
  fetchWithRetry axios (Z.of_nat k) =
    (backoff_schedule k,
     inl (last (map (fun n => errs (Z.of_nat n)) (seq 0 k)))).
Proof.
  intros Hfail. unfold fetchWithRetry. rewrite Nat2Z.id.
  rewrite (attempts_all_fail (Z.of_nat k) k 0 None) by (intros j Hj; apply Hfail; lia).
  rewrite step_events_schedule. do 2 f_equal.
  by destruct (last _).
Qed.

End TransportFacts.

Section ScheduleFacts.
Import Transport.

Lemma attempts_made_app (t1 t2 : list Event) :
  attempts_made (t1 ++ t2) = (attempts_made t1 + attempts_made t2)%nat.
Proof. unfold attempts_made. by rewrite List.filter_app, length_app. Qed.

Lemma sleeps_app (t1 t2 : list Event) :
  sleeps (t1 ++ t2) = (sleeps t1 ++ sleeps t2)%list.
Proof. unfold sleeps. by rewrite flat_map_app. Qed.

Lemma schedule_prefix (k : nat) :
  ∀ m : nat, (m <= k)%nat →
    attempts_made (flat_map (schedule_step k) (seq 0 m)) = m ∧
    sleeps (flat_map (schedule_step k) (seq 0 m)) =
      map (fun i : nat => 2 ^ Z.of_nat i * 1000) (seq 0 (Nat.min m (k - 1))).
Proof.
  induction m as [|m IH]; intros Hm; [done|].
  destruct IH as [IHa IHs]; [lia|].
  rewrite seq_S, flat_map_app, attempts_made_app, sleeps_app, IHa, IHs.
  cbn [flat_map Nat.add]. rewrite app_nil_r. unfold schedule_step.
  destruct (Nat.ltb_spec (S m) k) as [Hlt|Hge].
  - split; [cbn; lia|].
    replace (Nat.min m (k - 1)) with m by lia.
    replace (Nat.min (S m) (k - 1)) with (S m) by lia.
    by rewrite seq_S, map_app.
  - split; [cbn; lia|].
    replace (Nat.min (S m) (k - 1)) with (Nat.min m (k - 1)) by lia.
    cbn. by rewrite app_nil_r.
Qed.

Lemma backoff_schedule_counts (k : nat) :
  attempts_made (backoff_schedule k) = k ∧
  sleeps (backoff_schedule k) =
    map (fun i : nat => 2 ^ Z.of_nat i * 1000) (seq 0 (k - 1)).
Proof.
  destruct (schedule_prefix k k) as [Ha Hs]; [lia|].
  split; [exact Ha|]. unfold backoff_schedule. rewrite Hs. by replace (Nat.min k (k - 1)) with (k - 1)%nat by lia.
Qed.

End ScheduleFacts.

Section TransportClaims.
Import Transport.


Lemma make_options_maxRetries_default (o : UserOptions) :
  user_maxRetries o = None ∨ user_maxRetries o = Some 0 →
  maxRetries (make_options o) = 3.
Proof. by intros [Ho|Ho]; unfold make_options, or_number; simpl; rewrite Ho. Qed.

(** C5: when every attempt fails, [fetchWithRetry] with
    [options.maxRetries = k] makes exactly [k] attempts, sleeps
    [2^i * 1000] ms after attempt [i] for every attempt but the last, and
    throws the error of the last attempt alone; with [k = 3] the trace
    is attempt, 1000 ms, attempt, 2000 ms, attempt, and the error thrown
    is the third one. *)
Theorem fetchWithRetry_exhausts_retries {Response Err : Type}
    (opts : Options) (axios : Z → Err + Response) (errs : Z → Err) (k : nat) :
  maxRetries opts = Z.of_nat k →
  (∀ i, 0 <= i < Z.of_nat k → axios i = inl (errs i)) →
  ∃ trace thrown,
    fetchWithRetry axios (maxRetries opts) = (trace, inl thrown) ∧
    trace = backoff_schedule k ∧
    attempts_made trace = k ∧
    sleeps trace = map (fun i : nat => 2 ^ Z.of_nat i * 1000) (seq 0 (k - 1)) ∧
    thrown = last (map (fun i : nat => errs (Z.of_nat i)) (seq 0 k)) ∧
    (∀ j : nat, k = S j → thrown = Some (errs (Z.of_nat j))) ∧
    (k = 3%nat →
     trace = [Attempt 0; Sleep 1000; Attempt 1; Sleep 2000; Attempt 2] ∧
     thrown = Some (errs 2)).
Proof.
  intros Hk Hfail. rewrite Hk.
  exists (backoff_schedule k),
         (last (map (fun i : nat => errs (Z.of_nat i)) (seq 0 k))).
  destruct (backoff_schedule_counts k) as [Ha Hs].
  split; [by apply fetchWithRetry_all_fail|].
  split; [done|]. split; [done|]. split; [done|]. split; [done|]. split.
  - intros j ->. rewrite seq_S, map_app. cbn [map]. by rewrite last_snoc.
  - by intros ->.
Qed.

Lemma fetchWithRetry_exhausts_retries_witness :
  maxRetries (make_options default_user_options) = 3 ∧
  fetchWithRetry (fun i : Z => inl (JsError "ECONNRESET") : Exn + string)
    (maxRetries (make_options default_user_options)) =
    ([Attempt 0; Sleep 1000; Attempt 1; Sleep 2000; Attempt 2],
     inl (Some (JsError "ECONNRESET"))).
Proof.
  split; [reflexivity|].
  destruct (fetchWithRetry_exhausts_retries (Response := string)
              (make_options default_user_options)
              (fun _ : Z => inl (JsError "ECONNRESET"))
              (fun _ : Z => JsError "ECONNRESET") 3)
    as (trace & thrown & Hrun & _ & _ & _ & _ & _ & Hthree).
  - reflexivity.
  - intros i _. reflexivity.
  - destruct (Hthree eq_refl) as [-> ->]. exact Hrun.
Defined.

End TransportClaims.

(** ** The fan-out and its accounting *)

Section FanoutFacts.
Import Engine.

Lemma set_usage_id (s : Stats) (usage : gmap string ApiStat) :
  apiUsage s = Some usage → set_usage s usage = s.
Proof. destruct s; simpl; by intros ->. Qed.

Lemma set_usage_twice (s : Stats) (u1 u2 : gmap string ApiStat) :
  set_usage (set_usage s u1) u2 = set_usage s u2.
Proof. done. Qed.

Lemma run_unit_registered name answer f usage entry :
  apiUsage (fan_stats f) = Some usage → usage !! name = Some entry →
  run_unit name answer f =
    (mkFanout
       (set_usage (fan_stats f) (<[name := settle_entry answer entry]> usage))
       (fan_errors f ++ settle_errors name answer)
       (fan_called f ++ [name]),
     Fulfilled (settle_value answer)).
Proof.
  intros Hu He. unfold run_unit. rewrite Hu, He.
  destruct answer; simpl; by rewrite ?app_nil_r.
Qed.

Lemma run_unit_unregistered name answer f usage :
  apiUsage (fan_stats f) = Some usage → usage !! name = None →
  run_unit name answer f = (f, Rejected (JsTypeError "failures")).
Proof. intros Hu He. unfold run_unit. by rewrite Hu, He. Qed.

Lemma run_unit_no_registry name answer f :
  apiUsage (fan_stats f) = None →
  run_unit name answer f = (f, Rejected (JsTypeError name)).
Proof. intros Hu. unfold run_unit. by rewrite Hu. Qed.

Lemma fanout_no_registry methods answers f :
  apiUsage (fan_stats f) = None →
  ∃ results,
    fanout methods answers f = (f, results) ∧ successful results = [].
Proof.
  intros Hu. induction methods as [|name rest (results & IH & Hs)]; simpl.
  - by exists [].
  - rewrite (run_unit_no_registry _ _ _ Hu), IH.
    exists (Rejected (JsTypeError name) :: results). by split.
Qed.

(** What a fan-out over a registry [usage] comes to: the statistics
    change in [apiUsage] only, the providers with an entry stay the
    same, the adapters called are those of the units whose name has an
    entry, and the candidates found are theirs. *)
Lemma fanout_registry methods answers :
  ∀ f usage,
    apiUsage (fan_stats f) = Some usage →
    ∃ f' results usage',
      fanout methods answers f = (f', results) ∧
      fan_stats f' = set_usage (fan_stats f) usage' ∧
      dom usage' = dom usage ∧
      fan_called f' = (fan_called f ++ filter (.∈ dom usage) methods)%list ∧
      successful results =
        flat_map
          (fun n => if decide (n ∈ dom usage)
                    then option_list (settle_value (answers n)) else [])
          methods ∧
      (NoDup methods →
       ∀ n, usage' !! n =
            if decide (n ∈ methods)
            then settle_entry (answers n) <$> usage !! n
            else usage !! n).
Proof.
  induction methods as [|name rest IH]; intros f usage Hu.
  - exists f, [], usage. simpl. rewrite app_nil_r.
    split; [done|]. split; [by rewrite set_usage_id|]. by repeat split.
  - cbn [fanout]. destruct (usage !! name) as [entry|] eqn:He.
    + rewrite (run_unit_registered _ _ _ _ _ Hu He).
      set (usage1 := <[name := settle_entry (answers name) entry]> usage).
      set (f1 := mkFanout _ _ _).
      assert (dom usage1 = dom usage) as Hdom.
      { unfold usage1. rewrite dom_insert_L.
        apply subseteq_union_1_L, singleton_subseteq_l.
        by apply elem_of_dom_2 in He. }
      destruct (IH f1 usage1 eq_refl)
        as (f' & results & usage' & Hrun & Hst & Hd & Hc & Hs & Hent).
      rewrite Hrun. exists f', (Fulfilled (settle_value (answers name)) :: results), usage'.
      split; [done|]. split; [by rewrite Hst|]. split; [congruence|].
      assert (name ∈ dom usage) as Hin by by apply elem_of_dom_2 in He.
      split; [|split].
      * rewrite Hc, Hdom. cbn [fan_called f1].
        rewrite filter_cons_True by done. by rewrite <- app_assoc.
      * cbn [successful flat_map]. fold (successful results).
        rewrite Hs, Hdom. rewrite decide_True by done.
        by destruct (settle_value (answers name)).
      * intros [Hfresh Hnd]%NoDup_cons n. rewrite (Hent Hnd n).
        destruct (decide (n = name)) as [->|Hne].
        -- rewrite decide_False by done. rewrite decide_True by left.
           unfold usage1. by rewrite lookup_insert_eq, He.
        -- unfold usage1. rewrite lookup_insert_ne by done.
           destruct (decide (n ∈ rest)) as [Hr|Hr].
           ++ by rewrite decide_True by by right.
           ++ rewrite decide_False; [done|]. by intros [?|?]%elem_of_cons.
    + rewrite (run_unit_unregistered _ _ _ _ Hu He).
      destruct (IH f usage Hu)
        as (f' & results & usage' & Hrun & Hst & Hd & Hc & Hs & Hent).
      rewrite Hrun. exists f', (Rejected (JsTypeError "failures") :: results), usage'.
      split; [done|]. split; [done|]. split; [done|].
      assert (name ∉ dom usage) as Hin by by apply not_elem_of_dom.
      split; [|split].
      * rewrite Hc. by rewrite filter_cons_False by done.
      * cbn [successful flat_map]. fold (successful results).
        rewrite Hs. by rewrite decide_False by done.
      * intros [Hfresh Hnd]%NoDup_cons n. rewrite (Hent Hnd n).
        destruct (decide (n = name)) as [->|Hne].
        -- rewrite decide_False by done. rewrite decide_True by left.
           by rewrite He.
        -- destruct (decide (n ∈ rest)) as [Hr|Hr].
           ++ by rewrite decide_True by by right.
           ++ rewrite decide_False; [done|]. by intros [?|?]%elem_of_cons.
Qed.

(** The units of [apiMethods] whose name the constructor registered. *)
Lemma registered_methods :
  filter (.∈ dom initial_usage) apiMethods =
    ["snaptik"; "tikwm"; "tikdown"; "savett"; "ssstik"; "dlpanda"].
Proof. by vm_compute. Qed.

End FanoutFacts.

Section AccountingFacts.
Import Engine.

Lemma total_insert (field : ApiStat → Z) (usage : gmap string ApiStat)
    (k : string) (a a' : ApiStat) :
  usage !! k = Some a →
  total field (<[k := a']> usage) = total field usage - field a + field a'.
Proof.
  intros Hk. unfold total.
  rewrite (map_fold_delete_L _ 0 k a usage); [|intros; lia|done].
  rewrite <- (insert_delete_eq usage k a').
  rewrite map_fold_insert_L; [lia|intros; lia|by rewrite lookup_delete_eq].
Qed.

Lemma settle_entry_calls answer entry :
  calls (settle_entry answer entry) = calls entry + 1.
Proof. by destruct answer. Qed.

Lemma settle_entry_successes answer entry :
  successes (settle_entry answer entry) =
    successes entry + indicator (is_resolved answer).
Proof. destruct answer; simpl; lia. Qed.

Lemma settle_entry_failures answer entry :
  failures (settle_entry answer entry) =
    failures entry + indicator (is_rejected answer).
Proof. destruct answer; simpl; lia. Qed.

Lemma settle_entry_mean answer entry :
  averageResponseTime (settle_entry answer entry) =
    match answer with
    | Resolved _ duration =>
        JsNum.running_mean (averageResponseTime entry)
          (successes (settle_entry answer entry)) (JsNum.of_Z duration)
    | _ => averageResponseTime entry
    end.
Proof. by destruct answer. Qed.

(** A counter that every unit moves by [delta] of its outcome moves, in
    total, by the sum of the deltas. *)
Lemma fanout_total (field : ApiStat → Z) (delta : Outcome → Z) answers :
  (∀ answer entry, field (settle_entry answer entry) = field entry + delta answer) →
  ∀ methods f usage,
    apiUsage (fan_stats f) = Some usage →
    (∀ n, n ∈ methods → is_Some (usage !! n)) →
    ∃ usage',
      apiUsage (fan_stats (fanout methods answers f).1) = Some usage' ∧
      total field usage' =
        total field usage + foldr (fun n acc => delta (answers n) + acc) 0 methods.
Proof.
  intros Hdelta. induction methods as [|name rest IH]; intros f usage Hu Hreg.
  - exists usage. simpl. split; [done|lia].
  - destruct (Hreg name) as [entry He]; [left|].
    cbn [fanout]. rewrite (run_unit_registered _ _ _ _ _ Hu He).
    set (usage1 := <[name := settle_entry (answers name) entry]> usage).
    set (f1 := mkFanout _ _ _).
    destruct (IH f1 usage1 eq_refl) as (usage' & Hu' & Htot).
    { intros n Hn. unfold usage1.
      destruct (decide (n = name)) as [->|Hne].
      - rewrite lookup_insert_eq. by eexists.
      - rewrite lookup_insert_ne by done. apply Hreg. by right. }
    exists usage'. destruct (fanout rest answers f1) as [f2 rs] eqn:Hrun.
    simpl in *. split; [done|]. rewrite Htot. unfold usage1.
    rewrite (total_insert field usage name entry _ He), Hdelta. lia.
Qed.

Lemma sum_ones (methods : list string) :
  foldr (fun n acc => 1 + acc) 0 methods = Z.of_nat (length methods).
Proof. induction methods as [|n l IH]; simpl length; cbn [foldr]; lia. Qed.

Lemma sum_indicator (kind : Outcome → bool) answers (methods : list string) :
  foldr (fun n acc => indicator (kind (answers n)) + acc) 0 methods =
    count_outcomes kind answers methods.
Proof.
  unfold count_outcomes. induction methods as [|n l IH]; [done|].
  cbn [foldr List.filter]. rewrite IH.
  destruct (kind (answers n)); simpl length; unfold indicator; lia.
Qed.

(** When every unit either resolves or times out, the resolved ones
    are all but the timed-out ones. *)
Lemma count_resolved answers (methods : list string) :
  (∀ n, n ∈ methods →
        is_resolved (answers n) || is_timed_out (answers n) = true) →
  count_outcomes is_resolved answers methods =
    Z.of_nat (length methods) - count_outcomes is_timed_out answers methods ∧
  count_outcomes is_rejected answers methods =
    count_outcomes is_timed_out answers methods.
Proof.
  unfold count_outcomes. induction methods as [|n l IH]; intros Hall; [done|].
  destruct IH as [IH1 IH2]; [intros m Hm; apply Hall; by right|].
  specialize (Hall n ltac:(left)).
  cbn [List.filter].
  destruct (answers n); simpl in Hall; try done; simpl; lia.
Qed.

Lemma successful_count answers (usage : gmap string ApiStat) (methods : list string) :
  (∀ n, n ∈ methods → is_Some (usage !! n)) →
  Z.of_nat (length (flat_map
     (fun n => if decide (n ∈ dom usage)
               then option_list (settle_value (answers n)) else [])
     methods)) = count_outcomes is_resolved answers methods.
Proof.
  unfold count_outcomes. induction methods as [|n l IH]; intros Hreg; [done|].
  cbn [flat_map List.filter]. rewrite length_app, Nat2Z.inj_add, IH
    by (intros m Hm; apply Hreg; by right).
  rewrite decide_True by (apply elem_of_dom, Hreg; left).
  destruct (answers n); simpl; lia.
Qed.

End AccountingFacts.

Section AccountingClaims.
Import Engine.

(** C4 as stated fails: a unit whose adapter resolves with no result
    (explicit absence) is counted as a call and as nothing else; its
    failure counter stays where it was. *)
Lemma absent_result_is_not_a_failure :
  let before := mkFanout (initial_stats 0) [] [] in
  let after := (run_unit "snaptik" Absent before).1 in
  (run_unit "snaptik" Absent before).2 = Fulfilled None ∧
  (apiUsage (fan_stats before) ≫= (.!! "snaptik")) = Some (mkApiStat 0 0 0 (JsNum.of_Z 0)) ∧
  (apiUsage (fan_stats after) ≫= (.!! "snaptik")) = Some (mkApiStat 1 0 0 (JsNum.of_Z 0)) ∧
  (failures <$> (apiUsage (fan_stats after) ≫= (.!! "snaptik"))) ≠
    ((fun n => n + 1) <$> (failures <$> (apiUsage (fan_stats before) ≫= (.!! "snaptik")))).
Proof. cbv zeta. split; [|split; [|split]]; by vm_compute. Qed.

(** C4, amended: over distinct adapters whose names have a registry
    entry, every unit adds one to the call counter of its own provider
    whatever its outcome, one to the success counter exactly when it
    yields a candidate, one to the failure counter exactly when it ends
    in an error or a timeout (not when the result is absent), and
    replaces the mean only on success, by
    [(mean * (n - 1) + sample) / n] with [n] the new success count; no
    other provider is touched.  So when [M] units time out and the others
    succeed, the call counters grow by [N] in total, the success
    counters by [N - M], and [N - M] candidates are collected. *)
Theorem fanout_accounting
    (methods : list string) (answers : string → Outcome)
    (f : Fanout) (usage : gmap string ApiStat) :
  NoDup methods →
  apiUsage (fan_stats f) = Some usage →
  (∀ n, n ∈ methods → is_Some (usage !! n)) →
  ∃ f' results usage',
    fanout methods answers f = (f', results) ∧
    apiUsage (fan_stats f') = Some usage' ∧
    (∀ n, n ∉ methods → usage' !! n = usage !! n) ∧
    (∀ n entry, n ∈ methods → usage !! n = Some entry →
       ∃ entry',
         usage' !! n = Some entry' ∧
         calls entry' = calls entry + 1 ∧
         successes entry' = successes entry + indicator (is_resolved (answers n)) ∧
         failures entry' = failures entry + indicator (is_rejected (answers n)) ∧
         averageResponseTime entry' =
           match answers n with
           | Resolved _ duration =>
               JsNum.running_mean (averageResponseTime entry)
                 (successes entry') (JsNum.of_Z duration)
           | _ => averageResponseTime entry
           end) ∧
    ((∀ n, n ∈ methods →
           is_resolved (answers n) || is_timed_out (answers n) = true) →
     let N := Z.of_nat (length methods) in
     let M := count_outcomes is_timed_out answers methods in
     total calls usage' = total calls usage + N ∧
     total successes usage' = total successes usage + (N - M) ∧
     total failures usage' = total failures usage + M ∧
     Z.of_nat (length (successful results)) = N - M).
Proof.
  intros Hnd Hu Hreg.
  destruct (fanout_registry methods answers f usage Hu)
    as (f' & results & usage' & Hrun & Hst & Hd & Hc & Hs & Hent).
  specialize (Hent Hnd).
  assert (apiUsage (fan_stats f') = Some usage') as Hu' by by rewrite Hst.
  exists f', results, usage'. split; [done|]. split; [done|]. split; [|split].
  - intros n Hn. by rewrite Hent, decide_False.
  - intros n entry Hn He. exists (settle_entry (answers n) entry).
    rewrite Hent, decide_True, He by done. split; [done|].
    rewrite settle_entry_calls, settle_entry_successes, settle_entry_failures.
    split; [done|]. split; [done|]. split; [done|].
    rewrite settle_entry_mean. by destruct (answers n).
  - intros Hall N M.
    destruct (count_resolved answers methods Hall) as [Hres Hrej].
    destruct (fanout_total calls (fun _ => 1) answers settle_entry_calls
                methods f usage Hu Hreg) as (u1 & Hu1 & Hcalls).
    destruct (fanout_total successes (fun a => indicator (is_resolved a)) answers
                settle_entry_successes methods f usage Hu Hreg) as (u2 & Hu2 & Hsucc).
    destruct (fanout_total failures (fun a => indicator (is_rejected a)) answers
                settle_entry_failures methods f usage Hu Hreg) as (u3 & Hu3 & Hfail).
    rewrite Hrun in Hu1, Hu2, Hu3. simpl in Hu1, Hu2, Hu3.
    assert (u1 = usage') as -> by congruence.
    assert (u2 = usage') as -> by congruence.
    assert (u3 = usage') as -> by congruence.
    rewrite Hcalls, Hsucc, Hfail, sum_ones.
    rewrite (sum_indicator is_resolved), (sum_indicator is_rejected).
    rewrite Hs, (successful_count answers usage methods Hreg).
    unfold N, M. rewrite Hres, Hrej. done.
Qed.

(** Three registered adapters, of which ["tikwm"] times out. *)
Lemma fanout_accounting_witness :
  let answers n :=
    if String.eqb n "tikwm" then TimedOut
    else Resolved (mkCandidate (Some "https://v/1") None None high n) 40 in
  ∃ f' results usage',
    fanout ["snaptik"; "tikwm"; "dlpanda"] answers
      (mkFanout (initial_stats 0) [] []) = (f', results) ∧
    apiUsage (fan_stats f') = Some usage' ∧
    total calls usage' = total calls initial_usage + 3 ∧
    total successes usage' = total successes initial_usage + (3 - 1) ∧
    Z.of_nat (length (successful results)) = 3 - 1.
Proof.
  cbv zeta.
  destruct (fanout_accounting ["snaptik"; "tikwm"; "dlpanda"]
              (fun n => if String.eqb n "tikwm" then TimedOut
                        else Resolved (mkCandidate (Some "https://v/1") None None high n) 40)
              (mkFanout (initial_stats 0) [] []) initial_usage)
    as (f' & results & usage' & Hrun & Hu & _ & _ & Htot).
  - repeat constructor; rewrite ?elem_of_cons, ?elem_of_nil;
      intros H; repeat (destruct H as [H|H]; [discriminate H|]); exact H.
  - reflexivity.
  - intros n Hn. rewrite !elem_of_cons, elem_of_nil in Hn.
    destruct Hn as [->|[->|[->|[]]]]; eexists; vm_compute; reflexivity.
  - exists f', results, usage'. split; [exact Hrun|]. split; [exact Hu|].
    destruct Htot as (Hc & Hs & _ & Hl).
    + intros n Hn. rewrite !elem_of_cons, elem_of_nil in Hn.
      destruct Hn as [->|[->|[->|[]]]]; reflexivity.
    + split; [exact Hc|]. split; [exact Hs|exact Hl].
Defined.

End AccountingClaims.

(** ** Resolution and the cache *)

Section ResolutionFacts.
Import Engine.
Variable generateCacheKey : string → string.

Local Abbreviation cache_lookup := (cache_lookup generateCacheKey).
Local Abbreviation cache_store := (cache_store generateCacheKey).
Local Abbreviation getVideoMetadata := (getVideoMetadata generateCacheKey).
Local Abbreviation downloadVideo := (downloadVideo generateCacheKey).

Lemma select_elem_of (pref : string) (l : list Candidate) (r : Candidate) :
  Arbiter.selectBestQuality pref l = inr r → r ∈ l.
Proof.
  unfold Arbiter.selectBestQuality.
  destruct (Arbiter.sort l) as [|top rest] eqn:Hs; [done|].
  assert (top ∈ l) as Htop by (apply sort_elem_of; rewrite Hs; left).
  destruct (negb _); [|by intros [= <-]].
  destruct (List.find _ _) as [x|] eqn:Hf; intros [= <-]; [|done].
  apply List.find_some in Hf as [Hin _].
  rewrite <- list_elem_of_In, <- Hs in Hin. by apply sort_elem_of.
Qed.

Lemma set_stats_same (e : Engine) : set_stats e (stats e) = e.
Proof. by destruct e. Qed.

Lemma cache_lookup_disabled (e : Engine) (now : Z) (u : string) :
  cacheResults (options e) = false → cache_lookup e now u = None.
Proof. intros He. unfold Engine.cache_lookup. by rewrite He. Qed.

Lemma cache_store_disabled (e : Engine) (now : Z) (u : string) (d : Candidate) :
  cacheResults (options e) = false → cache_store e now u d = e.
Proof. intros He. unfold Engine.cache_store. by rewrite He. Qed.

(** The cache check reads the options and the cache only. *)
Lemma cache_lookup_set_stats (e : Engine) (s : Stats) (now : Z) (u : string) :
  cache_lookup (set_stats e s) now u = cache_lookup e now u.
Proof. done. Qed.

Lemma cache_lookup_entry (e : Engine) (now : Z) (u : string) (entry : CacheEntry) :
  cacheResults (options e) = true →
  cache e !! generateCacheKey u = Some entry →
  cache_lookup e now u =
    if now - timestamp entry <? maxCacheAge (options e)
    then Some (data entry) else None.
Proof. intros He Hc. unfold Engine.cache_lookup. by rewrite He, Hc. Qed.

Lemma cache_lookup_no_entry (e : Engine) (now : Z) (u : string) :
  cache e !! generateCacheKey u = None → cache_lookup e now u = None.
Proof.
  intros Hc. unfold Engine.cache_lookup. rewrite Hc.
  by destruct (cacheResults _).
Qed.

Lemma getVideoMetadata_hit (w : World) (u : string) (e : Engine) (d : Candidate) :
  cache_lookup e (now_lookup w) u = Some d →
  getVideoMetadata w u e = (set_stats e (bump_cacheSaves (stats e)), [], inr d).
Proof. intros Hl. unfold Engine.getVideoMetadata. by rewrite Hl. Qed.

Lemma getVideoMetadata_miss_no_registry (w : World) (u : string) (e : Engine) :
  cache_lookup e (now_lookup w) u = None →
  apiUsage (stats e) = None →
  ∃ message, getVideoMetadata w u e = (e, [], inl (JsError message)).
Proof.
  intros Hl Hu. unfold Engine.getVideoMetadata. rewrite Hl.
  destruct (fanout_no_registry apiMethods (answers w) (mkFanout (stats e) [] []) Hu)
    as (results & -> & ->).
  cbn [fan_stats fan_called fan_errors]. rewrite set_stats_same. by eexists.
Qed.

(** A miss runs the fan-out: the adapters called are those whose name
    has an entry in the registry, only [apiUsage] changes in the
    statistics, and the winner, if any, is stored when caching is on. *)
Lemma getVideoMetadata_miss (w : World) (u : string) (e : Engine)
    (usage : gmap string ApiStat) :
  cache_lookup e (now_lookup w) u = None →
  apiUsage (stats e) = Some usage →
  ∃ usage' found r,
    getVideoMetadata w u e =
      (mkEngine (options e)
         (match r with
          | inr d => if cacheResults (options e)
                     then <[generateCacheKey u := mkCacheEntry (now_store w) d]> (cache e)
                     else cache e
          | inl _ => cache e
          end)
         (set_usage (stats e) usage'),
       filter (.∈ dom usage) apiMethods, r) ∧
    dom usage' = dom usage ∧
    (∀ n, usage' !! n =
          if decide (n ∈ apiMethods)
          then settle_entry (answers w n) <$> usage !! n
          else usage !! n) ∧
    found =
      flat_map
        (fun n => if decide (n ∈ dom usage)
                  then option_list (settle_value (answers w n)) else [])
        apiMethods ∧
    (∀ d, r = inr d → d ∈ found).
Proof.
  intros Hl Hu. unfold Engine.getVideoMetadata. rewrite Hl.
  destruct (fanout_registry apiMethods (answers w) (mkFanout (stats e) [] []) usage Hu)
    as (f' & results & usage' & Hrun & Hst & Hd & Hc & Hs & Hent).
  rewrite Hrun. cbn [fan_stats fan_called app] in Hst, Hc. rewrite Hst, Hc.
  assert (NoDup apiMethods) as Hnd.
  { unfold apiMethods.
    repeat constructor; rewrite ?elem_of_cons, ?elem_of_nil;
      intros H; repeat (destruct H as [H|H]; [discriminate H|]); exact H. }
  exists usage', (successful results).
  destruct (successful results) as [|c l] eqn:Hsucc.
  - eexists (inl _). split; [done|]. split; [done|]. split; [by apply Hent|].
    split; [by rewrite <- Hs|]. intros d [=].
  - destruct (Arbiter.selectBestQuality _ (c :: l)) as [exn|best] eqn:Hsel.
    + exists (inl exn). split; [done|]. split; [done|]. split; [by apply Hent|].
      split; [by rewrite <- Hs|]. intros d [=].
    + exists (inr best). split.
      * unfold Engine.cache_store, set_cache. simpl.
        by destruct (cacheResults (options e)).
      * split; [done|]. split; [by apply Hent|].
        split; [by rewrite <- Hs|]. intros d [= <-].
        by apply select_elem_of in Hsel.
Qed.

Lemma found_is_called (answers : string → Outcome)
    (usage : gmap string ApiStat) (methods : list string) (d : Candidate) :
  d ∈ flat_map
        (fun n => if decide (n ∈ dom usage)
                  then option_list (settle_value (answers n)) else [])
        methods →
  ∃ n duration,
    n ∈ methods ∧ n ∈ dom usage ∧ answers n = Resolved d duration ∧
    n ∈ filter (.∈ dom usage) methods.
Proof.
  rewrite list_elem_of_In, in_flat_map. intros (n & Hn & Hd).
  rewrite <- list_elem_of_In in Hn.
  destruct (decide (n ∈ dom usage)) as [Hreg|]; [|by destruct Hd].
  destruct (answers n) as [c duration| | |] eqn:Ha; simpl in Hd; try by destruct Hd.
  destruct Hd as [->|[]]. exists n, duration. split; [done|]. split; [done|].
  split; [done|]. by apply list_elem_of_filter.
Qed.

Lemma cleanCache_lookup (s : Z) (e : Engine) (k : string) (entry : CacheEntry) :
  cache e !! k = Some entry →
  cache (cleanCache s e) !! k =
    if decide (s - timestamp entry > maxCacheAge (options e))
    then None else Some entry.
Proof.
  intros Hk. unfold Engine.cleanCache. cbn [cache set_cache].
  destruct (decide _) as [Hold|Hyoung].
  - apply map_lookup_filter_None. right. intros x Hx. simpl.
    rewrite Hk in Hx. injection Hx as <-. by intros ?.
  - apply map_lookup_filter_Some. by split.
Qed.

(** The [catch] block never returns a value. *)
Lemma failing_is_not_success (now : Z) (u : string) (exn : Exn) (e e' : Engine)
    (called called' : list string) (info : SuccessInfo) :
  (let '(e2, thrown) := fail_download now u exn e in
   (e2, called, inl thrown : Result SuccessInfo)) = (e', called', inr info) →
  False.
Proof. by destruct (fail_download now u exn e). Qed.

(** What a [downloadVideo] that returns has done: the resolution gave
    [metadata] with a usable [videoUrl], and the ['success'] handler ran
    on the statistics the resolution and [record_download] left. *)
Lemma downloadVideo_success (w : DownloadWorld) (u : string) (e e' : Engine)
    (called : list string) (info : SuccessInfo) :
  downloadVideo w u e = (e', called, inr info) →
  ∃ e1 metadata s3,
    getVideoMetadata (resolution w) u (set_stats e (bump_total (stats e))) =
      (e1, called, inr metadata) ∧
    truthy (videoUrl metadata) = true ∧
    info = info_of metadata ∧
    on_success info (now_end w - now_start w)
      (record_download (now_end w - now_start w) (stats e1)) = inr s3 ∧
    e' = set_stats e1 s3.
Proof.
  unfold Engine.downloadVideo.
  destruct (getVideoMetadata _ _ _) as [[e1 called1] [exn|metadata]].
  - intros H. by apply failing_is_not_success in H.
  - destruct (truthy (videoUrl metadata)) eqn:Ht.
    + destruct (on_success _ _ _) as [exn|s3] eqn:Hs.
      * intros H. by apply failing_is_not_success in H.
      * intros [= <- <- <-]. by exists e1, metadata, s3.
    + intros H. by apply failing_is_not_success in H.
Qed.


End ResolutionFacts.

Section CacheClaims.
Import Engine.
Variable generateCacheKey : string → string.

Local Abbreviation cache_lookup := (cache_lookup generateCacheKey).
Local Abbreviation getVideoMetadata := (getVideoMetadata generateCacheKey).
Local Abbreviation downloadVideo := (downloadVideo generateCacheKey).



End CacheClaims.


Section RegistryClaims.
Import Engine.
Variable generateCacheKey : string → string.

Local Abbreviation getVideoMetadata := (getVideoMetadata generateCacheKey).

(** C3, evaluated on the code: the registry the constructor builds has
    no entry for ["webscraping"], which is one of the [apiMethods]; its
    unit throws on [calls++], throws again in the [catch] block, and so
    rejects without calling the adapter, whatever the adapter would have
    answered, and without touching any counter.  No resolution on a
    newly built engine calls the web-scraping adapter. *)
Theorem webscraping_unit_faults (now : Z) (answer : Outcome)
    (errs called : list string) (o : UserOptions) (w : World) (u : string) :
  let f := mkFanout (initial_stats now) errs called in
  ("webscraping" ∈ apiMethods) ∧
  initial_usage !! "webscraping" = None ∧
  run_unit "webscraping" answer f = (f, Rejected (JsTypeError "failures")) ∧
  (getVideoMetadata w u (constructor o now)).1.2 =
    ["snaptik"; "tikwm"; "tikdown"; "savett"; "ssstik"; "dlpanda"].
Proof.
  cbv zeta. split; [|split; [|split]].
  - unfold apiMethods. do 6 right. left.
  - by vm_compute.
  - by apply (run_unit_unregistered _ _ _ initial_usage).
  - destruct (getVideoMetadata_miss generateCacheKey w u (constructor o now) initial_usage)
      as (usage1 & found & r & -> & _); [|done|].
    + by apply cache_lookup_no_entry.
    + apply registered_methods.
Qed.

End RegistryClaims.

Section DisabledCacheClaims.
Import Engine.
Variable generateCacheKey : string → string.

Local Abbreviation cache_lookup := (cache_lookup generateCacheKey).
Local Abbreviation cache_store := (cache_store generateCacheKey).
Local Abbreviation getVideoMetadata := (getVideoMetadata generateCacheKey).

(** With [cacheResults: false] the lookup misses, the store does
    nothing, and a resolution is what it is on a miss with caching on,
    the cache apart. *)
Lemma caching_disabled_changes_nothing_else
    (w : World) (u : string) (off on : Engine) :
  cacheResults (options off) = false →
  preferredQuality (options on) = preferredQuality (options off) →
  stats on = stats off →
  cache_lookup on (now_lookup w) u = None →
  cache_lookup off (now_lookup w) u = None ∧
  (∀ now d, cache_store off now u d = off) ∧
  cache (getVideoMetadata w u off).1.1 = cache off ∧
  stats (getVideoMetadata w u off).1.1 = stats (getVideoMetadata w u on).1.1 ∧
  (getVideoMetadata w u off).1.2 = (getVideoMetadata w u on).1.2 ∧
  (getVideoMetadata w u off).2 = (getVideoMetadata w u on).2.
Proof.
  intros Hoff Hpref Hstats Hmiss.
  pose proof (cache_lookup_disabled generateCacheKey off (now_lookup w) u Hoff) as Hl.
  split; [done|]. split; [by intros; apply cache_store_disabled|].
  unfold Engine.getVideoMetadata. rewrite Hl, Hmiss, Hstats, Hpref.
  destruct (fanout _ _ _) as [f results].
  destruct (successful results) as [|c l]; [done|].
  destruct (Arbiter.selectBestQuality _ _) as [exn|best]; [done|].
  unfold Engine.cache_store. cbn [options set_stats]. rewrite Hoff.
  by destruct (cacheResults (options on)).
Qed.

(** C8, evaluated on the code: an engine built with
    [cacheResults: false] resolves the same reference twice; the cache
    stays empty and both resolutions run the fan-out, but each calls six
    adapters only: ["webscraping"], the seventh of [apiMethods], is
    called by neither. *)
Theorem caching_disabled_resolutions_skip_webscraping
    (now : Z) (w1 w2 : World) (u : string) :
  let e := constructor (mkUserOptions None None None (Some false) None) now in
  let first := getVideoMetadata w1 u e in
  let second := getVideoMetadata w2 u first.1.1 in
  cache first.1.1 = ∅ ∧ cache second.1.1 = ∅ ∧
  first.1.2 = ["snaptik"; "tikwm"; "tikdown"; "savett"; "ssstik"; "dlpanda"] ∧
  second.1.2 = first.1.2 ∧
  ("webscraping" ∈ apiMethods) ∧
  ("webscraping" ∉ first.1.2) ∧ ("webscraping" ∉ second.1.2).
Proof.
  intros e first second.
  assert (Hoff : cacheResults (options e) = false) by done.
  destruct (getVideoMetadata_miss generateCacheKey w1 u e initial_usage)
    as (usage1 & found1 & r1 & Hrun1 & Hdom1 & _);
    [by apply cache_lookup_disabled|done|].
  rewrite Hoff in Hrun1.
  assert (Hcache1 : cache first.1.1 = ∅).
  { unfold first. rewrite Hrun1. by destruct r1. }
  assert (Hstats1 : apiUsage (stats first.1.1) = Some usage1).
  { unfold first. by rewrite Hrun1. }
  assert (Hopt1 : cacheResults (options first.1.1) = false).
  { unfold first. by rewrite Hrun1. }
  destruct (getVideoMetadata_miss generateCacheKey w2 u first.1.1 usage1)
    as (usage2 & found2 & r2 & Hrun2 & _);
    [by apply cache_lookup_disabled|done|].
  rewrite Hopt1, Hcache1, Hdom1 in Hrun2.
  assert (Hcalled1 : first.1.2 = ["snaptik"; "tikwm"; "tikdown"; "savett"; "ssstik"; "dlpanda"]).
  { unfold first. rewrite Hrun1. apply registered_methods. }
  assert (Hcalled2 : second.1.2 = first.1.2).
  { unfold second. rewrite Hrun2, Hcalled1. apply registered_methods. }
  assert (Hnot : "webscraping" ∉ first.1.2).
  { rewrite Hcalled1, !elem_of_cons, elem_of_nil.
    intros H. repeat (destruct H as [H|H]; [discriminate H|]). exact H. }
  split; [done|]. split; [unfold second; rewrite Hrun2; by destruct r2|].
  split; [done|]. split; [done|]. split; [|split].
  - unfold apiMethods. do 6 right. left.
  - done.
  - by rewrite Hcalled2.
Qed.

End DisabledCacheClaims.

(** ** downloadVideo and the ['success'] handler *)

Section DownloadClaims.
Import Engine.
Variable generateCacheKey : string → string.

Local Abbreviation cache_lookup := (cache_lookup generateCacheKey).
Local Abbreviation getVideoMetadata := (getVideoMetadata generateCacheKey).
Local Abbreviation downloadVideo := (downloadVideo generateCacheKey).

(** C10: when [downloadVideo] returns a result of provider [P] and [P]
    has an entry in the registry, the ['success'] handler adds one to
    [P]'s success counter and recomputes [P]'s mean with the duration of
    the whole call, on top of what the resolution did.  On a cache miss
    the resolution had already counted the success of [P]'s unit, so the
    counter moves by two for one call; on a cache hit no adapter is
    called and [P]'s call counter does not move, so the success counter
    passes the call counter as soon as it had reached it. *)
Theorem success_handler_counts_again
    (w : DownloadWorld) (u : string) (e e' : Engine)
    (called : list string) (info : SuccessInfo)
    (usage : gmap string ApiStat) (entry : ApiStat) :
  well_tagged (answers (resolution w)) →
  apiUsage (stats e) = Some usage →
  usage !! info_source info = Some entry →
  downloadVideo w u e = (e', called, inr info) →
  let elapsed := now_end w - now_start w in
  ∃ usage' resolved final,
    apiUsage (stats e') = Some usage' ∧
    usage' !! info_source info = Some final ∧
    final = record_success elapsed resolved ∧
    successes final = successes resolved + 1 ∧
    calls final = calls resolved ∧
    averageResponseTime final =
      JsNum.running_mean (averageResponseTime resolved) (successes final)
        (JsNum.of_Z elapsed) ∧
    match cache_lookup e (now_lookup (resolution w)) u with
    | Some _ =>
        called = [] ∧ resolved = entry ∧
        calls final = calls entry ∧
        successes final = successes entry + 1 ∧
        (calls entry <= successes entry → calls final < successes final)
    | None =>
        ∃ c duration,
          answers (resolution w) (info_source info) = Resolved c duration ∧
          resolved = record_success duration (bump_calls entry) ∧
          calls final = calls entry + 1 ∧
          successes final = successes entry + 2
    end.
Proof.
  intros Htag Hu He Hrun elapsed.
  destruct (downloadVideo_success generateCacheKey w u e e' called info Hrun)
    as (e1 & metadata & s3 & Hres & _ & Hinfo & Hhandler & ->).
  set (e0 := set_stats e (bump_total (stats e))) in *.
  assert (Hu0 : apiUsage (stats e0) = Some usage) by done.
  assert (Hfinal : ∀ usage1 resolved,
            apiUsage (stats e1) = Some usage1 →
            usage1 !! info_source info = Some resolved →
            apiUsage (stats (set_stats e1 s3)) =
              Some (<[info_source info := record_success elapsed resolved]> usage1)).
  { intros usage1 resolved Hu1 Hr. unfold on_success in Hhandler.
    cbn [apiUsage record_download] in Hhandler. rewrite Hu1, Hr in Hhandler.
    by injection Hhandler as <-. }
  destruct (cache_lookup e (now_lookup (resolution w)) u) as [cached|] eqn:Hl.
  - rewrite (getVideoMetadata_hit generateCacheKey (resolution w) u e0 cached) in Hres
      by done.
    injection Hres as <- <- <-.
    exists (<[info_source info := record_success elapsed entry]> usage),
           entry, (record_success elapsed entry).
    split; [by apply Hfinal|]. split; [by rewrite lookup_insert_eq|].
    cbn [record_success successes calls averageResponseTime].
    repeat (split; [done|]). intros Hle. lia.
  - destruct (getVideoMetadata_miss generateCacheKey (resolution w) u e0 usage)
      as (usage1 & found & r & Hres' & _ & Hent & Hfound & Hin); [done|done|].
    rewrite Hres in Hres'. injection Hres' as -> _ <-.
    specialize (Hin metadata eq_refl). rewrite Hfound in Hin.
    destruct (found_is_called _ _ _ _ Hin) as (n & duration & Hn & _ & Hans & _).
    pose proof (Htag n metadata duration Hans) as Hsrc.
    assert (info_source info = n) as Hp by by rewrite Hinfo.
    assert (usage1 !! info_source info =
              Some (record_success duration (bump_calls entry))) as Hmid.
    { rewrite Hent, Hp, decide_True by done. rewrite <- Hp, He, Hp, Hans. done. }
    exists (<[info_source info :=
                record_success elapsed (record_success duration (bump_calls entry))]> usage1),
           (record_success duration (bump_calls entry)),
           (record_success elapsed (record_success duration (bump_calls entry))).
    split; [by apply Hfinal|]. split; [by rewrite lookup_insert_eq|].
    cbn [record_success bump_calls successes calls averageResponseTime].
    repeat (split; [done|]).
    exists metadata, duration. rewrite Hp. split; [done|]. split; [done|].
    split; lia.
Qed.

End DownloadClaims.

(** After the first download ["snaptik"] has one call and two successes;
    after the second, served from the cache, one call and three. *)
Lemma success_handler_counts_again_witness :
  (apiUsage (stats Scenario.after_first_download) ≫= (.!! "snaptik")) =
    Some (mkApiStat 1 2 0 (JsNum.Fin (110 # 2))) ∧
  ∃ usage2 final,
    apiUsage (stats Scenario.after_second_download) = Some usage2 ∧
    usage2 !! "snaptik" = Some final ∧
    calls final = 1 ∧ successes final = 3 ∧ calls final < successes final.
Proof.
  split; [vm_compute; reflexivity|].
  destruct (success_handler_counts_again Scenario.key
              Scenario.second_download Scenario.reference
              Scenario.after_first_download Scenario.after_second_download
              [] (Engine.info_of Scenario.answer)
              (default ∅ (apiUsage (stats Scenario.after_first_download)))
              (mkApiStat 1 2 0 (JsNum.Fin (110 # 2))))
    as (usage2 & resolved & final & Hu & Hf & _ & _ & _ & _ & Hhit).
  - intros n c duration. unfold Scenario.second_download, Scenario.second_resolution,
      Scenario.providers. cbn [resolution answers].
    destruct (String.eqb_spec n "snaptik") as [->|]; [|done].
    by intros [= <- _].
  - vm_compute. reflexivity.
  - vm_compute. reflexivity.
  - vm_compute. reflexivity.
  - exists usage2, final. split; [exact Hu|]. split; [exact Hf|].
    vm_compute in Hhit. destruct Hhit as (_ & _ & Hc & Hs & Hlt).
    split; [exact Hc|]. split; [exact Hs|]. apply Hlt. discriminate.
Defined.

(** ** Statistics *)

Section StatisticsFacts.
Import Engine.

Lemma percentage_zero_denominator (a : JsNum.num) :
  JsNum.is_sentinel (percentage a (JsNum.of_Z 0)) = true.
Proof.
  destruct a as [q|s|]; [|done|done].
  unfold percentage, JsNum.div, JsNum.of_Z. cbn [inject_Z JsNum.is_zero Qnum Z.eqb].
  by destruct (JsNum.is_zero q).
Qed.

(** [getStats] is total, and over no download its ratio is a sentinel. *)
Lemma getStats_zero_total (s : Stats) :
  totalDownloads s = 0 →
  JsNum.is_sentinel (successRate (getStats s)) = true.
Proof.
  intros H0. unfold getStats. cbn [successRate]. rewrite H0.
  apply percentage_zero_denominator.
Qed.

Lemma getStats_fresh (now : Z) :
  successRate (getStats (initial_stats now)) = JsNum.NaN.
Proof. done. Qed.

(** So is [getDetailedStats] as long as the error log exists. *)
Lemma getDetailedStats_zero_total (now : Z) (s : Stats) (log : list ErrorEntry) :
  totalDownloads s = 0 →
  errors s = Some log →
  ∃ d,
    getDetailedStats now s = inr d ∧
    JsNum.is_sentinel (detailed_successRate d) = true ∧
    JsNum.is_sentinel (cacheEfficiency d) = true.
Proof.
  intros H0 Hlog. unfold getDetailedStats. rewrite Hlog, H0.
  eexists. split; [done|]. cbn [detailed_successRate cacheEfficiency].
  split; apply percentage_zero_denominator.
Qed.

Lemma getDetailedStats_fresh (now start : Z) :
  ∃ d,
    getDetailedStats now (initial_stats start) = inr d ∧
    detailed_successRate d = JsNum.NaN ∧ cacheEfficiency d = JsNum.NaN.
Proof. by eexists. Qed.

Lemma fail_download_without_log (now : Z) (u : string) (exn : Exn) (e : Engine) :
  errors (stats e) = None →
  fail_download now u exn e =
    (set_stats e (bump_failed (stats e)), JsTypeError "push").
Proof.
  intros Hlog. unfold fail_download, on_error. cbn [errors bump_failed].
  by rewrite Hlog.
Qed.

End StatisticsFacts.

Section StatisticsClaims.
Import Engine.
Variable generateCacheKey : string → string.

Local Abbreviation cache_lookup := (cache_lookup generateCacheKey).
Local Abbreviation getVideoMetadata := (getVideoMetadata generateCacheKey).
Local Abbreviation downloadVideo := (downloadVideo generateCacheKey).

(** C7, evaluated on the code: [resetStats] assigns an object that has
    the four top-level counters only.  The per-provider registry, the
    cache-save counter, the error log and the start time are then
    [undefined] rather than zero or empty; [getDetailedStats] throws on
    the missing log, and every later [downloadVideo] ends in the same
    kind of fault, raised by the ['error'] handler, without a single
    adapter having been called. *)
Theorem resetStats_drops_the_registry
    (e : Engine) (now : Z) (w : DownloadWorld) (u : string) :
  let reset := resetStats e in
  totalDownloads (stats reset) = 0 ∧
  successfulDownloads (stats reset) = 0 ∧
  failedDownloads (stats reset) = 0 ∧
  apiUsage (stats reset) = None ∧
  cacheSaves (stats reset) = None ∧
  errors (stats reset) = None ∧
  startTime (stats reset) = None ∧
  getDetailedStats now (stats reset) = inl (JsTypeError "slice") ∧
  ∃ e2, downloadVideo w u reset = (e2, [], inl (JsTypeError "push")).
Proof.
  intros reset. repeat (split; [done|]).
  unfold Engine.downloadVideo.
  set (e0 := set_stats reset (bump_total (stats reset))).
  destruct (cache_lookup e0 (now_lookup (resolution w)) u) as [d|] eqn:Hl.
  - rewrite (getVideoMetadata_hit generateCacheKey (resolution w) u e0 d Hl).
    destruct (truthy (videoUrl d)).
    + unfold on_success.
      cbn [apiUsage record_download bump_cacheSaves bump_total stats set_stats
           resetStats e0 reset].
      rewrite fail_download_without_log by done. by eexists.
    + rewrite fail_download_without_log by done. by eexists.
  - destruct (getVideoMetadata_miss_no_registry generateCacheKey (resolution w) u e0 Hl)
      as (message & ->); [done|].
    rewrite fail_download_without_log by done. by eexists.
Qed.

(** C9, evaluated on the code: the state [resetStats] leaves has
    [totalDownloads = 0]; [getStats] answers there with a not-a-number
    success rate, but [getDetailedStats] throws before it returns
    anything. *)
Theorem getDetailedStats_faults_after_reset (e : Engine) (now : Z) :
  let s := stats (resetStats e) in
  totalDownloads s = 0 ∧
  successRate (getStats s) = JsNum.NaN ∧
  getDetailedStats now s = inl (JsTypeError "slice").
Proof. done. Qed.

End StatisticsClaims.

(** * Further properties *)

(** ** The retrying transport, beyond exhaustion *)

Section TransportMore.
Import Transport.
Context {Response Err : Type}.
Variable axios : Z → Err + Response.

Lemma sum_backoff (j : nat) :
  foldr Z.add 0 (map (fun i : nat => 2 ^ Z.of_nat i * 1000) (seq 0 j)) =
    (2 ^ Z.of_nat j - 1) * 1000.
Proof.
  induction j as [|j IH]; [done|].
  rewrite seq_S, map_app, foldr_app. cbn [map foldr Nat.add].
  assert (∀ (l : list Z) (a : Z), foldr Z.add a l = foldr Z.add 0 l + a) as Hacc.
  { induction l as [|x l IHl]; intros a; cbn [foldr]; [lia|]. rewrite IHl. lia. }
  rewrite Hacc, IH, Nat2Z.inj_succ, Z.pow_succ_r by lia. lia.
Qed.

Lemma attempts_succeed_at (errs : Z → Err) (response : Response) (retries : Z) :
  ∀ (j remaining : nat) (i : Z) (lastError : option Err),
    (j < remaining)%nat →
    i + Z.of_nat j < retries →
    (∀ m, i <= m < i + Z.of_nat j → axios m = inl (errs m)) →
    axios (i + Z.of_nat j) = inr response →
    attempts axios retries remaining i lastError =
      ((flat_map
          (fun n : nat =>
             [Attempt (i + Z.of_nat n); Sleep (2 ^ (i + Z.of_nat n) * 1000)])
          (seq 0 j)
        ++ [Attempt (i + Z.of_nat j)])%list,
       inr response).
Proof.
  induction j as [|j IH]; intros remaining i lastError Hrem Hlt Hfail Hok.
  - destruct remaining as [|r]; [lia|]. cbn [attempts].
    rewrite Z.add_0_r in Hok. rewrite Hok. cbn. by rewrite Z.add_0_r.
  - destruct remaining as [|r]; [lia|]. cbn [attempts].
    rewrite (Hfail i) by lia.
    rewrite (IH r (i + 1) (Some (errs i))); [|lia|lia| |].
    + destruct (Z.ltb_spec i (retries - 1)); [|lia].
      change (seq 0 (S j)) with (0%nat :: seq 1 j).
      cbn [flat_map app]. rewrite Z.add_0_r, flat_map_shift.
      do 4 f_equal.
      * apply flat_map_ext. intros n.
        by replace (i + 1 + Z.of_nat n) with (i + Z.of_nat (S n)) by lia.
      * do 2 f_equal. lia.
    + intros m Hm. apply Hfail. lia.
    + by replace (i + 1 + Z.of_nat j) with (i + Z.of_nat (S j)) by lia.
Qed.

End TransportMore.

Lemma retry_prefix_counts (l : list nat) :
  Transport.attempts_made
    (flat_map
       (fun i : nat =>
          [Transport.Attempt (Z.of_nat i);
           Transport.Sleep (2 ^ Z.of_nat i * 1000)]) l) = length l ∧
  Transport.sleeps
    (flat_map
       (fun i : nat =>
          [Transport.Attempt (Z.of_nat i);
           Transport.Sleep (2 ^ Z.of_nat i * 1000)]) l) =
    map (fun i : nat => 2 ^ Z.of_nat i * 1000) l.
Proof.
  induction l as [|x l [IHa IHs]]; [done|].
  unfold Transport.attempts_made, Transport.sleeps in *.
  cbn [flat_map app List.filter Transport.is_attempt length map].
  by rewrite IHa, IHs.
Qed.

Section TransportBounds.
Import Transport.
Context {Response Err : Type}.
Variable axios : Z → Err + Response.

Lemma attempts_bounds (retries : Z) :
  ∀ (remaining : nat) (i : Z) (lastError : option Err),
    retries <= i + Z.of_nat remaining →
    (attempts_made (attempts axios retries remaining i lastError).1 <= remaining)%nat ∧
    (length (sleeps (attempts axios retries remaining i lastError).1) <= pred remaining)%nat ∧
    ((attempts axios retries remaining i lastError).2 = inl None →
     remaining = 0%nat ∧ lastError = None).
Proof.
  induction remaining as [|r IH]; intros i lastError Halign.
  - cbn. split; [lia|]. split; [lia|]. by intros [= <-].
  - cbn [attempts]. destruct (axios i) as [err|response].
    + specialize (IH (i + 1) (Some err) ltac:(lia)).
      destruct (attempts axios retries r (i + 1) (Some err)) as [trace outcome].
      cbn [fst snd] in *. destruct IH as (Ha & Hs & Hnull).
      unfold attempts_made in *. cbn [List.filter is_attempt length].
      rewrite List.filter_app, length_app.
      unfold sleeps in *. cbn [flat_map app]. rewrite flat_map_app, length_app.
      destruct (Z.ltb_spec i (retries - 1)) as [Hlt|Hge]; cbn.
      * split; [lia|]. split; [destruct r; [lia|cbn in Hs; lia]|].
        intros Hout. by destruct (Hnull Hout) as [_ [=]].
      * split; [lia|]. split; [destruct r; cbn in Hs; lia|].
        intros Hout. by destruct (Hnull Hout) as [_ [=]].
    + cbn. split; [lia|]. split; [lia|]. by intros [=].
Qed.


(** X2: When the first [j] attempts fail and attempt [j], still within the
    budget, succeeds, its response is returned after [j + 1] attempts and
    the sleeps [1000, 2000, ..., 2^(j-1) * 1000], that is
    [(2^j - 1) * 1000] ms of waiting; nothing is attempted afterwards. *)
Theorem fetchWithRetry_first_success
    (errs : Z → Err) (response : Response) (maxRetries : Z) (j : nat) :
  Z.of_nat j < maxRetries →
  (∀ i, 0 <= i < Z.of_nat j → axios i = inl (errs i)) →
  axios (Z.of_nat j) = inr response →
  fetchWithRetry axios maxRetries = (retry_then_succeed j, inr response) ∧
  attempts_made (retry_then_succeed j) = S j ∧
  sleeps (retry_then_succeed j) =
    map (fun i : nat => 2 ^ Z.of_nat i * 1000) (seq 0 j) ∧
  total_sleep (retry_then_succeed j) = (2 ^ Z.of_nat j - 1) * 1000.
Proof.
  intros Hj Hfail Hok.
  assert (Hcount : attempts_made (retry_then_succeed j) = S j ∧
                   sleeps (retry_then_succeed j) =
                     map (fun i : nat => 2 ^ Z.of_nat i * 1000) (seq 0 j)).
  { unfold retry_then_succeed. rewrite attempts_made_app, sleeps_app.
    destruct (retry_prefix_counts (seq 0 j)) as [-> ->].
    rewrite length_seq. split; [cbn; lia|]. cbn [sleeps flat_map app].
    by rewrite app_nil_r. }
  destruct Hcount as [Ha Hs].
  split; [|split; [done|split; [done|]]].
  - unfold fetchWithRetry.
    rewrite (attempts_succeed_at axios errs response maxRetries j
               (Z.to_nat maxRetries) 0 None); [|lia|lia| |].
    + done.
    + intros m Hm. apply Hfail. lia.
    + by rewrite Z.add_0_l.
  - unfold total_sleep. rewrite Hs. apply sum_backoff.
Qed.

End TransportBounds.

Lemma fetchWithRetry_first_success_witness :
  Transport.fetchWithRetry
    (fun i : Z => if i <? 2 then inl (JsError "ETIMEDOUT") else inr "ok"%string)
    (maxRetries (make_options default_user_options)) =
    ([Transport.Attempt 0; Transport.Sleep 1000; Transport.Attempt 1;
      Transport.Sleep 2000; Transport.Attempt 2], inr "ok"%string) ∧
  total_sleep (retry_then_succeed 2) = 3000.
Proof.
  destruct (fetchWithRetry_first_success
              (fun i : Z => if i <? 2 then inl (JsError "ETIMEDOUT") else inr "ok"%string)
              (fun _ => JsError "ETIMEDOUT") "ok"%string
              (maxRetries (make_options default_user_options)) 2)
    as (Hrun & _ & _ & Htotal).
  - reflexivity.
  - intros i Hi. destruct (Z.ltb_spec i 2); [reflexivity|lia].
  - reflexivity.
  - split; [exact Hrun|exact Htotal].
Defined.

Section TransportWorstCase.
Import Transport.
Context {Response Err : Type}.

(** X3: Against a request whose [k >= 1] attempts all fail, the loop sleeps
    [(2^(k-1) - 1) * 1000] ms in all before it gives up: 3 s with the
    default three attempts. *)
Theorem fetchWithRetry_worst_case_delay
    (opts : Options) (axios : Z → Err + Response) (errs : Z → Err) (j : nat) :
  maxRetries opts = Z.of_nat (S j) →
  (∀ i, 0 <= i < Z.of_nat (S j) → axios i = inl (errs i)) →
  total_sleep (fetchWithRetry axios (maxRetries opts)).1 =
    (2 ^ Z.of_nat j - 1) * 1000.
Proof.
  intros Hk Hfail. rewrite Hk.
  rewrite (fetchWithRetry_all_fail axios errs (S j) Hfail). cbn [fst].
  destruct (backoff_schedule_counts (S j)) as [_ Hs].
  unfold total_sleep. rewrite Hs. cbn [Nat.sub]. rewrite Nat.sub_0_r.
  apply sum_backoff.
Qed.

End TransportWorstCase.

Lemma fetchWithRetry_worst_case_delay_witness :
  total_sleep
    (Transport.fetchWithRetry
       (fun _ : Z => inl (JsError "ECONNRESET") : Exn + string)
       (maxRetries (make_options default_user_options))).1 = 3000.
Proof.
  apply (fetchWithRetry_worst_case_delay (Response := string)
           (make_options default_user_options)
           (fun _ : Z => inl (JsError "ECONNRESET"))
           (fun _ : Z => JsError "ECONNRESET") 2).
  - reflexivity.
  - intros i _. reflexivity.
Defined.


(** ** [results.sort]: sorted, complete and stable *)

Section SortFacts.
Import Arbiter.

Lemma indexOf_range (x : string) :
  -1 <= indexOf sourceOrder x <= 4.
Proof.
  unfold indexOf, sourceOrder. cbn [indexOf_from].
  repeat (destruct (String.eqb _ x); [lia|]). lia.
Qed.

Lemma compare_rank (a b : Candidate) :
  (compare a b <= 0 ↔ rank a <= rank b) ∧ (compare a b = 0 ↔ rank a = rank b).
Proof.
  unfold compare, rank.
  pose proof (indexOf_range (source a)). pose proof (indexOf_range (source b)).
  destruct (quality a), (quality b); simpl; lia.
Qed.

Lemma insert_sorted (x : Candidate) (l : list Candidate) :
  StronglySorted precedes l → StronglySorted precedes (insert x l).
Proof.
  induction 1 as [|y l Hs IH Hall]; cbn [insert].
  - by repeat constructor.
  - destruct (Z.leb_spec (compare x y) 0) as [Hle|Hgt].
    + constructor; [by constructor|]. constructor; [done|].
      eapply Forall_impl; [exact Hall|]. intros z Hz. by eapply compare_trans.
    + constructor; [done|].
      assert (precedes y x) as Hyx by (destruct (compare_total y x); [done|unfold precedes; lia]).
      rewrite (insert_perm x l). by constructor.
Qed.

Lemma sort_sorted (l : list Candidate) : StronglySorted precedes (sort l).
Proof.
  induction l as [|x l IH]; [constructor|]. by apply insert_sorted.
Qed.

Lemma sorted_is_fixed (l : list Candidate) :
  StronglySorted precedes l → sort l = l.
Proof.
  induction 1 as [|x l Hs IH Hall]; [done|].
  cbn [sort foldr]. fold (sort l). rewrite IH.
  destruct l as [|y l]; [done|]. cbn [insert].
  apply Forall_cons in Hall as [Hxy _].
  by destruct (Z.leb_spec (compare x y) 0); [|unfold precedes in Hxy; lia].
Qed.

Lemma ties_filter_insert (x a : Candidate) (l : list Candidate) :
  List.filter (ties_with x) (insert a l) =
    List.filter (ties_with x) (a :: l).
Proof.
  induction l as [|y l IH]; [done|]. cbn [insert].
  destruct (Z.leb_spec (compare a y) 0) as [Hle|Hgt]; [done|].
  cbn [List.filter] in *. rewrite IH.
  destruct (ties_with x a) eqn:Ha, (ties_with x y) eqn:Hy; try done.
  exfalso. unfold ties_with in *. apply Z.eqb_eq in Ha, Hy.
  apply compare_rank in Ha, Hy.
  assert (¬ compare a y <= 0) as Hn by lia.
  apply Hn, compare_rank. lia.
Qed.

(** X4: The embedding of [results.sort(compare)] has the three properties
    that determine what a stable sort returns: it keeps every candidate,
    it puts each one before all those the comparator does not rank
    before it, and candidates the comparator ties stay in the order they
    came in. *)
Theorem sort_is_stable_sort (l : list Candidate) :
  sort l ≡ₚ l ∧
  StronglySorted precedes (sort l) ∧
  (∀ x, List.filter (ties_with x) (sort l) = List.filter (ties_with x) l).
Proof.
  split; [apply sort_perm|]. split; [apply sort_sorted|].
  intros x. induction l as [|a l IH]; [done|].
  cbn [sort foldr]. fold (sort l). rewrite ties_filter_insert.
  cbn [List.filter]. by rewrite IH.
Qed.

(** X5: Sorting a second time changes nothing, so arbitrating again over an
    already arbitrated array selects the same candidate. *)
Theorem sort_idempotent (pref : string) (l : list Candidate) :
  sort (sort l) = sort l ∧
  selectBestQuality pref (sort l) = selectBestQuality pref l.
Proof.
  assert (sort (sort l) = sort l) as Hs by apply sorted_is_fixed, sort_sorted.
  split; [done|]. unfold selectBestQuality. by rewrite Hs.
Qed.

(** X6: [selectBestQuality] returns one of the candidates it was given.  When
    some candidate has the preferred tier, so has the winner; when none
    has, no candidate has a higher tier than the winner. *)
Theorem selectBestQuality_choice
    (pref : string) (l : list Candidate) (winner : Candidate) :
  selectBestQuality pref l = inr winner →
  winner ∈ l ∧
  ((∃ r, r ∈ l ∧ quality_name (quality r) = pref) →
   quality_name (quality winner) = pref) ∧
  ((∀ r, r ∈ l → quality_name (quality r) ≠ pref) →
   ∀ r, r ∈ l → qualityMap (quality r) <= qualityMap (quality winner)).
Proof.
  intros Hsel.
  assert (Htop : ∀ top rest, sort l = top :: rest →
            ∀ r, r ∈ l → qualityMap (quality r) <= qualityMap (quality top)).
  { intros top rest Hs r Hr. by apply compare_quality, (sort_top l top rest). }
  unfold selectBestQuality in Hsel.
  destruct (sort l) as [|top rest] eqn:Hs; [done|].
  assert (top ∈ l) as Hin by (apply sort_elem_of; rewrite Hs; left).
  destruct (String.eqb_spec pref "high") as [->|Hp]; cbn [negb] in Hsel.
  - injection Hsel as <-. split; [done|]. split; [|by eauto].
    intros (r & Hr & Hq). pose proof (Htop top rest eq_refl r Hr) as Hle.
    destruct (quality r); try done. by destruct (quality top); simpl in Hle; try lia.
  - destruct (List.find _ _) as [x|] eqn:Hf; injection Hsel as <-.
    + apply List.find_some in Hf as [Hx Hq].
      rewrite <- list_elem_of_In, <- Hs, sort_elem_of in Hx.
      apply String.eqb_eq in Hq. split; [done|]. split; [done|].
      intros Hno. by destruct (Hno _ Hx).
    + split; [done|]. split; [|by eauto].
      intros (r & Hr & Hq). exfalso.
      assert (has_quality pref r = false) as Hnone.
      { apply (List.find_none _ _ Hf r).
        rewrite <- list_elem_of_In, <- Hs. by apply sort_elem_of. }
      by apply String.eqb_neq in Hnone.
Qed.

End SortFacts.

Lemma selectBestQuality_choice_witness :
  let results :=
    [mkCandidate (Some "https://v/1") None None high "tikwm";
     mkCandidate (Some "https://v/2") None None medium "webscraping"] in
  ∃ winner,
    Arbiter.selectBestQuality "medium" results = inr winner ∧
    winner ∈ results ∧ quality winner = medium.
Proof.
  cbv zeta.
  exists (mkCandidate (Some "https://v/2") None None medium "webscraping").
  destruct (selectBestQuality_choice "medium"
              [mkCandidate (Some "https://v/1") None None high "tikwm";
               mkCandidate (Some "https://v/2") None None medium "webscraping"]
              (mkCandidate (Some "https://v/2") None None medium "webscraping"))
    as (Hin & _ & _); [reflexivity|].
  split; [reflexivity|]. split; [exact Hin|reflexivity].
Defined.

(** ** The cache: sweeps, boundaries, footprint *)

Section CacheMore.
Import Engine.
Variable generateCacheKey : string → string.

Local Abbreviation cache_lookup := (cache_lookup generateCacheKey).
Local Abbreviation getVideoMetadata := (getVideoMetadata generateCacheKey).
Local Abbreviation downloadVideo := (downloadVideo generateCacheKey).

Lemma cleanCache_lookup_none (s : Z) (e : Engine) (k : string) :
  cache e !! k = None → cache (cleanCache s e) !! k = None.
Proof.
  intros Hk. unfold Engine.cleanCache. cbn [cache set_cache].
  apply map_lookup_filter_None. by left.
Qed.

Lemma sweep_keeps_lookups (e : Engine) (s now : Z) (u : string) :
  s <= now →
  cache_lookup (cleanCache s e) now u = cache_lookup e now u.
Proof.
  intros Hmono. unfold Engine.cache_lookup.
  change (options (cleanCache s e)) with (options e).
  destruct (cacheResults (options e)); [|done].
  destruct (cache e !! generateCacheKey u) as [entry|] eqn:Hk.
  - rewrite (cleanCache_lookup s e _ entry Hk).
    destruct (decide _) as [Hold|Hyoung]; [|done].
    by destruct (Z.ltb_spec (now - timestamp entry) (maxCacheAge (options e))); [lia|].
  - by rewrite (cleanCache_lookup_none s e _ Hk).
Qed.

(** X7: A sweep never changes what a later resolution does: run at or before
    the time of the lookup, [cleanCache] leaves the value returned, the
    adapters called and the statistics of [getVideoMetadata] as they
    would have been without it. *)
Theorem sweep_is_transparent (w : World) (u : string) (e : Engine) (s : Z) :
  s <= now_lookup w →
  cache_lookup (cleanCache s e) (now_lookup w) u = cache_lookup e (now_lookup w) u ∧
  (getVideoMetadata w u (cleanCache s e)).2 = (getVideoMetadata w u e).2 ∧
  (getVideoMetadata w u (cleanCache s e)).1.2 = (getVideoMetadata w u e).1.2 ∧
  stats (getVideoMetadata w u (cleanCache s e)).1.1 =
    stats (getVideoMetadata w u e).1.1.
Proof.
  intros Hmono. pose proof (sweep_keeps_lookups e s (now_lookup w) u Hmono) as Hl.
  split; [done|]. unfold Engine.getVideoMetadata. rewrite Hl.
  change (stats (cleanCache s e)) with (stats e).
  change (options (cleanCache s e)) with (options e).
  destruct (cache_lookup e (now_lookup w) u); [repeat split; reflexivity|].
  destruct (fanout _ _ _) as [f results].
  destruct (successful results) as [|c l]; [repeat split; reflexivity|].
  destruct (Arbiter.selectBestQuality _ _) as [exn|best]; [repeat split; reflexivity|].
  unfold cache_store. cbn [options set_stats Engine.cleanCache set_cache].
  destruct (cacheResults (options e)); repeat split; reflexivity.
Qed.

(** X8: The life of a cache entry, by its age at time [now]: younger than
    [maxCacheAge] it is served and survives a sweep; exactly
    [maxCacheAge] old it is no longer served but a sweep still keeps it;
    older, it is not served and a sweep removes it. *)
Theorem cache_entry_lifecycle (e : Engine) (now : Z) (u : string) (entry : CacheEntry) :
  cacheResults (options e) = true →
  cache e !! generateCacheKey u = Some entry →
  let age := now - timestamp entry in
  (age < maxCacheAge (options e) →
   cache_lookup e now u = Some (data entry) ∧
   cache (cleanCache now e) !! generateCacheKey u = Some entry) ∧
  (age = maxCacheAge (options e) →
   cache_lookup e now u = None ∧
   cache (cleanCache now e) !! generateCacheKey u = Some entry) ∧
  (maxCacheAge (options e) < age →
   cache_lookup e now u = None ∧
   cache (cleanCache now e) !! generateCacheKey u = None).
Proof.
  intros Hon Hk age.
  rewrite (cache_lookup_entry generateCacheKey e now u entry Hon Hk).
  rewrite (cleanCache_lookup now e _ entry Hk). fold age.
  destruct (Z.ltb_spec age (maxCacheAge (options e)));
    destruct (decide (age > maxCacheAge (options e)));
    repeat split; intros; (done || lia).
Qed.

(** X9: A later sweep subsumes an earlier one; in particular sweeping twice
    at the same time is sweeping once. *)
Theorem later_sweep_subsumes (e : Engine) (s1 s2 : Z) :
  s1 <= s2 →
  cleanCache s2 (cleanCache s1 e) = cleanCache s2 e.
Proof.
  intros Hle. unfold Engine.cleanCache, set_cache. cbn [options cache stats].
  f_equal. rewrite map_filter_filter. apply map_filter_ext.
  intros k entry _. cbn. split; [by intros [? _]|]. intros H. split; [done|lia].
Qed.

Lemma downloadVideo_cache (w : DownloadWorld) (u : string) (e : Engine) :
  cache (downloadVideo w u e).1.1 =
    cache (getVideoMetadata (resolution w) u (set_stats e (bump_total (stats e)))).1.1 ∧
  options (downloadVideo w u e).1.1 =
    options (getVideoMetadata (resolution w) u (set_stats e (bump_total (stats e)))).1.1.
Proof.
  unfold Engine.downloadVideo.
  destruct (getVideoMetadata _ _ _) as [[e1 called] [exn|metadata]]; cbn [fst snd].
  - unfold fail_download. by destruct (on_error _ _ _).
  - destruct (truthy _).
    + destruct (on_success _ _ _); [|done].
      unfold fail_download. by destruct (on_error _ _ _).
    + unfold fail_download. by destruct (on_error _ _ _).
Qed.

Lemma getVideoMetadata_footprint (w : World) (u : string) (e : Engine) :
  options (getVideoMetadata w u e).1.1 = options e ∧
  (cache (getVideoMetadata w u e).1.1 = cache e ∨
   ∃ d,
     (getVideoMetadata w u e).2 = inr d ∧
     cacheResults (options e) = true ∧
     cache_lookup e (now_lookup w) u = None ∧
     cache (getVideoMetadata w u e).1.1 =
       <[generateCacheKey u := mkCacheEntry (now_store w) d]> (cache e)).
Proof.
  unfold Engine.getVideoMetadata.
  destruct (cache_lookup e (now_lookup w) u) eqn:Hl; [by split; [|left]|].
  destruct (fanout _ _ _) as [f results].
  destruct (successful results) as [|c l]; [by split; [|left]|].
  destruct (Arbiter.selectBestQuality _ _) as [exn|best]; [by split; [|left]|].
  unfold cache_store. cbn [options set_stats fst snd].
  destruct (cacheResults (options e)) eqn:Hon; [|by split; [|left]].
  split; [done|]. right. by exists best.
Qed.

(** The fan-out reads and writes [apiUsage] alone: on statistics that
    differ elsewhere it settles the same way. *)
Lemma fanout_ignores_counters (methods : list string) (answers : string → Outcome) :
  ∀ f g,
    apiUsage (fan_stats f) = apiUsage (fan_stats g) →
    fan_errors f = fan_errors g → fan_called f = fan_called g →
    (fanout methods answers f).2 = (fanout methods answers g).2 ∧
    apiUsage (fan_stats (fanout methods answers f).1) =
      apiUsage (fan_stats (fanout methods answers g).1) ∧
    fan_errors (fanout methods answers f).1 = fan_errors (fanout methods answers g).1 ∧
    fan_called (fanout methods answers f).1 = fan_called (fanout methods answers g).1.
Proof.
  induction methods as [|name rest IH]; intros f g Hu He Hc; [done|].
  cbn [fanout].
  assert (Hunit : (run_unit name (answers name) f).2 = (run_unit name (answers name) g).2 ∧
            apiUsage (fan_stats (run_unit name (answers name) f).1) =
              apiUsage (fan_stats (run_unit name (answers name) g).1) ∧
            fan_errors (run_unit name (answers name) f).1 =
              fan_errors (run_unit name (answers name) g).1 ∧
            fan_called (run_unit name (answers name) f).1 =
              fan_called (run_unit name (answers name) g).1).
  { unfold run_unit. rewrite <- Hu.
    destruct (apiUsage (fan_stats f)) as [usage|] eqn:Huf;
      [|cbn [fst snd]; repeat split; congruence].
    destruct (usage !! name); [|cbn [fst snd]; repeat split; congruence].
    destruct (answers name); cbn; rewrite He, Hc; repeat split; reflexivity. }
  destruct (run_unit name (answers name) f) as [f1 r1].
  destruct (run_unit name (answers name) g) as [g1 r2].
  cbn [fst snd] in Hunit. destruct Hunit as (-> & Hu1 & He1 & Hc1).
  specialize (IH f1 g1 Hu1 He1 Hc1).
  destruct (fanout rest answers f1) as [f2 rs1].
  destruct (fanout rest answers g1) as [g2 rs2].
  cbn [fst snd] in *. destruct IH as (-> & ? & ? & ?). done.
Qed.

(** So a resolution returns the same value, calls the same adapters and
    leaves the same cache whatever the top-level counters are. *)
Lemma resolution_ignores_counters (w : World) (u : string) (e : Engine) (s : Stats) :
  apiUsage s = apiUsage (stats e) →
  (getVideoMetadata w u (set_stats e s)).2 = (getVideoMetadata w u e).2 ∧
  (getVideoMetadata w u (set_stats e s)).1.2 = (getVideoMetadata w u e).1.2 ∧
  cache (getVideoMetadata w u (set_stats e s)).1.1 = cache (getVideoMetadata w u e).1.1.
Proof.
  intros Hu. unfold Engine.getVideoMetadata. rewrite cache_lookup_set_stats.
  destruct (cache_lookup e (now_lookup w) u); [repeat split; reflexivity|].
  cbn [stats set_stats options].
  destruct (fanout_ignores_counters apiMethods (answers w)
              (mkFanout s [] []) (mkFanout (stats e) [] []) Hu eq_refl eq_refl)
    as (Hr & _ & He & Hc).
  destruct (fanout apiMethods (answers w) (mkFanout s [] [])) as [f rs1].
  destruct (fanout apiMethods (answers w) (mkFanout (stats e) [] [])) as [g rs2].
  cbn [fst snd] in *. subst rs2. rewrite He, Hc.
  destruct (successful rs1) as [|c l]; [repeat split; reflexivity|].
  destruct (Arbiter.selectBestQuality _ _) as [exn|best]; [repeat split; reflexivity|].
  unfold cache_store. cbn [options set_stats].
  destruct (cacheResults (options e)); repeat split; reflexivity.
Qed.

Lemma cache_footprint
    (w : DownloadWorld) (u : string) (e : Engine) :
  let resolved := getVideoMetadata (resolution w) u e in
  let downloaded := downloadVideo w u e in
  options resolved.1.1 = options e ∧
  options downloaded.1.1 = options e ∧
  (cache resolved.1.1 = cache e ∨
   ∃ d,
     resolved.2 = inr d ∧
     cacheResults (options e) = true ∧
     cache_lookup e (now_lookup (resolution w)) u = None ∧
     cache resolved.1.1 =
       <[generateCacheKey u := mkCacheEntry (now_store (resolution w)) d]> (cache e)) ∧
  cache downloaded.1.1 = cache resolved.1.1 ∧
  (∀ k, k ≠ generateCacheKey u →
        cache resolved.1.1 !! k = cache e !! k ∧
        cache downloaded.1.1 !! k = cache e !! k).
Proof.
  cbv zeta.
  destruct (getVideoMetadata_footprint (resolution w) u e) as [Ho Hc].
  destruct (downloadVideo_cache w u e) as [Hdc Hdo].
  destruct (getVideoMetadata_footprint (resolution w) u
              (set_stats e (bump_total (stats e)))) as [Ho' _].
  destruct (resolution_ignores_counters (resolution w) u e (bump_total (stats e)) eq_refl)
    as (_ & _ & Hsame).
  assert (cache (downloadVideo w u e).1.1 =
          cache (getVideoMetadata (resolution w) u e).1.1) as Hd
    by (by rewrite Hdc, Hsame).
  split; [done|]. split; [by rewrite Hdo, Ho'|].
  split; [done|]. split; [done|].
  intros k Hk. rewrite Hd.
  assert (cache (getVideoMetadata (resolution w) u e).1.1 !! k = cache e !! k) as ->;
    [|done].
  destruct Hc as [->|(d & _ & _ & _ & ->)]; [done|].
  by rewrite lookup_insert_ne.
Qed.


End CacheMore.

Lemma sweep_is_transparent_witness :
  Engine.cache_lookup Scenario.key
    (Engine.cleanCache 3600000 Scenario.after_first_resolution)
    (now_lookup Scenario.late_resolution) Scenario.reference =
    Some Scenario.answer.
Proof.
  rewrite (proj1 (sweep_is_transparent Scenario.key Scenario.late_resolution
                    Scenario.reference Scenario.after_first_resolution 3600000
                    ltac:(vm_compute; discriminate))).
  vm_compute. reflexivity.
Defined.

(** The entry stored at time 150 is, at time 3600150, exactly one hour
    old. *)
Lemma cache_entry_lifecycle_witness :
  Engine.cache_lookup Scenario.key Scenario.after_first_resolution
    3600150 Scenario.reference = None ∧
  cache (Engine.cleanCache 3600150 Scenario.after_first_resolution)
    !! Scenario.key Scenario.reference =
    Some (mkCacheEntry 150 Scenario.answer).
Proof.
  refine (proj1 (proj2
    (cache_entry_lifecycle Scenario.key Scenario.after_first_resolution 3600150
       Scenario.reference (mkCacheEntry 150 Scenario.answer) _ _)) _).
  - reflexivity.
  - vm_compute. reflexivity.
  - reflexivity.
Defined.

Lemma later_sweep_subsumes_witness :
  Engine.cleanCache 3600151 (Engine.cleanCache 200 Scenario.after_first_resolution) =
    Engine.cleanCache 3600151 Scenario.after_first_resolution.
Proof.
  apply later_sweep_subsumes. vm_compute. discriminate.
Defined.


(** ** A winner without a usable [videoUrl] *)

Section UnusableWinner.
Import Engine.
Variable generateCacheKey : string → string.

Local Abbreviation cache_lookup := (cache_lookup generateCacheKey).
Local Abbreviation getVideoMetadata := (getVideoMetadata generateCacheKey).
Local Abbreviation downloadVideo := (downloadVideo generateCacheKey).

Lemma fanout_keeps_counters (methods : list string) (answers : string → Outcome) :
  ∀ f, ∃ usage',
    fan_stats (fanout methods answers f).1 = fan_stats f ∨
    fan_stats (fanout methods answers f).1 = set_usage (fan_stats f) usage'.
Proof.
  induction methods as [|name rest IH]; intros f; [exists ∅; by left|].
  cbn [fanout].
  assert (Hunit : fan_stats (run_unit name (answers name) f).1 = fan_stats f ∨
                  ∃ usage1, fan_stats (run_unit name (answers name) f).1 =
                            set_usage (fan_stats f) usage1).
  { unfold run_unit. destruct (apiUsage (fan_stats f)) as [usage|]; [|by left].
    destruct (usage !! name); [|by left].
    destruct (answers name); right; by eexists. }
  destruct (run_unit name (answers name) f) as [f1 r]. cbn [fst] in Hunit.
  destruct (IH f1) as (usage' & Hrest).
  destruct (fanout rest answers f1) as [f2 rs]. cbn [fst] in *.
  destruct Hunit as [Hu|(usage1 & Hu1)].
  - rewrite Hu in Hrest. by exists usage'.
  - rewrite Hu1 in Hrest. destruct Hrest as [->| ->].
    + exists usage1. by right.
    + exists usage'. by right.
Qed.

Lemma fail_download_with_log (now : Z) (u : string) (exn : Exn) (e : Engine)
    (log : list ErrorEntry) :
  errors (stats e) = Some log →
  fail_download now u exn e =
    (set_stats e
       (set_errors (bump_failed (stats e))
          (log ++ [mkErrorEntry now None (Some u)])),
     exn).
Proof.
  intros Hlog. unfold fail_download, on_error. cbn [errors bump_failed ev_message ev_url].
  by rewrite Hlog.
Qed.

(** A resolution changes the registry and the cache-save counter only. *)
Lemma getVideoMetadata_keeps_counters (w : World) (u : string) (e : Engine) :
  let s' := stats (getVideoMetadata w u e).1.1 in
  totalDownloads s' = totalDownloads (stats e) ∧
  successfulDownloads s' = successfulDownloads (stats e) ∧
  failedDownloads s' = failedDownloads (stats e) ∧
  averageSpeed s' = averageSpeed (stats e) ∧
  totalSize s' = totalSize (stats e) ∧
  errors s' = errors (stats e) ∧
  startTime s' = startTime (stats e).
Proof.
  cbv zeta. unfold Engine.getVideoMetadata.
  destruct (cache_lookup e (now_lookup w) u); [by repeat split|].
  destruct (fanout_keeps_counters apiMethods (answers w) (mkFanout (stats e) [] []))
    as (usage' & Hst).
  destruct (fanout _ _ _) as [f results]. cbn [fst fan_stats] in Hst.
  assert (Hs : stats (set_stats e (fan_stats f)) = stats e ∨
               stats (set_stats e (fan_stats f)) = set_usage (stats e) usage')
    by (destruct Hst as [->| ->]; [by left|by right]).
  assert (Hstore : ∀ now best,
            stats (cache_store generateCacheKey (set_stats e (fan_stats f)) now u best) =
            stats (set_stats e (fan_stats f))).
  { intros. unfold cache_store. by destruct (cacheResults _). }
  destruct (successful results) as [|c l]; cbn [fst snd];
    [destruct Hs as [->| ->]; by repeat split|].
  destruct (Arbiter.selectBestQuality _ _) as [exn|best]; cbn [fst snd];
    rewrite ?Hstore; destruct Hs as [->| ->]; by repeat split.
Qed.

(** What [getVideoMetadata] throws is never the error of the [videoUrl]
    check of [downloadVideo]. *)
Lemma resolution_error_shape (w : World) (u : string) (e e1 : Engine)
    (called : list string) (exn : Exn) :
  getVideoMetadata w u e = (e1, called, inl exn) →
  exn ≠ JsError "Could not get video URL".
Proof.
  unfold Engine.getVideoMetadata.
  destruct (cache_lookup e (now_lookup w) u); [done|].
  destruct (fanout _ _ _) as [f results].
  destruct (successful results) as [|c l].
  - by intros [= _ _ <-] [= ?].
  - unfold Arbiter.selectBestQuality.
    destruct (Arbiter.sort (c :: l)) as [|top rest] eqn:Hs.
    + by intros [= _ _ <-].
    + destruct (negb _); [destruct (List.find _ _)|]; done.
Qed.

Lemma cache_lookup_Some_inv (e : Engine) (now : Z) (u : string) (d : Candidate) :
  cache_lookup e now u = Some d →
  ∃ entry,
    cache e !! generateCacheKey u = Some entry ∧ data entry = d ∧
    cacheResults (options e) = true.
Proof.
  unfold Engine.cache_lookup. destruct (cacheResults (options e)); [|done].
  destruct (cache e !! generateCacheKey u) as [entry|]; [|done].
  destruct (_ <? _); [|done]. intros [= <-]. by exists entry.
Qed.

(** X11: [getVideoMetadata] stores its winner before [downloadVideo] looks at
    the winner's [videoUrl].  So once a download has failed with 'Could
    not get video URL', the unusable result sits in the cache: every
    further download of the reference fails in the same way, without a
    single adapter being called, for as long as the entry is fresh. *)
Theorem unusable_winner_is_served_again
    (w1 : DownloadWorld) (u : string) (e e1 : Engine)
    (called : list string) (log : list ErrorEntry) :
  cacheResults (options e) = true →
  errors (stats e) = Some log →
  downloadVideo w1 u e = (e1, called, inl (JsError "Could not get video URL")) →
  ∃ entry,
    cache e1 !! generateCacheKey u = Some entry ∧
    truthy (videoUrl (data entry)) = false ∧
    ∀ w2 : DownloadWorld,
      now_lookup (resolution w2) - timestamp entry < maxCacheAge (options e) →
      ∃ e2, downloadVideo w2 u e1 = (e2, [], inl (JsError "Could not get video URL")).
Proof.
  intros Hon Hlog Hrun. unfold Engine.downloadVideo in Hrun.
  set (e0 := set_stats e (bump_total (stats e))) in *.
  pose proof (getVideoMetadata_keeps_counters (resolution w1) u e0) as Hkeep.
  pose proof (getVideoMetadata_footprint generateCacheKey (resolution w1) u e0) as [Hopt Hfoot].
  destruct (getVideoMetadata (resolution w1) u e0) as [[em calledm] [exn|d]] eqn:Hres;
    cbn [fst snd] in *.
  { destruct Hkeep as (_ & _ & _ & _ & _ & Herr & _).
    rewrite (fail_download_with_log _ _ _ _ log) in Hrun by (rewrite Herr; exact Hlog).
    injection Hrun as _ _ ->. by apply resolution_error_shape in Hres. }
  destruct Hkeep as (_ & _ & _ & _ & _ & Herr & _).
  assert (Hlogm : errors (stats em) = Some log) by (rewrite Herr; exact Hlog).
  destruct (truthy (videoUrl d)) eqn:Hurl.
  { destruct (on_success _ _ _) as [exn|s3] eqn:Hs; [|done].
    rewrite (fail_download_with_log _ _ _ _ log) in Hrun by exact Hlogm.
    injection Hrun as _ _ ->. unfold on_success in Hs.
    destruct (apiUsage _); [destruct (_ !! _)|]; done. }
  rewrite (fail_download_with_log _ _ _ _ log) in Hrun by exact Hlogm.
  injection Hrun as <- <-.
  assert (Hentry : ∃ entry, cache em !! generateCacheKey u = Some entry ∧ data entry = d).
  { clear Hfoot.
    destruct (cache_lookup e0 (now_lookup (resolution w1)) u) as [c|] eqn:Hl.
    - rewrite (getVideoMetadata_hit generateCacheKey _ u e0 c Hl) in Hres.
      injection Hres as <- _ <-.
      destruct (cache_lookup_Some_inv e0 _ u c Hl) as (entry & Hk & Hd & _).
      by exists entry.
    - unfold Engine.getVideoMetadata in Hres. rewrite Hl in Hres.
      destruct (fanout _ _ _) as [f results].
      destruct (successful results) as [|c l]; [done|].
      destruct (Arbiter.selectBestQuality _ _) as [exn|best]; [done|].
      injection Hres as <- _ <-.
      unfold cache_store. cbn [options set_stats e0]. rewrite Hon.
      cbn [cache set_cache]. eexists. by rewrite lookup_insert_eq. }
  destruct Hentry as (entry & Hk & Hd). exists entry.
  split; [done|]. split; [by rewrite Hd|].
  intros w2 Hfresh. unfold Engine.downloadVideo.
  rewrite (getVideoMetadata_hit generateCacheKey (resolution w2) u _ d).
  - rewrite Hurl.
    erewrite fail_download_with_log by reflexivity. by eexists.
  - rewrite cache_lookup_set_stats.
    rewrite (cache_lookup_entry generateCacheKey _ _ u entry); cbn [options cache set_stats].
    + rewrite Hopt. cbn [options e0 set_stats]. rewrite Hd.
      by destruct (Z.ltb_spec (now_lookup (resolution w2) - timestamp entry)
                     (maxCacheAge (options e))); [|lia].
    + by rewrite Hopt.
    + done.
Qed.

End UnusableWinner.

Lemma unusable_winner_is_served_again_witness :
  (Engine.downloadVideo Scenario.key Unusable.second_try Scenario.reference
     Unusable.after_first_try).1.2 = [] ∧
  (Engine.downloadVideo Scenario.key Unusable.second_try Scenario.reference
     Unusable.after_first_try).2 = inl (JsError "Could not get video URL").
Proof.
  destruct (unusable_winner_is_served_again Scenario.key Unusable.first_try
              Scenario.reference Scenario.fresh Unusable.after_first_try
              ["snaptik"; "tikwm"; "tikdown"; "savett"; "ssstik"; "dlpanda"] [])
    as (entry & Hk & _ & Hagain).
  - reflexivity.
  - reflexivity.
  - vm_compute. reflexivity.
  - assert (entry = mkCacheEntry 60 Unusable.answer) as ->.
    { vm_compute in Hk. by injection Hk as <-. }
    destruct (Hagain Unusable.second_try) as (e2 & ->); [vm_compute; reflexivity|].
    split; reflexivity.
Defined.

(** ** What every run without [resetStats] keeps *)

Section RunFacts.
Import Engine.
Variable generateCacheKey : string → string.

Local Abbreviation cache_lookup := (cache_lookup generateCacheKey).
Local Abbreviation getVideoMetadata := (getVideoMetadata generateCacheKey).
Local Abbreviation downloadVideo := (downloadVideo generateCacheKey).
Local Abbreviation run := (run generateCacheKey).

Lemma getVideoMetadata_registry (w : World) (u : string) (e : Engine)
    (usage : gmap string ApiStat) :
  apiUsage (stats e) = Some usage →
  ∃ usage1,
    apiUsage (stats (getVideoMetadata w u e).1.1) = Some usage1 ∧
    dom usage1 = dom usage.
Proof.
  intros Hu. destruct (cache_lookup e (now_lookup w) u) as [d|] eqn:Hl.
  - rewrite (getVideoMetadata_hit generateCacheKey w u e d Hl). by exists usage.
  - destruct (getVideoMetadata_miss generateCacheKey w u e usage Hl Hu)
      as (usage1 & found & r & -> & Hdom & _).
    by exists usage1.
Qed.

Lemma initial_well_shaped (start : Z) : well_shaped start (initial_stats start).
Proof.
  exists initial_usage, []. cbn. repeat split; (done || constructor || lia).
Qed.

Lemma resolve_keeps_shape (start : Z) (w : World) (u : string) (e : Engine) :
  well_shaped start (stats e) →
  well_shaped start (stats (getVideoMetadata w u e).1.1).
Proof.
  intros (usage & log & Hu & Hdom & Hlog & Hlen & Hall & Hsize & Hstart & Hsum & Hs & Hf).
  destruct (getVideoMetadata_registry w u e usage Hu) as (usage1 & Hu1 & Hdom1).
  destruct (getVideoMetadata_keeps_counters generateCacheKey w u e)
    as (Ht & Hsu & Hfa & _ & Hsz & Her & Hst).
  exists usage1, log. rewrite Ht, Hsu, Hfa, Hsz, Her, Hst.
  repeat split; (done || congruence).
Qed.

Lemma download_keeps_shape (start : Z) (w : DownloadWorld) (u : string) (e : Engine) :
  well_shaped start (stats e) →
  well_shaped start (stats (downloadVideo w u e).1.1).
Proof.
  intros (usage & log & Hu & Hdom & Hlog & Hlen & Hall & Hsize & Hstart & Hsum & Hs & Hf).
  unfold Engine.downloadVideo.
  set (e0 := set_stats e (bump_total (stats e))).
  destruct (getVideoMetadata_registry (resolution w) u e0 usage Hu)
    as (usage1 & Hu1 & Hdom1).
  destruct (getVideoMetadata_keeps_counters generateCacheKey (resolution w) u e0)
    as (Ht & Hsu & Hfa & _ & Hsz & Her & Hst).
  cbn [stats set_stats bump_total totalDownloads successfulDownloads failedDownloads
       totalSize errors startTime e0] in Ht, Hsu, Hfa, Hsz, Her, Hst.
  destruct (getVideoMetadata (resolution w) u e0) as [[em called] res].
  cbn [fst snd] in *.
  assert (Hfails : ∀ exn,
            well_shaped start
              (stats (let '(e2, thrown) := fail_download (now_error w) u exn em in
                      (e2, called, inl thrown : Result SuccessInfo)).1.1)).
  { intros exn. rewrite (fail_download_with_log _ _ _ _ log) by congruence.
    cbn [fst stats set_stats].
    exists usage1, (log ++ [mkErrorEntry (now_error w) None (Some u)])%list.
    cbn [apiUsage errors set_errors bump_failed totalDownloads successfulDownloads
         failedDownloads totalSize startTime].
    rewrite length_app, Nat2Z.inj_add. cbn [length].
    repeat split; try (done || congruence || lia).
    apply Forall_app. split; [done|]. repeat constructor. by eexists. }
  destruct res as [exn|metadata]; [apply Hfails|].
  destruct (truthy (videoUrl metadata)); [|apply Hfails].
  unfold on_success. cbn [apiUsage record_download]. rewrite Hu1.
  destruct (usage1 !! info_source (info_of metadata)) as [entry|] eqn:He;
    cbn [fst stats set_stats].
  - exists (<[info_source (info_of metadata) :=
               record_success (now_end w - now_start w) entry]> usage1), log.
    cbn [apiUsage errors set_usage record_download totalDownloads successfulDownloads
         failedDownloads totalSize startTime].
    repeat split; try (done || congruence || lia).
    rewrite dom_insert_L, <- Hdom, <- Hdom1.
    apply subseteq_union_1_L, singleton_subseteq_l. by apply elem_of_dom_2 in He.
  - exists usage1, log.
    cbn [apiUsage errors record_download totalDownloads successfulDownloads
         failedDownloads totalSize startTime].
    repeat split; try (done || congruence || lia).
Qed.

Lemma reset_free_cons (op : Op) (ops : list Op) :
  reset_free (op :: ops) ↔ is_reset op = false ∧ reset_free ops.
Proof.
  unfold reset_free. cbn [forallb]. rewrite andb_true_iff, negb_true_iff. done.
Qed.

Lemma run_keeps_shape (start : Z) (ops : list Op) :
  reset_free ops →
  ∀ e, well_shaped start (stats e) → well_shaped start (stats (run ops e)).
Proof.
  induction ops as [|op ops IH]; intros Hfree e Hshape; [done|].
  apply reset_free_cons in Hfree as [Hop Hfree].
  change (well_shaped start (stats (run ops (apply_op generateCacheKey e op)))).
  apply (IH Hfree).
  destruct op as [w u|w u|now|]; cbn [apply_op]; [| | |done].
  - by apply download_keeps_shape.
  - by apply resolve_keeps_shape.
  - done.
Qed.

Lemma run_options (ops : list Op) :
  ∀ e, options (run ops e) = options e.
Proof.
  induction ops as [|op ops IH]; intros e; [done|].
  change (options (run ops (apply_op generateCacheKey e op)) = options e).
  rewrite IH.
  destruct op as [w u|w u|now|]; cbn [apply_op]; [| |done|done].
  - destruct (cache_footprint generateCacheKey w u e) as (_ & H & _).
    exact H.
  - apply (getVideoMetadata_footprint generateCacheKey w u e).
Qed.

End RunFacts.

Lemma ratio_bounds (S T : Z) :
  0 <= S <= T → 0 < T →
  (0 <= (inject_Z S / inject_Z T) * inject_Z 100 <= 100)%Q.
Proof.
  intros [H0 H1] HT.
  assert (0 < inject_Z T)%Q as HTq by (unfold Qlt; simpl; lia).
  assert (0 <= inject_Z S / inject_Z T)%Q as Hlo.
  { apply Qle_shift_div_l; [exact HTq|]. rewrite Qmult_0_l. unfold Qle; simpl; lia. }
  assert (inject_Z S / inject_Z T <= 1)%Q as Hhi.
  { apply Qle_shift_div_r; [exact HTq|]. rewrite Qmult_1_l. unfold Qle; simpl; lia. }
  split.
  - apply Qmult_le_0_compat; [exact Hlo|]. discriminate.
  - apply (Qle_trans _ (1 * inject_Z 100)); [|discriminate].
    apply Qmult_le_compat_r; [exact Hhi|]. discriminate.
Qed.

Lemma last_five_suffix (log : list ErrorEntry) :
  length (Engine.last_five log) = Nat.min 5 (length log) ∧
  ∃ older, log = (older ++ Engine.last_five log)%list.
Proof.
  unfold Engine.last_five. split.
  - rewrite length_drop. lia.
  - exists (take (length log - 5) log). by rewrite take_drop.
Qed.

Section RunClaims.
Import Engine.
Variable generateCacheKey : string → string.

Local Abbreviation cache_lookup := (cache_lookup generateCacheKey).
Local Abbreviation getVideoMetadata := (getVideoMetadata generateCacheKey).
Local Abbreviation downloadVideo := (downloadVideo generateCacheKey).
Local Abbreviation run := (run generateCacheKey).


(** X13: Over such a sequence [getDetailedStats] never throws: it reports the
    last [min 5 n] of the [n] logged errors, a total size of '0 Bytes'
    (nothing ever adds to [totalSize]) and the time since construction;
    once a download has been made, the success rate of [getStats] and of
    [getDetailedStats] is a number between 0 and 100. *)
Theorem reset_free_snapshot (o : UserOptions) (start now : Z) (ops : list Op) :
  reset_free ops →
  let s := stats (run ops (constructor o start)) in
  ∃ d log,
    errors s = Some log ∧
    getDetailedStats now s = inr d ∧
    length (lastErrors d) = Nat.min 5 (length log) ∧
    (∃ older, log = (older ++ lastErrors d)%list) ∧
    totalSizeFormatted d = ZeroBytes ∧
    (∃ q, uptime d = JsNum.Fin q ∧ (q == inject_Z (now - start))%Q) ∧
    (0 < totalDownloads s →
     ∃ q, successRate (getStats s) = JsNum.Fin q ∧
          detailed_successRate d = JsNum.Fin q ∧ (0 <= q <= 100)%Q).
Proof.
  intros Hfree s.
  destruct (run_keeps_shape generateCacheKey start ops Hfree (constructor o start)
              (initial_well_shaped start))
    as (usage & log & _ & _ & Hlog & Hlen & Hall & Hsize & Hstart & Hsum & Hs & Hf).
  fold s in Hlog, Hlen, Hsize, Hstart, Hsum, Hs, Hf.
  unfold getDetailedStats. rewrite Hlog, Hsize, Hstart.
  eexists _, log. split; [done|]. split; [done|].
  cbn [lastErrors totalSizeFormatted uptime detailed_successRate formatBytes].
  destruct (last_five_suffix log) as [Hlast Holder].
  split; [done|]. split; [done|]. split; [done|]. split.
  - eexists. split; [done|]. unfold Qeq. simpl. lia.
  - intros Htotal. unfold getStats. cbn [successRate].
    unfold percentage, JsNum.div, JsNum.mul, JsNum.of_Z, JsNum.is_zero.
    cbn [inject_Z Qnum].
    destruct (Z.eqb_spec (totalDownloads s) 0) as [H0|_]; [lia|].
    eexists. split; [done|]. split; [done|].
    apply ratio_bounds; lia.
Qed.



(** X15: An engine built with [cacheResults: false] never holds a cache
    entry, whatever is done with it, [resetStats] included; and no
    operation ever changes the options the constructor fixed. *)
Theorem cache_off_stays_empty (o : UserOptions) (start : Z) (ops : list Op) :
  options (run ops (constructor o start)) = make_options o ∧
  (user_cacheResults o = Some false →
   cache (run ops (constructor o start)) = ∅).
Proof.
  split; [apply run_options|]. intros Hoff.
  assert (Hgen : ∀ e, cacheResults (options e) = false → cache e = ∅ →
            cache (run ops e) = ∅).
  { induction ops as [|op ops IH]; intros e He Hc; [done|].
    change (cache (run ops (apply_op generateCacheKey e op)) = ∅).
    apply IH.
    - destruct op as [w u|w u|now|]; cbn [apply_op]; [| |done|done].
      + destruct (cache_footprint generateCacheKey w u e)
          as (_ & -> & _). exact He.
      + destruct (getVideoMetadata_footprint generateCacheKey w u e) as [-> _]. exact He.
    - destruct op as [w u|w u|now|]; cbn [apply_op].
      + destruct (cache_footprint generateCacheKey w u e)
          as (_ & _ & Hfoot & -> & _).
        destruct Hfoot as [->|(d & _ & Hon & _)]; [done|congruence].
      + destruct (getVideoMetadata_footprint generateCacheKey w u e) as [_ Hfoot].
        destruct Hfoot as [->|(d & _ & Hon & _)]; [done|congruence].
      + unfold cleanCache. cbn [cache set_cache]. rewrite Hc. apply map_filter_empty.
      + done. }
  apply Hgen; [|done]. cbn. by rewrite Hoff.
Qed.

End RunClaims.


Lemma reset_free_snapshot_witness :
  ∃ d,
    Engine.getDetailedStats 5000 (stats Session.final) = inr d ∧
    length (lastErrors d) = 1%nat ∧
    totalSizeFormatted d = ZeroBytes.
Proof.
  destruct (reset_free_snapshot Scenario.key default_user_options 0 5000 Session.ops eq_refl)
    as (d & log & Hlog & Hd & Hlen & _ & Hsize & _).
  exists d. split; [exact Hd|]. split; [|exact Hsize].
  rewrite Hlen. vm_compute in Hlog. by injection Hlog as <-.
Defined.


Lemma cache_off_stays_empty_witness :
  cache (run Scenario.key Session.ops (Engine.constructor Session.uncached 0)) = ∅.
Proof.
  apply (proj2 (cache_off_stays_empty Scenario.key Session.uncached 0 Session.ops)).
  reflexivity.
Defined.

(** ** What the counters count *)

Section Counting.
Import Engine.
Variable generateCacheKey : string → string.

Local Abbreviation cache_lookup := (cache_lookup generateCacheKey).
Local Abbreviation getVideoMetadata := (getVideoMetadata generateCacheKey).
Local Abbreviation downloadVideo := (downloadVideo generateCacheKey).
Local Abbreviation run := (run generateCacheKey).

Lemma counted_same (n d : Z) (s s' : Stats) :
  apiUsage s' = apiUsage s → cacheSaves s' = cacheSaves s →
  totalDownloads s' = totalDownloads s →
  counted n d s → counted n d s'.
Proof.
  intros Hu Hc Ht (usage & q & hits & H1 & H2 & H3 & H4 & H5 & H6).
  exists usage, q, hits. rewrite Hu, Hc, Ht. done.
Qed.

Lemma initial_counted (start : Z) : counted 0 0 (initial_stats start).
Proof.
  exists initial_usage, (inject_Z 0), 0. cbn.
  repeat split; try (done || lia).
  intros name Hname. unfold apis in Hname.
  repeat (apply elem_of_cons in Hname as [->|Hname];
          [eexists; split; [vm_compute; reflexivity|]; vm_compute; intuition discriminate|]).
  by apply elem_of_nil in Hname.
Qed.

Lemma resolve_counts (n d : Z) (w : World) (u : string) (e : Engine) :
  counted n d (stats e) →
  counted (n + 1) d (stats (getVideoMetadata w u e).1.1).
Proof.
  intros (usage & q & hits & Hu & Hq & Hh & Hn & Hd & Hentries).
  destruct (cache_lookup e (now_lookup w) u) as [c|] eqn:Hl.
  - rewrite (getVideoMetadata_hit generateCacheKey w u e c Hl).
    cbn [fst stats set_stats].
    exists usage, (q + inject_Z 1)%Q, (hits + 1).
    cbn [apiUsage cacheSaves bump_cacheSaves totalDownloads].
    rewrite Hq. cbn [JsNum.of_field JsNum.add JsNum.of_Z].
    repeat split; try (done || lia).
    + rewrite Hh, inject_Z_plus. reflexivity.
    + intros name Hname. destruct (Hentries name Hname) as (entry & He & Hc & Hf).
      exists entry. split; [done|]. split; [|done].
      rewrite Hc. destruct (decide (name ∈ apiMethods)); lia.
  - destruct (getVideoMetadata_miss generateCacheKey w u e usage Hl Hu)
      as (usage1 & found & r & -> & Hdom & Hlookup & _).
    cbn [fst stats].
    exists usage1, q, hits. cbn [apiUsage cacheSaves set_usage totalDownloads].
    repeat split; try (done || lia).
    intros name Hname. destruct (Hentries name Hname) as (entry & He & Hc & Hf).
    rewrite Hlookup, He.
    destruct (decide (name ∈ apiMethods)); cbn [fmap option_fmap option_map].
    + eexists. split; [reflexivity|].
      rewrite settle_entry_calls, settle_entry_failures.
      unfold indicator. destruct (is_rejected (answers w name)); lia.
    + exists entry. done.
Qed.

Lemma download_counts (n d : Z) (w : DownloadWorld) (u : string) (e : Engine) :
  counted n d (stats e) →
  counted (n + 1) (d + 1) (stats (downloadVideo w u e).1.1).
Proof.
  intros Hcounted.
  unfold Engine.downloadVideo.
  set (e0 := set_stats e (bump_total (stats e))).
  assert (counted n (d + 1) (stats e0)) as H0.
  { destruct Hcounted as (usage & q & hits & Hu & Hq & Hh & Hn & Hd & Hentries).
    exists usage, q, hits. cbn. rewrite Hd. done. }
  apply (resolve_counts n (d + 1) (resolution w) u e0) in H0.
  destruct (getVideoMetadata (resolution w) u e0) as [[em called] res].
  cbn [fst snd] in *.
  assert (Hfails : ∀ exn,
            counted (n + 1) (d + 1)
              (stats (let '(e2, thrown) := fail_download (now_error w) u exn em in
                      (e2, called, inl thrown : Result SuccessInfo)).1.1)).
  { intros exn. unfold fail_download, on_error.
    cbn [errors bump_failed].
    destruct (errors (stats em)); cbn [fst stats set_stats];
      (eapply counted_same; [| | |exact H0]; reflexivity). }
  destruct res as [exn|metadata]; [apply Hfails|].
  destruct (truthy (videoUrl metadata)); [|apply Hfails].
  destruct H0 as (usage & q & hits & Hu & Hq & Hh & Hn & Hd & Hentries).
  unfold on_success. cbn [apiUsage record_download]. rewrite Hu.
  destruct (usage !! info_source (info_of metadata)) as [winner|] eqn:He;
    cbn [fst stats set_stats].
  - exists (<[info_source (info_of metadata) :=
               record_success (now_end w - now_start w) winner]> usage), q, hits.
    cbn [apiUsage cacheSaves set_usage record_download totalDownloads].
    repeat split; try (done || lia).
    intros name Hname. destruct (Hentries name Hname) as (entry & Hentry & Hc & Hf).
    destruct (decide (name = info_source (info_of metadata))) as [->|Hne].
    + rewrite lookup_insert_eq. eexists. split; [reflexivity|].
      assert (entry = winner) as <- by congruence. done.
    + rewrite lookup_insert_ne by done. by exists entry.
  - exists usage, q, hits.
    cbn [apiUsage cacheSaves record_download totalDownloads].
    repeat split; try (done || lia).
Qed.

Lemma run_counts (ops : list Op) :
  reset_free ops →
  ∀ e n d, counted n d (stats e) →
    counted (n + resolutions ops) (d + downloads ops) (stats (run ops e)).
Proof.
  induction ops as [|op ops IH]; intros Hfree e n d Hc.
  { unfold resolutions, downloads. cbn. by rewrite !Z.add_0_r. }
  apply reset_free_cons in Hfree as [Hop Hfree].
  change (counted (n + resolutions (op :: ops)) (d + downloads (op :: ops))
            (stats (run ops (apply_op generateCacheKey e op)))).
  destruct op as [w u|w u|now|]; [| | |done].
  - replace (n + resolutions (Download w u :: ops))
      with ((n + 1) + resolutions ops)
      by (unfold resolutions; cbn [List.filter is_resolution length]; lia).
    replace (d + downloads (Download w u :: ops))
      with ((d + 1) + downloads ops)
      by (unfold downloads; cbn [List.filter is_download length]; lia).
    apply (IH Hfree). by apply download_counts.
  - replace (n + resolutions (Resolve w u :: ops))
      with ((n + 1) + resolutions ops)
      by (unfold resolutions; cbn [List.filter is_resolution length]; lia).
    replace (d + downloads (Resolve w u :: ops)) with (d + downloads ops)
      by (unfold downloads; cbn [List.filter is_download length]; lia).
    apply (IH Hfree). by apply resolve_counts.
  - replace (n + resolutions (Sweep now :: ops)) with (n + resolutions ops)
      by (unfold resolutions; cbn [List.filter is_resolution length]; lia).
    replace (d + downloads (Sweep now :: ops)) with (d + downloads ops)
      by (unfold downloads; cbn [List.filter is_download length]; lia).
    by apply (IH Hfree).
Qed.




End Counting.


Section Efficiency.
Import Engine.
Variable generateCacheKey : string → string.

Local Abbreviation run := (run generateCacheKey).

Lemma downloads_only_spec (ops : list Op) :
  downloads_only ops → reset_free ops ∧ resolutions ops = downloads ops.
Proof.
  unfold downloads_only, reset_free, resolutions, downloads.
  induction ops as [|op ops IH]; [done|].
  cbn [forallb List.filter]. rewrite !andb_true_iff.
  intros [Hop Hops]. destruct (IH Hops) as [Hfree Hsame].
  destruct op; try discriminate Hop; cbn [is_reset negb is_resolution is_download length];
    (split; [done|lia]).
Qed.

(** X17: When only [downloadVideo] is called (and the timer sweeps), the
    [cacheEfficiency] that [getDetailedStats] reports after the first
    download is a finite percentage: the share of the downloads that were
    served from the cache, between 0 and 100. *)
Theorem cacheEfficiency_is_a_percentage
    (o : UserOptions) (start now : Z) (ops : list Op) :
  downloads_only ops →
  0 < downloads ops →
  let s := stats (run ops (constructor o start)) in
  ∃ d r hits,
    getDetailedStats now s = inr d ∧
    cacheEfficiency d = JsNum.Fin r ∧
    0 <= hits <= downloads ops ∧
    (r == inject_Z hits / inject_Z (downloads ops) * inject_Z 100)%Q ∧
    (0 <= r <= 100)%Q.
Proof.
  intros Honly Hsome s.
  destruct (downloads_only_spec ops Honly) as [Hfree Hsame].
  destruct (run_keeps_shape generateCacheKey start ops Hfree (constructor o start)
              (initial_well_shaped start))
    as (usage & log & _ & _ & Hlog & _).
  destruct (run_counts generateCacheKey ops Hfree (constructor o start) 0 0
              (initial_counted start))
    as (usage' & q & hits & _ & Hq & Hh & Hn & Hd & _).
  rewrite !Z.add_0_l in *. rewrite Hsame in Hn.
  fold s in Hlog, Hq, Hd.
  unfold getDetailedStats. rewrite Hlog, Hq, Hd.
  eexists _, _, hits. split; [reflexivity|].
  cbn [cacheEfficiency].
  unfold percentage, JsNum.of_field, JsNum.div, JsNum.mul, JsNum.of_Z, JsNum.is_zero.
  cbn [inject_Z Qnum].
  destruct (Z.eqb_spec (downloads ops) 0) as [H0|_]; [lia|].
  split; [reflexivity|]. split; [done|].
  assert (q / inject_Z (downloads ops) * inject_Z 100 ==
          inject_Z hits / inject_Z (downloads ops) * inject_Z 100)%Q as Heq
    by (rewrite Hh; reflexivity).
  split; [exact Heq|].
  rewrite Heq. apply ratio_bounds; lia.
Qed.

End Efficiency.

Lemma cacheEfficiency_is_a_percentage_witness :
  ∃ d,
    Engine.getDetailedStats 400 (stats Scenario.after_second_download) = inr d ∧
    cacheEfficiency d = JsNum.Fin (100 # 2).
Proof.
  destruct (cacheEfficiency_is_a_percentage Scenario.key default_user_options 0 400
              [Download Scenario.first_download Scenario.reference;
               Download Scenario.second_download Scenario.reference]
              eq_refl eq_refl)
    as (d & r & hits & Hd & Hr & _).
  exists d. split; [exact Hd|].
  vm_compute in Hd. injection Hd as <-. reflexivity.
Defined.

(** ** Which provider wins *)

Section Priority.
Import Engine.
Variable generateCacheKey : string → string.

Local Abbreviation cache_lookup := (cache_lookup generateCacheKey).
Local Abbreviation getVideoMetadata := (getVideoMetadata generateCacheKey).
Local Abbreviation run := (run generateCacheKey).

(** A miss returns what the arbiter selects among the candidates found,
    and throws when there is none. *)
Lemma getVideoMetadata_miss_result (w : World) (u : string) (e : Engine)
    (usage : gmap string ApiStat) :
  cache_lookup e (now_lookup w) u = None →
  apiUsage (stats e) = Some usage →
  let found :=
    flat_map
      (fun n => if decide (n ∈ dom usage)
                then option_list (settle_value (answers w n)) else [])
      apiMethods in
  (found = [] → ∃ message, (getVideoMetadata w u e).2 = inl (JsError message)) ∧
  (found ≠ [] →
   (getVideoMetadata w u e).2 =
     Arbiter.selectBestQuality (preferredQuality (options e)) found).
Proof.
  intros Hl Hu found. unfold Engine.getVideoMetadata. rewrite Hl.
  destruct (fanout_registry apiMethods (answers w) (mkFanout (stats e) [] []) usage Hu)
    as (f' & results & usage' & Hrun & Hst & Hd & Hc & Hs & Hent).
  rewrite Hrun. fold found in Hs. rewrite Hs.
  destruct found as [|c l] eqn:Hfound.
  - split; [|done]. intros _. by eexists.
  - split; [done|]. intros _.
    by destruct (Arbiter.selectBestQuality _ (c :: l)).
Qed.

Lemma found_among_registered (answers : string → Outcome)
    (usage : gmap string ApiStat) :
  dom usage = dom initial_usage →
  flat_map
    (fun n => if decide (n ∈ dom usage)
              then option_list (settle_value (answers n)) else [])
    apiMethods =
  flat_map (fun n => option_list (settle_value (answers n))) registered.
Proof.
  intros ->. unfold apiMethods, registered. cbn [flat_map].
  rewrite !decide_True by (apply elem_of_dom; eexists; vm_compute; reflexivity).
  rewrite decide_False; [by rewrite !app_nil_r|].
  rewrite elem_of_dom. intros [x Hx]. vm_compute in Hx. discriminate Hx.
Qed.





End Priority.


(** ** [getVideoId] *)

Section VideoIdFacts.
Import Stdlib.Strings.Ascii.
Import VideoId.

Lemma append_cons (c : Ascii.ascii) (s t : string) :
  String c s ++ t = String c (s ++ t).
Proof. reflexivity. Qed.

Lemma append_nil (t : string) : "" ++ t = t.
Proof. reflexivity. Qed.

Lemma append_assoc (s t r : string) : (s ++ t) ++ r = s ++ (t ++ r).
Proof.
  induction s as [|c s IH]; [done|]. by rewrite !append_cons, IH.
Qed.

Lemma strip_prefix_spec (p s rest : string) :
  strip_prefix p s = Some rest ↔ s = p ++ rest.
Proof.
  revert s. induction p as [|a p IH]; intros s; cbn.
  - split; [by intros [= ->]|by intros ->].
  - destruct s as [|b s]; [split; intros; discriminate|].
    destruct (Ascii.eqb_spec a b) as [->|Hne].
    + rewrite IH. split; [by intros ->|by intros [= ->]].
    + split; [discriminate|]. intros [= -> _]. done.
Qed.

Lemma take_while_spec (cls : Ascii.ascii → bool) (s : string) :
  all_of cls (take_while cls s) = true ∧
  ∃ rest, s = take_while cls s ++ rest ∧
          match rest with
          | EmptyString => True
          | String c _ => cls c = false
          end.
Proof.
  induction s as [|c s [IH1 (rest & IH2 & IH3)]]; cbn.
  - split; [done|]. by exists "".
  - destruct (cls c) eqn:Hc; cbn.
    + rewrite Hc, IH1. split; [done|]. exists rest. split; [|done].
      rewrite append_cons. by f_equal.
    + split; [done|]. exists (String c s). done.
Qed.

Lemma all_of_weaken (p q : Ascii.ascii → bool) (s : string) :
  (∀ c, p c = true → q c = true) → all_of p s = true → all_of q s = true.
Proof.
  intros Hpq. induction s as [|c s IH]; cbn; [done|].
  rewrite !andb_true_iff. intros [Hc Hs]. auto.
Qed.

Lemma digit_is_word (c : Ascii.ascii) : is_digit c = true → is_word c = true.
Proof. unfold is_word. by intros ->. Qed.

Lemma match_here_spec (lit : string) (cls : Ascii.ascii → bool) (s id : string) :
  match_here lit cls s = Some id →
  id ≠ "" ∧ all_of cls id = true ∧ ∃ post, s = lit ++ id ++ post.
Proof.
  unfold match_here.
  destruct (strip_prefix lit s) as [rest|] eqn:Hp; [|discriminate].
  apply strip_prefix_spec in Hp.
  destruct (take_while_spec cls rest) as [Hall (post & Hrest & _)].
  destruct (take_while cls rest) as [|c capture] eqn:Ht; [discriminate|].
  intros [= <-]. split; [done|]. split; [done|].
  exists post. by rewrite Hp, Hrest.
Qed.

Lemma match_after_spec (lit : string) (cls : Ascii.ascii → bool) (s id : string) :
  match_after lit cls s = Some id →
  id ≠ "" ∧ all_of cls id = true ∧ ∃ pre post, s = pre ++ lit ++ id ++ post.
Proof.
  induction s as [|c s IH]; cbn [match_after].
  - destruct (match_here lit cls "") as [capture|] eqn:Hm; [|discriminate].
    intros [= ->]. destruct (match_here_spec _ _ _ _ Hm) as (H1 & H2 & post & H3).
    split; [done|]. split; [done|]. by exists "", post.
  - destruct (match_here lit cls (String c s)) as [capture|] eqn:Hm.
    + intros [= ->]. destruct (match_here_spec _ _ _ _ Hm) as (H1 & H2 & post & H3).
      split; [done|]. split; [done|]. by exists "", post.
    + intros Hrec. destruct (IH Hrec) as (H1 & H2 & pre & post & H3).
      split; [done|]. split; [done|]. exists (String c pre), post. cbn. by rewrite H3.
Qed.

Lemma first_match_spec (url id : string) :
  first_match patterns url = Some id →
  id ≠ "" ∧ all_of is_word id = true ∧
  ∃ pre post, url = pre ++ id ++ post.
Proof.
  assert (Hgen : ∀ ps,
            Forall (fun p : string * (Ascii.ascii → bool) =>
                      ∀ c, p.2 c = true → is_word c = true) ps →
            first_match ps url = Some id →
            id ≠ "" ∧ all_of is_word id = true ∧ ∃ pre post, url = pre ++ id ++ post).
  { induction ps as [|[lit cls] ps IH]; intros Hps; cbn; [discriminate|].
    apply Forall_cons in Hps as [Hcls Hps].
    destruct (match_after lit cls url) as [capture|] eqn:Hm; [|by apply IH].
    intros [= ->]. destruct (match_after_spec _ _ _ _ Hm) as (H1 & H2 & pre & post & H3).
    split; [done|]. split; [by apply (all_of_weaken cls)|].
    exists (pre ++ lit), post. rewrite H3.
    by rewrite !append_assoc. }
  apply Hgen. unfold patterns.
  repeat (constructor;
          [intros c Hc; first [exact (digit_is_word c Hc)|exact Hc]|]).
  constructor.
Qed.

Lemma last_visited_cons (head : string → option string) (url final : string)
    (requests : list string) :
  head url = Some final →
  last_visited head url (url :: requests) = last_visited head final requests.
Proof.
  intros Hhead. unfold last_visited.
  destruct requests as [|r requests]; [exact Hhead|].
  rewrite last_cons_cons.
  destruct (last (r :: requests)) eqn:Hlast; [done|].
  by apply last_None in Hlast.
Qed.

(** X19: When [getVideoId] returns an identifier, it is a non-empty run of
    word characters, captured by one of the four patterns in the URL the
    chain of redirects ended at (the URL itself when no request was
    made). *)
Theorem getVideoId_result_shape
    (fuel : nat) (head : string → option string) (url : string)
    (requests : list string) (id : string) :
  getVideoId fuel head url = (requests, Some (Some id)) →
  id ≠ "" ∧ all_of is_word id = true ∧
  ∃ final pre post,
    last_visited head url requests = Some final ∧
    first_match patterns final = Some id ∧
    final = pre ++ id ++ post.
Proof.
  revert url requests. induction fuel as [|fuel IH]; intros url requests;
    cbn [getVideoId];
    destruct (first_match patterns url) as [found|] eqn:Hm.
  - intros [= <- ->]. destruct (first_match_spec _ _ Hm) as (H1 & H2 & pre & post & H3).
    split; [done|]. split; [done|]. by exists url, pre, post.
  - by destruct (is_short_link url).
  - intros [= <- ->]. destruct (first_match_spec _ _ Hm) as (H1 & H2 & pre & post & H3).
    split; [done|]. split; [done|]. by exists url, pre, post.
  - destruct (is_short_link url); [|discriminate].
    destruct (head url) as [final|] eqn:Hhead; [|discriminate].
    destruct (getVideoId fuel head final) as [reqs result] eqn:Hrec.
    intros [= <- ->].
    destruct (IH final reqs Hrec) as (H1 & H2 & final' & pre & post & H3 & H4 & H5).
    split; [done|]. split; [done|]. exists final', pre, post.
    by rewrite (last_visited_cons head url final reqs Hhead).
Qed.

Lemma getVideoId_chain
    (fuel : nat) (head : string → option string) (url : string) :
  let requests := (getVideoId fuel head url).1 in
  (length requests <= fuel)%nat ∧
  Forall (fun r => is_short_link r = true ∧ first_match patterns r = None) requests ∧
  (∀ r, requests !! 0%nat = Some r → r = url) ∧
  (∀ (i : nat) r r', requests !! i = Some r → requests !! S i = Some r' →
                     head r = Some r').
Proof.
  cbn zeta. revert url. induction fuel as [|fuel IH]; intros url; cbn [getVideoId];
    (destruct (first_match patterns url) as [found|] eqn:Hm;
     [|destruct (is_short_link url) eqn:Hs]);
    try (cbn; split; [lia|]; split; [constructor|]; done).
  destruct (head url) as [final|] eqn:Hhead.
  - destruct (IH final) as (Hlen & Hall & Hfirst & Hchain).
    destruct (getVideoId fuel head final) as [reqs result] eqn:Hrec.
    cbn [fst] in *.
    split; [cbn; lia|]. split; [by constructor|].
    split; [by intros r [= <-]|].
    intros [|i] r r'; cbn.
    + intros [= <-] Hr'. rewrite Hhead. f_equal. symmetry. by apply Hfirst.
    + apply Hchain.
  - cbn. split; [lia|]. split; [by repeat constructor|].
    split; [by intros r [= <-]|]. by intros [|i] r r'.
Qed.

(** X20: The [HEAD] requests of [getVideoId] form a chain of redirects that
    starts at the URL, and each is made for a URL that names a short-link
    host and matches none of the patterns.  So nothing is requested for a
    URL without such a host, nor for one that carries an identifier, a
    short link with its code included. *)
Theorem getVideoId_requests
    (fuel : nat) (head : string → option string) (url : string) :
  let requests := (getVideoId fuel head url).1 in
  (length requests <= fuel)%nat ∧
  Forall (fun r => is_short_link r = true ∧ first_match patterns r = None) requests ∧
  (∀ r, requests !! 0%nat = Some r → r = url) ∧
  (∀ (i : nat) r r', requests !! i = Some r → requests !! S i = Some r' →
                     head r = Some r') ∧
  (is_short_link url = false →
   getVideoId fuel head url = ([], Some (first_match patterns url))) ∧
  (∀ id, first_match patterns url = Some id →
         getVideoId fuel head url = ([], Some (Some id))).
Proof.
  cbn zeta. destruct (getVideoId_chain fuel head url) as (Hlen & Hall & Hfirst & Hchain).
  split; [done|]. split; [done|]. split; [done|]. split; [done|]. split.
  - intros Hs. destruct fuel; cbn [getVideoId]; rewrite Hs;
      by destruct (first_match patterns url).
  - intros id Hm. destruct fuel; cbn [getVideoId]; by rewrite Hm.
Qed.

(** X21: Nothing bounds the chain: when the redirects stay among URLs that
    name a short-link host without a code, as when such a URL answers
    with itself, [getVideoId] goes on requesting and never returns. *)
Theorem getVideoId_redirect_loop
    (head : string → option string) (looping : string → Prop) :
  (∀ v, looping v →
        first_match patterns v = None ∧ is_short_link v = true ∧
        ∃ v', head v = Some v' ∧ looping v') →
  ∀ (fuel : nat) (url : string),
    looping url →
    (getVideoId fuel head url).2 = None ∧
    length (getVideoId fuel head url).1 = fuel.
Proof.
  intros Hloop. induction fuel as [|fuel IH]; intros url Hurl;
    destruct (Hloop url Hurl) as (Hm & Hs & final & Hhead & Hfinal);
    cbn [getVideoId]; rewrite Hm, Hs; [done|].
  rewrite Hhead. destruct (IH final Hfinal) as [Hres Hlen].
  destruct (getVideoId fuel head final) as [reqs result].
  cbn in *. by rewrite Hlen.
Qed.

Lemma getVideoId_result_shape_witness :
  getVideoId 3 (fun _ => Some "https://www.tiktok.com/@a/video/7")
    "https://vm.tiktok.com/" = (["https://vm.tiktok.com/"], Some (Some "7")) ∧
  all_of is_word "7" = true.
Proof.
  split; [vm_compute; reflexivity|].
  destruct (getVideoId_result_shape 3
              (fun _ => Some "https://www.tiktok.com/@a/video/7")
              "https://vm.tiktok.com/" ["https://vm.tiktok.com/"] "7" eq_refl)
    as (_ & Hword & _).
  exact Hword.
Defined.

Lemma getVideoId_redirect_loop_witness :
  (getVideoId 50 (fun _ => Some "https://vm.tiktok.com/")
     "https://vm.tiktok.com/").2 = None ∧
  length (getVideoId 50 (fun _ => Some "https://vm.tiktok.com/")
            "https://vm.tiktok.com/").1 = 50%nat.
Proof.
  apply (getVideoId_redirect_loop (fun _ => Some "https://vm.tiktok.com/")
           (fun v => v = "https://vm.tiktok.com/")); [|reflexivity].
  intros v ->. split; [vm_compute; reflexivity|]. split; [vm_compute; reflexivity|].
  by exists "https://vm.tiktok.com/".
Defined.

Lemma aligned_at_slash (lit s t r : string) :
  all_of (not_char "/"%char) lit = true → all_of (not_char "/"%char) s = true →
  s ++ String "/"%char t = lit ++ String "/"%char r → s = lit ∧ t = r.
Proof.
  revert s. induction lit as [|a lit IH]; intros s Hlit Hs Heq.
  - rewrite append_nil in Heq. destruct s as [|c s].
    + rewrite append_nil in Heq. by injection Heq as <-.
    + rewrite append_cons in Heq. injection Heq as -> _. discriminate Hs.
  - cbn in Hlit. apply andb_true_iff in Hlit as [Ha Hlit].
    rewrite append_cons in Heq. destruct s as [|c s].
    + rewrite append_nil in Heq. injection Heq as <- _. discriminate Ha.
    + rewrite append_cons in Heq. injection Heq as -> Heq.
      cbn in Hs. apply andb_true_iff in Hs as [_ Hs].
      destruct (IH s Hlit Hs Heq) as [-> ->]. done.
Qed.

Lemma take_while_app (cls : Ascii.ascii → bool) (d rest : string) :
  all_of cls d = true → starts_with cls rest = false →
  take_while cls (d ++ rest) = d.
Proof.
  intros Hd Hrest. induction d as [|c d IH].
  - rewrite append_nil. destruct rest as [|c rest]; [done|].
    cbn in *. by rewrite Hrest.
  - cbn in Hd. apply andb_true_iff in Hd as [Hc Hd].
    rewrite append_cons. cbn. by rewrite Hc, IH.
Qed.

Lemma match_here_inside_segment (s t : string) :
  all_of (not_char "/"%char) s = true →
  starts_with is_digit t = false →
  match_here "video/" is_digit (s ++ String "/"%char t) = None.
Proof.
  intros Hs Ht. unfold match_here.
  destruct (strip_prefix "video/" (s ++ String "/"%char t)) as [r|] eqn:Hp; [|done].
  apply strip_prefix_spec in Hp.
  change ("video/" ++ r) with ("video" ++ String "/"%char r) in Hp.
  destruct (aligned_at_slash "video" s t r eq_refl Hs Hp) as [_ <-].
  destruct t as [|c t]; [done|]. cbn in *. by rewrite Ht.
Qed.

Lemma match_after_segment (user digits rest : string) :
  all_of (not_char "/"%char) user = true →
  digits ≠ "" → all_of is_digit digits = true →
  starts_with is_digit rest = false →
  match_after "video/" is_digit (user ++ "/video/" ++ digits ++ rest) = Some digits.
Proof.
  intros Huser Hne Hdigits Hrest. induction user as [|c user IH].
  - rewrite append_nil.
    change ("/video/" ++ digits ++ rest)
      with (String "/"%char ("video/" ++ digits ++ rest)).
    cbn [match_after].
    replace (match_here "video/" is_digit (String "/"%char ("video/" ++ digits ++ rest)))
      with (@None string) by reflexivity.
    assert (match_here "video/" is_digit ("video/" ++ digits ++ rest) = Some digits)
      as Hhere.
    { unfold match_here.
      rewrite (proj2 (strip_prefix_spec "video/" _ (digits ++ rest)) eq_refl).
      rewrite take_while_app by done. by destruct digits. }
    change ("video/" ++ digits ++ rest)
      with (String "v"%char ("ideo/" ++ digits ++ rest)) in *.
    cbn [match_after]. by rewrite Hhere.
  - pose proof Huser as Hall. cbn in Huser. apply andb_true_iff in Huser as [_ Huser].
    change ("/video/" ++ digits ++ rest)
      with (String "/"%char ("video/" ++ digits ++ rest)) in *.
    rewrite append_cons. cbn [match_after]. rewrite <- append_cons.
    rewrite (match_here_inside_segment (String c user)) by done.
    by apply IH.
Qed.

Lemma match_after_skip (base t : string) (cls : Ascii.ascii → bool) :
  all_of (not_char "v"%char) base = true →
  match_after "video/" cls (base ++ t) = match_after "video/" cls t.
Proof.
  intros Hbase. induction base as [|c base IH]; [done|].
  cbn in Hbase. apply andb_true_iff in Hbase as [Hc Hbase].
  rewrite append_cons. cbn [match_after].
  unfold match_here at 1. cbn [strip_prefix].
  unfold not_char in Hc. apply negb_true_iff in Hc.
  rewrite Ascii.eqb_sym, Hc. by apply IH.
Qed.

Lemma first_match_video_page (base user digits rest : string) :
  all_of (not_char "v"%char) base = true →
  all_of (not_char "/"%char) user = true →
  digits ≠ "" → all_of is_digit digits = true →
  starts_with is_digit rest = false →
  first_match patterns (base ++ user ++ "/video/" ++ digits ++ rest) = Some digits.
Proof.
  intros Hbase Huser Hne Hdigits Hrest. cbn [first_match patterns].
  by rewrite match_after_skip, match_after_segment.
Qed.

(** X22: For a video page, [<base><user>/video/<digits><rest>] with no [v]
    in the base (as in [https://www.tiktok.com/@]), no slash in the user
    name and no digit at the head of the rest, the identifier is the run
    of digits, found without any request. *)
Theorem getVideoId_canonical
    (fuel : nat) (head : string → option string)
    (base user digits rest : string) :
  all_of (not_char "v"%char) base = true →
  all_of (not_char "/"%char) user = true →
  digits ≠ "" → all_of is_digit digits = true →
  starts_with is_digit rest = false →
  getVideoId fuel head (base ++ user ++ "/video/" ++ digits ++ rest) =
    ([], Some (Some digits)).
Proof.
  intros Hbase Huser Hne Hdigits Hrest.
  pose proof (first_match_video_page base user digits rest
                Hbase Huser Hne Hdigits Hrest) as Hm.
  destruct fuel; cbn [getVideoId]; by rewrite Hm.
Qed.

Lemma getVideoId_canonical_witness :
  getVideoId 0 (fun _ => None)
    "https://www.tiktok.com/@xvideo/video/7301234567890123456?lang=en" =
    ([], Some (Some "7301234567890123456")).
Proof.
  apply (getVideoId_canonical 0 (fun _ => None) "https://www.tiktok.com/@" "xvideo"
           "7301234567890123456" "?lang=en"); (reflexivity || discriminate).
Defined.

End VideoIdFacts.

(** ** The provider adapters *)

Section AdapterFacts.
Import Js Adapter.

Lemma build_candidate (reads : option Found) (c : Found) :
  build reads = ReturnedCandidate c → reads = Some c.
Proof. destruct reads; cbn; [by intros [= ->]|discriminate]. Qed.

Ltac returned H :=
  match type of H with
  | (if ?t then _ else _) = _ =>
      let Ht := fresh "Htest" in
      destruct t eqn:Ht; [apply build_candidate in H|discriminate H]
  end.

Lemma optional_get_truthy (data : value) (key : string) (v : value) :
  get data key = Some v → optional (fun d => get d key) data = v.
Proof. unfold optional. by intros ->. Qed.

Lemma bodies_tagged :
  Forall (fun unit : string * (value → Returned) =>
            ∀ data c, unit.2 data = ReturnedCandidate c →
                      found_source c = unit.1 ∧ found_quality c = high)
    bodies.
Proof.
  unfold bodies.
  repeat (constructor;
          [intros data c H; cbn [fst snd] in *;
           unfold snaptik, tikwm, tikdown, savett, ssstik, dlpanda in H;
           returned H; simplify_option_eq; done|]).
  constructor.
Qed.

Lemma bodies_names (name : string) :
  name ∈ registered → ∃ body, (name, body) ∈ bodies.
Proof.
  unfold registered, bodies. intros Hname.
  repeat (apply elem_of_cons in Hname as [->|Hname];
          [eexists; apply list_elem_of_In; cbn; tauto|]).
  by apply elem_of_nil in Hname.
Qed.

Lemma settle_candidate {Err : Type} (body : value → Returned)
    (fetched : option Err + value) (c : Found) :
  settle body fetched = Completed (ReturnedCandidate c) →
  ∃ data, fetched = inr data ∧ body data = ReturnedCandidate c.
Proof.
  destruct fetched as [[err|]|data]; cbn; try discriminate.
  intros [= H]. by exists data.
Qed.

Lemma driven_tagged (k : Z) (answers : string → Outcome) :
  driven k answers → tagged_high answers.
Proof.
  intros Hdriven name c duration Hname Hanswer.
  destruct (bodies_names name Hname) as [body Hbody].
  destruct (Hdriven name body Hbody) as [axios Hsees].
  rewrite Hanswer in Hsees. unfold call in Hsees.
  destruct (Transport.fetchWithRetry axios k) as [trace fetched].
  cbn [snd] in Hsees. inversion Hsees as [found d Hv Ha Hd Hsettle Hc| | | |]; subst.
  symmetry in Hsettle. apply settle_candidate in Hsettle as (data & _ & Hdata).
  apply (proj1 (Forall_forall _ _) bodies_tagged (name, body) Hbody) in Hdata.
  exact Hdata.
Qed.


Lemma driven_positive (k : Z) (answers : string → Outcome) :
  1 <= k → driven k answers →
  ∀ name message, name ∈ registered → answers name ≠ Failed message.
Proof.
  intros Hk Hdriven name message Hname Hanswer.
  destruct (bodies_names name Hname) as [body Hbody].
  destruct (Hdriven name body Hbody) as [axios Hsees].
  rewrite Hanswer in Hsees. unfold call in Hsees.
  destruct (Transport.fetchWithRetry axios k) as [trace fetched] eqn:Hfetch.
  cbn [snd] in Hsees. inversion Hsees as [| | | |Hthrew Hm]; subst.
  destruct fetched as [[err|]|data]; try discriminate Hthrew.
  destruct (attempts_bounds axios k (Z.to_nat k) 0 None) as (_ & _ & Hinv); [lia|].
  unfold Transport.fetchWithRetry in Hfetch. rewrite Hfetch in Hinv.
  destruct (Hinv eq_refl) as [Hzero _]. lia.
Qed.

(** X23: Each of the six adapters tags what it returns with ['high'] and
    with the name of its own fan-out unit.  The dlpanda adapter never
    returns a candidate without a usable [videoUrl]; the savett adapter
    always fills [author], and [desc] with a text or the empty string.
    So the answers of any resolution driven by these adapters are tagged
    as the arbiter's priority needs them. *)
Theorem adapters_tag_their_results :
  map fst bodies = registered ∧
  Forall (fun unit : string * (value → Returned) =>
            ∀ data c, unit.2 data = ReturnedCandidate c →
                      found_source c = unit.1 ∧ found_quality c = high)
    bodies ∧
  (∀ data c, dlpanda data = ReturnedCandidate c →
             truthy (found_videoUrl c) = true) ∧
  (∀ data c, savett data = ReturnedCandidate c →
             truthy (found_author c) = true ∧
             (truthy (found_desc c) = true ∨ found_desc c = Str "")) ∧
  (∀ k answers, driven k answers → tagged_high answers).
Proof.
  split; [reflexivity|]. split; [exact bodies_tagged|]. split; [|split].
  - intros data c H. unfold dlpanda in H. returned H.
    unfold path in H. cbn [foldl] in H. simplify_option_eq.
    cbn [found_videoUrl]. by erewrite optional_get_truthy in Htest.
  - intros data c H. unfold savett in H. returned H.
    simplify_option_eq. cbn [found_author found_desc]. unfold or_else. split.
    + match goal with
      | |- truthy (if truthy ?a then _ else _) = _ => destruct (truthy a) eqn:Ha
      end; [exact Ha|reflexivity].
    + match goal with
      | |- truthy (if truthy ?d then _ else _) = _ ∨ _ => destruct (truthy d) eqn:Hd
      end; [left; exact Hd|right; reflexivity].
  - exact driven_tagged.
Qed.

End AdapterFacts.

Section AdapterTransport.
Import Transport Js Adapter.
Context {Err : Type}.

Lemma fetchWithRetry_not_positive (axios : Z → Err + value) (k : Z) :
  k <= 0 → fetchWithRetry axios k = ([], inl None).
Proof.
  intros Hk. unfold fetchWithRetry.
  by replace (Z.to_nat k) with 0%nat by lia.
Qed.

Lemma fetchWithRetry_null_inv (axios : Z → Err + value) (k : Z) :
  (fetchWithRetry axios k).2 = inl None → k <= 0.
Proof.
  intros Hnull. unfold fetchWithRetry in Hnull.
  destruct (attempts_bounds axios k (Z.to_nat k) 0 None) as (_ & _ & Hinv); [lia|].
  destruct (Hinv Hnull) as [Hzero _]. lia.
Qed.

(** X24: An adapter around the retrying transport.  With at least one
    attempt allowed it never rejects: a response gives what its [try]
    block makes of the body, after a single request when the first
    attempt succeeds, and a transport that fails [k] times gives [null]
    after the [k] attempts and their back-off.  With no attempt allowed
    [fetchWithRetry] throws [null], the [catch] block fails on
    [error.message], and the adapter rejects without a request. *)
Theorem adapter_over_transport
    (body : value → Returned) (axios : Z → Err + value) (k : Z) :
  (1 <= k → (call body axios k).2 ≠ Threw) ∧
  (k <= 0 → call body axios k = ([], Threw)) ∧
  (∀ data, 1 <= k → axios 0 = inr data →
           call body axios k = ([Attempt 0], Completed (body data))) ∧
  (∀ (errs : Z → Err) (j : nat),
     k = Z.of_nat (S j) →
     (∀ i, 0 <= i < k → axios i = inl (errs i)) →
     call body axios k = (backoff_schedule (S j), Completed ReturnedNull)).
Proof.
  split; [|split; [|split]].
  - intros Hk Hthrew. unfold call in Hthrew.
    destruct (fetchWithRetry axios k) as [trace fetched] eqn:Hfetch.
    cbn in Hthrew. destruct fetched as [[err|]|data]; try discriminate Hthrew.
    pose proof (fetchWithRetry_null_inv axios k) as Hinv.
    rewrite Hfetch in Hinv. specialize (Hinv eq_refl). lia.
  - intros Hk. unfold call. by rewrite fetchWithRetry_not_positive.
  - intros data Hk Hfirst. unfold call, fetchWithRetry.
    destruct (Z.to_nat k) as [|n] eqn:Hn; [lia|].
    cbn [attempts]. by rewrite Hfirst.
  - intros errs j -> Hfail. unfold call.
    rewrite (fetchWithRetry_all_fail axios errs (S j) Hfail).
    destruct (last (map (fun n : nat => errs (Z.of_nat n)) (seq 0 (S j)))) eqn:Hlast;
      [done|].
    apply last_None in Hlast. discriminate Hlast.
Qed.

End AdapterTransport.

Section FanoutErrors.
Import Engine.

Lemma fanout_errors (methods : list string) (answers : string → Outcome) :
  ∀ f usage,
    apiUsage (fan_stats f) = Some usage →
    fan_errors (fanout methods answers f).1 =
      (fan_errors f ++
       flat_map (fun n => if decide (n ∈ dom usage)
                          then settle_errors n (answers n) else [])
         methods)%list.
Proof.
  induction methods as [|name rest IH]; intros f usage Hu.
  - cbn. by rewrite app_nil_r.
  - cbn [fanout flat_map]. destruct (usage !! name) as [entry|] eqn:He.
    + rewrite (run_unit_registered _ _ _ _ _ Hu He).
      set (usage1 := <[name := settle_entry (answers name) entry]> usage).
      set (f1 := mkFanout _ _ _).
      assert (dom usage1 = dom usage) as Hdom.
      { unfold usage1. rewrite dom_insert_L.
        apply subseteq_union_1_L, singleton_subseteq_l.
        by apply elem_of_dom_2 in He. }
      specialize (IH f1 usage1 eq_refl).
      destruct (fanout rest answers f1) as [f2 rs]. cbn [fst] in *.
      rewrite IH, Hdom. cbn [fan_errors f1].
      rewrite decide_True by (by apply elem_of_dom_2 in He).
      by rewrite <- app_assoc.
    + rewrite (run_unit_unregistered _ _ _ _ Hu He).
      specialize (IH f usage Hu).
      destruct (fanout rest answers f) as [f2 rs]. cbn [fst] in *.
      rewrite IH. rewrite decide_False by (by apply not_elem_of_dom).
      done.
Qed.

Lemma registered_flat_map {A : Type} (g : string → list A)
    (usage : gmap string ApiStat) :
  dom usage = dom initial_usage →
  flat_map (fun n => if decide (n ∈ dom usage) then g n else []) apiMethods =
    flat_map g registered.
Proof.
  intros ->. unfold apiMethods, registered. cbn [flat_map].
  rewrite !decide_True by (apply elem_of_dom; eexists; vm_compute; reflexivity).
  rewrite decide_False; [by rewrite !app_nil_r|].
  rewrite elem_of_dom. intros [x Hx]. vm_compute in Hx. discriminate Hx.
Qed.

Lemma select_nonempty (pref : string) (l : list Candidate) :
  l ≠ [] → ∃ r, Arbiter.selectBestQuality pref l = inr r.
Proof.
  intros Hl. destruct (sort_nonempty l Hl) as (top & rest & Hs).
  unfold Arbiter.selectBestQuality. rewrite Hs.
  destruct (negb _); [destruct (List.find _ _)|]; by eexists.
Qed.

Variable generateCacheKey : string → string.
Local Abbreviation cache_lookup := (cache_lookup generateCacheKey).
Local Abbreviation getVideoMetadata := (getVideoMetadata generateCacheKey).
Local Abbreviation downloadVideo := (downloadVideo generateCacheKey).

(** A miss on an engine with the constructor's registry: the error thrown
    when no adapter came back with a result. *)
Lemma getVideoMetadata_none_found (w : World) (u : string) (e : Engine)
    (usage : gmap string ApiStat) :
  cache_lookup e (now_lookup w) u = None →
  apiUsage (stats e) = Some usage →
  dom usage = dom initial_usage →
  (∀ name, name ∈ registered → settle_value (answers w name) = None) →
  ∃ usage',
    getVideoMetadata w u e =
      (set_stats e (set_usage (stats e) usage'), registered,
       inl (JsError (all_failed
                       (flat_map (fun n => settle_errors n (answers w n))
                          registered)))) ∧
    dom usage' = dom usage.
Proof.
  intros Hl Hu Hdom Hnone. unfold Engine.getVideoMetadata. rewrite Hl.
  pose proof (fanout_errors apiMethods (answers w) (mkFanout (stats e) [] []) usage Hu)
    as Herrors.
  destruct (fanout_registry apiMethods (answers w) (mkFanout (stats e) [] []) usage Hu)
    as (f' & results & usage' & Hrun & Hst & Hd & Hc & Hs & Hent).
  rewrite Hrun in Herrors |- *. cbn [fst fan_errors fan_stats fan_called app] in *.
  rewrite (registered_flat_map _ usage Hdom) in Herrors.
  rewrite (registered_flat_map _ usage Hdom) in Hs.
  rewrite Hdom, registered_methods in Hc.
  assert (successful results = []) as ->.
  { rewrite Hs. unfold registered in *.
    cbn [flat_map].
    rewrite !Hnone by (apply list_elem_of_In; cbn; tauto). done. }
  exists usage'. rewrite Hst, Hc, Herrors. by split.
Qed.

(** [getVideoMetadata] throws only when nothing was found. *)
Lemma getVideoMetadata_throws_inv (w : World) (u : string) (e : Engine)
    (usage : gmap string ApiStat) (exn : Exn) :
  apiUsage (stats e) = Some usage →
  dom usage = dom initial_usage →
  (getVideoMetadata w u e).2 = inl exn →
  cache_lookup e (now_lookup w) u = None ∧
  ∀ name, name ∈ registered → settle_value (answers w name) = None.
Proof.
  intros Hu Hdom Hthrows.
  destruct (cache_lookup e (now_lookup w) u) as [c|] eqn:Hl.
  { by rewrite (getVideoMetadata_hit generateCacheKey w u e c Hl) in Hthrows. }
  split; [done|].
  destruct (getVideoMetadata_miss_result generateCacheKey w u e usage Hl Hu)
    as [_ Hsome].
  rewrite (found_among_registered (answers w) usage Hdom) in Hsome.
  set (found := flat_map _ registered) in Hsome.
  destruct (decide (found = [])) as [Hnil|Hne].
  - intros name Hname. destruct (settle_value (answers w name)) as [c|] eqn:Hc; [|done].
    exfalso. assert (c ∈ found) as Hin.
    { unfold found. apply list_elem_of_In, in_flat_map. exists name.
      split; [by apply list_elem_of_In|]. rewrite Hc. by left. }
    rewrite Hnil in Hin. by apply elem_of_nil in Hin.
  - rewrite (Hsome Hne) in Hthrows.
    destruct (select_nonempty (preferredQuality (options e)) found Hne) as [r Hr].
    by rewrite Hr in Hthrows.
Qed.

End FanoutErrors.

Section DrivenEngine.
Import Engine Adapter.
Variable generateCacheKey : string → string.

Local Abbreviation cache_lookup := (cache_lookup generateCacheKey).
Local Abbreviation getVideoMetadata := (getVideoMetadata generateCacheKey).
Local Abbreviation downloadVideo := (downloadVideo generateCacheKey).
Local Abbreviation run := (run generateCacheKey).


Lemma settle_errors_timeouts (answers : string → Outcome) (names : list string) :
  (∀ name message, name ∈ names → answers name ≠ Failed message) →
  flat_map (fun n => settle_errors n (answers n)) names =
    map (fun n => error_line n "Timeout")
      (List.filter (fun n => is_timed_out (answers n)) names).
Proof.
  induction names as [|name names IH]; intros Hall; [done|].
  cbn [flat_map List.filter].
  rewrite IH by (intros n m Hn; apply Hall; by right).
  destruct (answers name) as [c d| | |m] eqn:Ha; cbn; try done.
  by destruct (Hall name m (list_elem_of_here _ _)).
Qed.





(** X26: With at least one attempt allowed an adapter swallows its own
    failures, so the [catch] block of a fan-out unit is reached by the
    timer alone: a unit never fails with anything but 'Timeout', and
    when [getVideoMetadata] throws, its message lists exactly the units
    that timed out, nothing at all when every adapter came back empty. *)
Theorem failures_are_timeouts
    (o : UserOptions) (start : Z) (ops : list Op) (w : World) (u : string) :
  1 <= maxRetries (make_options o) →
  reset_free ops →
  driven (maxRetries (make_options o)) (answers w) →
  let e := run ops (constructor o start) in
  (∀ name message, name ∈ registered → answers w name ≠ Failed message) ∧
  (∀ exn,
     (getVideoMetadata w u e).2 = inl exn →
     exn = JsError
             (all_failed
                (map (fun n => error_line n "Timeout")
                   (List.filter (fun n => is_timed_out (answers w n)) registered)))).
Proof.
  intros Hk Hfree Hdriven e.
  pose proof (driven_positive _ _ Hk Hdriven) as Hnever.
  split; [exact Hnever|].
  intros exn Hthrows.
  destruct (run_keeps_shape generateCacheKey start ops Hfree (constructor o start)
              (initial_well_shaped start))
    as (usage & log & Hu & Hdom & _).
  fold e in Hu.
  destruct (getVideoMetadata_throws_inv generateCacheKey w u e usage exn Hu Hdom Hthrows)
    as [Hmiss Hnone].
  destruct (getVideoMetadata_none_found generateCacheKey w u e usage Hmiss Hu Hdom Hnone)
    as (usage' & Hrun & _).
  rewrite (settle_errors_timeouts (answers w) registered Hnever) in Hrun.
  rewrite Hrun in Hthrows. cbn [snd] in Hthrows. congruence.
Qed.

End DrivenEngine.


Lemma failures_are_timeouts_witness :
  (Engine.getVideoMetadata Scenario.key Outage.world Scenario.reference
     Scenario.fresh).2 =
    inl (JsError
           (all_failed
              ["snaptik: Timeout"; "tikwm: Timeout"; "tikdown: Timeout";
               "savett: Timeout"; "ssstik: Timeout"; "dlpanda: Timeout"])).
Proof.
  assert (driven (maxRetries (make_options default_user_options))
            (answers Outage.world)) as Hdriven.
  { intros name body _. exists (fun _ => inr Js.Null).
    apply (sees_timeout (body Js.Null)). }
  destruct (failures_are_timeouts Scenario.key default_user_options 0 []
              Outage.world Scenario.reference ltac:(vm_compute; discriminate)
              eq_refl Hdriven)
    as [_ Hmessage].
  destruct (Engine.getVideoMetadata Scenario.key Outage.world Scenario.reference
              Scenario.fresh).2 as [exn|found] eqn:Hres.
  - by rewrite (Hmessage exn Hres).
  - vm_compute in Hres. discriminate Hres.
Defined.

(** ** The command line *)

Section CliStrings.
Import Stdlib.Strings.Ascii.
Import VideoId Cli.

Lemma split_on_cons (sep : Ascii.ascii) (s : string) :
  ∃ piece pieces, split_on sep s = piece :: pieces.
Proof.
  induction s as [|c s (piece & pieces & IH)]; cbn; [by eexists _, _|].
  destruct (Ascii.eqb c sep); [by eexists _, _|].
  rewrite IH. by eexists _, _.
Qed.

Lemma split_on_single (sep : Ascii.ascii) (s piece : string) :
  split_on sep s = [piece] → piece = s.
Proof.
  revert piece. induction s as [|c s IH]; intros piece; cbn [split_on].
  - by intros [= <-].
  - destruct (split_on_cons sep s) as (p & ps & Hs). rewrite Hs in *.
    destruct (Ascii.eqb c sep); [discriminate|].
    intros [= <- ->]. by rewrite (IH p eq_refl).
Qed.

(** The last piece is a suffix without the separator. *)
Lemma pop_split_on (sep : Ascii.ascii) (s : string) :
  all_of (not_char sep) (pop (split_on sep s)) = true ∧
  ∃ pre, s = pre ++ pop (split_on sep s).
Proof.
  induction s as [|c s [IHall (pre & IHpre)]]; cbn [split_on].
  - split; [done|]. by exists "".
  - destruct (split_on_cons sep s) as (piece & pieces & Hs).
    rewrite Hs in *. unfold pop in *.
    destruct (Ascii.eqb_spec c sep) as [->|Hne].
    + rewrite last_cons_cons. split; [done|].
      exists (String sep pre). rewrite append_cons. by f_equal.
    + destruct pieces as [|piece' pieces].
      * cbn in *. split.
        -- rewrite IHall, andb_true_r. unfold not_char.
           by apply negb_true_iff, Ascii.eqb_neq.
        -- exists "". rewrite append_nil. f_equal.
           symmetry. by apply (split_on_single sep).
      * rewrite !last_cons_cons in *. split; [done|].
        exists (String c pre). rewrite append_cons. by f_equal.
Qed.

(** The first piece is a prefix without the separator. *)
Lemma first_piece_split_on (sep : Ascii.ascii) (s : string) :
  all_of (not_char sep) (first_piece (split_on sep s)) = true ∧
  ∃ post, s = first_piece (split_on sep s) ++ post.
Proof.
  induction s as [|c s [IHall (post & IHpost)]]; cbn [split_on].
  - split; [done|]. by exists "".
  - destruct (split_on_cons sep s) as (piece & pieces & Hs).
    rewrite Hs in *. unfold first_piece in *.
    destruct (Ascii.eqb_spec c sep) as [->|Hne].
    + split; [done|]. by exists (String sep s).
    + split.
      * cbn. rewrite IHall, andb_true_r. unfold not_char.
        by apply negb_true_iff, Ascii.eqb_neq.
      * exists post. rewrite append_cons. by f_equal.
Qed.

Lemma all_of_app (cls : Ascii.ascii → bool) (s t : string) :
  all_of cls (s ++ t) = all_of cls s && all_of cls t.
Proof.
  induction s as [|c s IH]; [done|].
  rewrite append_cons. cbn. by rewrite IH, andb_assoc.
Qed.

Lemma split_on_without (sep : Ascii.ascii) (s : string) :
  all_of (not_char sep) s = true → split_on sep s = [s].
Proof.
  induction s as [|c s IH]; [done|]. cbn.
  intros [Hc Hs]%andb_true_iff. unfold not_char in Hc.
  apply negb_true_iff in Hc. rewrite Hc, (IH Hs). done.
Qed.

Lemma pop_after_separator (sep : Ascii.ascii) (pre rest : string) :
  pop (split_on sep (pre ++ String sep rest)) = pop (split_on sep rest).
Proof.
  induction pre as [|c pre IH].
  - rewrite append_nil. cbn [split_on]. rewrite Ascii.eqb_refl.
    destruct (split_on_cons sep rest) as (piece & pieces & ->).
    unfold pop. by rewrite last_cons_cons.
  - rewrite append_cons. cbn [split_on].
    destruct (split_on_cons sep (pre ++ String sep rest)) as (piece & pieces & Hs).
    rewrite Hs in *. destruct (Ascii.eqb c sep).
    + unfold pop in *. by rewrite last_cons_cons.
    + destruct pieces as [|piece' pieces].
      * exfalso. clear IH.
        assert (length (split_on sep (pre ++ String sep rest)) >= 2)%nat as Hlen.
        { clear Hs. induction pre as [|a pre IH].
          - rewrite append_nil. cbn [split_on]. rewrite Ascii.eqb_refl.
            destruct (split_on_cons sep rest) as (p & ps & ->). cbn. lia.
          - rewrite append_cons. cbn [split_on].
            destruct (split_on_cons sep (pre ++ String sep rest)) as (p & ps & Hp).
            rewrite Hp in *. destruct (Ascii.eqb a sep); cbn in *; lia. }
        rewrite Hs in Hlen. cbn in Hlen. lia.
      * unfold pop in *. by rewrite !last_cons_cons in *.
Qed.

Lemma first_piece_before (sep : Ascii.ascii) (s rest : string) :
  all_of (not_char sep) s = true →
  first_piece (split_on sep (s ++ String sep rest)) = s.
Proof.
  induction s as [|c s IH]; intros Hs.
  - rewrite append_nil. cbn [split_on]. by rewrite Ascii.eqb_refl.
  - cbn in Hs. apply andb_true_iff in Hs as [Hc Hs].
    unfold not_char in Hc. apply negb_true_iff in Hc.
    rewrite append_cons. cbn [split_on]. rewrite Hc.
    specialize (IH Hs).
    destruct (split_on_cons sep (s ++ String sep rest)) as (piece & pieces & Hp).
    rewrite Hp in *. unfold first_piece in *. cbn in *. by rewrite IH.
Qed.

Lemma all_of_prefix (cls : Ascii.ascii → bool) (s t : string) :
  all_of cls (s ++ t) = true → all_of cls s = true.
Proof. rewrite all_of_app. by intros [? _]%andb_true_iff. Qed.

(** X27: The stem of the file [downloadTikTok] writes.  When it comes from
    the URL it is a non-empty piece of it without [/] and without [?], so
    the file lands in the working directory; a URL that ends with a slash,
    or whose last segment is only a query, has none and gets the clock
    instead. *)
Theorem videoId_stem (url : string) (now : Z) :
  (∀ s, videoId url now = Segment s →
        s ≠ "" ∧
        all_of (not_char "/"%char) s = true ∧
        all_of (not_char "?"%char) s = true ∧
        ∃ pre post, url = pre ++ s ++ post) ∧
  (∀ t, videoId url now = Stamp t → t = now) ∧
  (∀ pre, videoId (pre ++ "/") now = Stamp now) ∧
  (∀ pre query, all_of (not_char "/"%char) query = true →
                videoId (pre ++ "/?" ++ query) now = Stamp now).
Proof.
  split; [|split; [|split]].
  - intros s. unfold videoId.
    destruct (pop_split_on "/"%char url) as [Hslash (pre & Hpre)].
    destruct (first_piece_split_on "?"%char (pop (split_on "/"%char url)))
      as [Hquery (post & Hpost)].
    destruct (first_piece _) as [|c stem] eqn:Hstem; [discriminate|].
    intros [= <-]. split; [done|]. split; [|split; [done|]].
    + rewrite Hpost in Hslash. by apply all_of_prefix in Hslash.
    + exists pre, post. by rewrite <- Hpost.
  - intros t. unfold videoId. by destruct (first_piece _); intros [= <-].
  - intros pre. unfold videoId.
    change (pre ++ "/") with (pre ++ String "/"%char "").
    by rewrite pop_after_separator.
  - intros pre query Hquery. unfold videoId.
    change (pre ++ "/?" ++ query) with (pre ++ String "/"%char (String "?"%char query)).
    rewrite pop_after_separator.
    rewrite (split_on_without "/"%char (String "?"%char query)).
    + reflexivity.
    + cbn. by rewrite Hquery.
Qed.

(** X28: The page of one video, [https://www.tiktok.com/@<user>/video/<digits>]
    with or without a query: the prompt accepts it, [getVideoId] finds
    the digits without any request, and the file is named after the same
    digits. *)
Theorem video_page_end_to_end
    (fuel : nat) (head : string → option string)
    (user digits query : string) (now : Z) :
  all_of (not_char "/"%char) user = true →
  digits ≠ "" → all_of is_digit digits = true →
  query = "" ∨ (∃ q, query = String "?"%char q ∧ all_of (not_char "/"%char) q = true) →
  let url := "https://www.tiktok.com/@" ++ user ++ "/video/" ++ digits ++ query in
  validateTikTokUrl url = true ∧
  getVideoId fuel head url = ([], Some (Some digits)) ∧
  videoId url now = Segment digits.
Proof.
  intros Huser Hne Hdigits Hquery url.
  assert (Hnoslash : all_of (not_char "/"%char) digits = true).
  { apply (all_of_weaken is_digit); [|done].
    intros c Hc. unfold not_char. apply negb_true_iff, Ascii.eqb_neq. by intros ->. }
  assert (Hnoquery : all_of (not_char "?"%char) digits = true).
  { apply (all_of_weaken is_digit); [|done].
    intros c Hc. unfold not_char. apply negb_true_iff, Ascii.eqb_neq. by intros ->. }
  split; [reflexivity|]. split.
  - assert (first_match patterns url = Some digits) as Hm.
    { apply (first_match_video_page "https://www.tiktok.com/@"); try done.
      destruct Hquery as [->|(q & -> & _)]; done. }
    destruct fuel; cbn [getVideoId]; by rewrite Hm.
  - unfold videoId, url.
    change ("https://www.tiktok.com/@" ++ user ++ "/video/" ++ digits ++ query)
      with ("https://www.tiktok.com/@" ++ user ++ "/video" ++ String "/"%char (digits ++ query)).
    rewrite <- !append_assoc. rewrite pop_after_separator.
    rewrite (split_on_without "/"%char (digits ++ query)).
    + unfold pop. cbn [last].
      destruct Hquery as [->|(q & -> & Hq)].
      * replace (digits ++ "") with digits
          by (clear; induction digits as [|c d IH]; [done|]; by rewrite append_cons, <- IH).
        rewrite split_on_without by done. cbn. by destruct digits.
      * rewrite first_piece_before by done. by destruct digits.
    + rewrite all_of_app, Hnoslash.
      destruct Hquery as [->|(q & -> & Hq)]; [done|]. cbn. by rewrite Hq.
Qed.

Lemma video_page_end_to_end_witness :
  validateTikTokUrl "https://www.tiktok.com/@a/video/7?lang=en" = true ∧
  getVideoId 0 (fun _ => None) "https://www.tiktok.com/@a/video/7?lang=en" =
    ([], Some (Some "7")) ∧
  videoId "https://www.tiktok.com/@a/video/7?lang=en" 99 = Segment "7".
Proof.
  apply (video_page_end_to_end 0 (fun _ => None) "a" "7" "?lang=en" 99);
    try (reflexivity || discriminate).
  right. by exists "lang=en".
Defined.

End CliStrings.

Section CliFacts.
Import Engine Cli.
Variable generateCacheKey : string → string.

Local Abbreviation downloadTikTok := (downloadTikTok generateCacheKey).

Lemma registered_start (name : string) :
  name ∈ registered →
  name ≠ "" ∧ name ∈ apiMethods ∧ initial_usage !! name = Some zero_stat.
Proof.
  unfold registered. intros Hname.
  repeat (apply elem_of_cons in Hname as [->|Hname];
          [split; [discriminate|]; split;
           [apply list_elem_of_In; cbn; tauto|vm_compute; reflexivity]|]).
  by apply elem_of_nil in Hname.
Qed.

Lemma round_integer (z : Z) :
  Qfloor ((0 * inject_Z 0 + inject_Z z) / inject_Z 1 + (1 # 2)) = z.
Proof.
  assert ((0 * inject_Z 0 + inject_Z z) / inject_Z 1 + (1 # 2) ==
          inject_Z z + (1 # 2))%Q as -> by (field).
  unfold Qfloor, Qplus, inject_Z. cbn [Qnum Qden].
  symmetry. apply (Z.div_unique _ _ _ 1); lia.
Qed.

(** X29: What a successful [downloadTikTok] displays, whatever the URL and
    the providers' answers.  Its engine is new, so the download it makes
    is the first: the success rate is 100, the response time is the
    duration of that download, and the cache status is always a miss.
    The provider that won was called once, and its success was counted
    by its fan-out unit and again by the ['success'] handler: the panel
    reports one call with a success rate of 200. *)
Theorem downloadTikTok_summary
    (world : Cli.World) (url : string) (summary : Summary) :
  tagged_high (answers (resolution (download world))) →
  downloadTikTok world url = inr summary →
  shown_file summary = videoId url (at_naming world) ∧
  shown_source summary ∈ registered ∧
  shown_quality summary = high ∧
  shown_successRate summary = JsNum.of_Z 100 ∧
  shown_responseTime summary =
    JsNum.of_Z (now_end (download world) - now_start (download world)) ∧
  shown_cacheHit summary = false ∧
  ∃ panel,
    shown_panel summary = Some panel ∧
    panel_calls panel = 1 ∧
    panel_successRate panel = JsNum.of_Z 200.
Proof.
  intros Htag. unfold Cli.downloadTikTok.
  set (tiktok := constructor settings (at_construction world)).
  destruct (downloadVideo generateCacheKey (download world) url tiktok)
    as [[after called] outcome] eqn:Hrun.
  destruct outcome as [exn|videoInfo]; [discriminate|].
  destruct (downloadVideo_success generateCacheKey _ _ _ _ _ _ Hrun)
    as (e1 & metadata & s3 & Hres & Hurl & Hinfo & Hhandler & ->).
  set (e0 := set_stats tiktok (bump_total (stats tiktok))) in *.
  destruct (getVideoMetadata_miss generateCacheKey (resolution (download world)) url e0
              initial_usage)
    as (usage1 & found & r & Hres' & _ & Hent & Hfound & Hin);
    [by apply cache_lookup_no_entry|done|].
  rewrite Hres in Hres'. injection Hres' as -> _ <-.
  specialize (Hin metadata eq_refl). rewrite Hfound in Hin.
  destruct (found_is_called _ _ _ _ Hin) as (n & duration & _ & _ & Hanswer & Hreg).
  rewrite registered_methods in Hreg. fold registered in Hreg.
  destruct (Htag n metadata duration Hreg Hanswer) as [Hsource Hquality].
  destruct (registered_start n Hreg) as (Hname & Hmethod & Hzero).
  assert (usage1 !! n = Some (record_success duration (bump_calls zero_stat))) as Hmid.
  { rewrite Hent, decide_True by done. by rewrite Hzero, Hanswer. }
  subst videoInfo.
  unfold on_success in Hhandler.
  cbn [apiUsage record_download set_usage stats info_of info_source] in Hhandler.
  rewrite Hsource, Hmid in Hhandler. injection Hhandler as <-.
  cbn [info_of info_url info_source info_author info_quality].
  rewrite Hurl, Hsource, Hquality. cbn [negb].
  destruct (saving world); [discriminate|].
  cbn [stats set_stats getDetailedStats errors set_usage record_download
       bump_total initial_stats tiktok constructor e0].
  destruct (String.eqb_spec n "") as [Hempty|_]; [done|]. cbn [negb].
  cbn [detailed_stats apiUsage set_usage]. rewrite lookup_insert_eq.
  cbn [option_map]. intros [= <-].
  cbn [shown_file shown_source shown_quality shown_successRate shown_responseTime
       shown_cacheHit shown_panel detailed_successRate detailed_averageSpeedMs
       detailed_stats cacheSaves set_usage record_download bump_total initial_stats
       successfulDownloads totalDownloads averageSpeed].
  split; [done|]. split; [done|]. split; [done|]. split; [reflexivity|]. split.
  - unfold JsNum.running_mean, JsNum.of_Z. cbn [Z.add Z.sub Z.opp Z.pos_sub].
    unfold JsNum.round, JsNum.div, JsNum.add, JsNum.mul, JsNum.is_zero.
    cbn [inject_Z Qnum Z.eqb]. f_equal. f_equal. apply round_integer.
  - split; [reflexivity|]. eexists. split; [reflexivity|]. split; reflexivity.
Qed.

End CliFacts.

Lemma downloadTikTok_summary_witness :
  ∃ summary panel,
    Cli.downloadTikTok Scenario.key CliRun.world Scenario.reference = inr summary ∧
    Cli.shown_cacheHit summary = false ∧
    Cli.shown_panel summary = Some panel ∧
    Cli.panel_successRate panel = JsNum.of_Z 200.
Proof.
  assert (tagged_high (answers (resolution (Cli.download CliRun.world)))) as Htag.
  { intros name c duration _. cbn. unfold Scenario.providers.
    destruct (String.eqb name "snaptik") eqn:Hname; [|discriminate].
    apply String.eqb_eq in Hname as ->. by intros [= <- _]. }
  destruct (Cli.downloadTikTok Scenario.key CliRun.world Scenario.reference)
    as [exn|summary] eqn:Hrun; [vm_compute in Hrun; discriminate Hrun|].
  destruct (downloadTikTok_summary Scenario.key CliRun.world Scenario.reference
              summary Htag Hrun)
    as (_ & _ & _ & _ & _ & Hmiss & panel & Hpanel & _ & Hrate).
  by exists summary, panel.
Defined.

(** ** A preference the arbiter does not know *)

Section Preference.
Import Arbiter.

(** X30: [preferredQuality] is not checked anywhere.  Left out or empty it is
    ['high']; and any text other than ['medium'] and ['low'], a misspelt
    or differently capitalised tier included, selects exactly what
    ['high'] selects, over every list of candidates. *)
Theorem unknown_preference_is_high (o : UserOptions) (l : list Candidate) :
  preferredQuality (make_options o) ∉ ["medium"; "low"] →
  preferredQuality (make_options o) ≠ "" ∧
  (user_preferredQuality o = None ∨ user_preferredQuality o = Some "" →
   preferredQuality (make_options o) = "high") ∧
  selectBestQuality (preferredQuality (make_options o)) l =
    selectBestQuality "high" l.
Proof.
  intros Hunknown. split; [|split].
  - cbn. unfold or_string. destruct (user_preferredQuality o) as [s|]; [|done].
    destruct (String.eqb_spec s ""); done.
  - cbn. by intros [->| ->].
  - destruct (String.eqb_spec (preferredQuality (make_options o)) "high") as [->|Hne];
      [done|].
    apply select_fallback. intros r _ Hr. apply Hunknown.
    rewrite <- Hr. destruct (quality r); cbn in *.
    + by rewrite <- Hr in Hne.
    + by left.
    + right. by left.
Qed.

Lemma unknown_preference_is_high_witness :
  let o := mkUserOptions None None (Some "High") None None in
  let results :=
    [mkCandidate (Some "https://v/2") None None medium "webscraping";
     mkCandidate (Some "https://v/1") None None high "tikwm"] in
  preferredQuality (make_options o) = "High" ∧
  selectBestQuality (preferredQuality (make_options o)) results =
    selectBestQuality "high" results.
Proof.
  split; [reflexivity|].
  apply (unknown_preference_is_high
           (mkUserOptions None None (Some "High") None None)).
  intros Hin. repeat (apply elem_of_cons in Hin as [Hin|Hin]; [discriminate Hin|]).
  by apply elem_of_nil in Hin.
Defined.

End Preference.
